(** * One LSTM recurrence step: the kernels of [caffe2/operators/lstm_unit_op.h]

    The header defines, in namespace [caffe2::detail], two scalar helpers
    ([sigmoid], [tanh]) and two loops over flat buffers ([LSTMUnit],
    [LSTMUnitGradient]).  Both kernels are templates over the scalar type
    [T]; the embedding below is generic over an interface [Scalar T] that
    lists exactly the arithmetic the header uses (the instance of the
    templates at one scalar type, such as [T = double]), and is then
    instantiated at the real numbers and at binary64 floats.

    Modelling conventions.
    - [int] and [int32_t] values are integers of [Z]; the header does no
      arithmetic on them beyond index computations, which are assumed not
      to overflow.
    - A pointer [T* p] is an offset into a buffer, a [list T];  [p[k]] reads
      position [p + k] and [p += D] adds [D] to the offset.  An access
      outside the buffer is undefined behaviour in C++ and is modelled by
      the failure [None].
    - Input and output buffers are distinct objects (no aliasing). *)

From Stdlib Require Import ZArith Lia Reals Lra PrimFloat.
From stdpp Require Import base option list.

Local Open Scope Z_scope.

(** ** The scalar type [T] of the templates *)

Class Scalar (T : Type) : Type := {
  sc_zero : T;               (* the literal [0] converted to [T] *)
  sc_one : T;                (* the literals [1] and [1.] *)
  sc_two : T;                (* the literal [2.] *)
  sc_add : T -> T -> T;
  sc_sub : T -> T -> T;
  sc_mul : T -> T -> T;
  sc_div : T -> T -> T;
  sc_neg : T -> T;
  sc_exp : T -> T            (* [exp] of the host's math library *)
}.

Declare Scope scalar_scope.
Delimit Scope scalar_scope with sc.
Notation "0" := sc_zero : scalar_scope.
Notation "1" := sc_one : scalar_scope.
Notation "2" := sc_two : scalar_scope.
Infix "+" := sc_add : scalar_scope.
Infix "-" := sc_sub : scalar_scope.
Infix "*" := sc_mul : scalar_scope.
Infix "/" := sc_div : scalar_scope.
Notation "- x" := (sc_neg x) : scalar_scope.

(** ** Buffers, pointers and counted loops *)

(** [buf[i]] as an rvalue. *)
Definition load {A : Type} (buf : list A) (i : Z) : option A :=
  if (0 <=? i) && (i <? Z.of_nat (length buf)) then buf !! Z.to_nat i else None.

(** [buf[i] = v]. *)
Definition store {A : Type} (buf : list A) (i : Z) (v : A) : option (list A) :=
  if (0 <=? i) && (i <? Z.of_nat (length buf))
  then Some (<[Z.to_nat i := v]> buf) else None.

(** [cnt] iterations of a loop body, the counter starting at [i]. *)
Fixpoint for_loop {S : Type} (i : Z) (cnt : nat)
    (body : Z -> S -> option S) (s : S) : option S :=
  match cnt with
  | O => Some s
  | Datatypes.S k => s' ← body i s; for_loop (i + 1) k body s'
  end.

(** [for (int i = 0; i < hi; ++i) body]. *)
Definition for_int {S : Type} (hi : Z) (body : Z -> S -> option S) (s : S)
    : option S :=
  for_loop 0 (Z.to_nat hi) body s.

Module detail.
Section Kernels.
Context {T : Type} `{Scalar T}.
Local Open Scope scalar_scope.

(** [return 1. / (1. + exp(-x));] *)
Definition sigmoid (x : T) : T := 1 / (1 + sc_exp (- x)).

(** [return 2. * sigmoid(2. * x) - 1.;] *)
Definition tanh (x : T) : T := 2 * sigmoid (2 * x) - 1.

(** [const bool valid = t < seqLengths[n];] once the length is read. *)
Definition valid (t len : Z) : bool := (t <? len)%Z.

(** *** Forward step *)

(** The moving pointers of [LSTMUnit] and the two output buffers. *)
Record fwd_state : Type := {
  fw_C_prev : Z;
  fw_X : Z;
  fw_C : Z;
  fw_H : Z;
  fw_Cbuf : list T;
  fw_Hbuf : list T
}.

(** Body of the inner loop, lines 34-47, at feature [d]. *)
Definition LSTMUnit_feature (D : Z) (C_prev X : list T) (vld : bool)
    (pC_prev pX pC pH : Z) (d : Z) (out : list T * list T)
    : option (list T * list T) :=
  let '(C, H) := out in
  if negb vld then
    H ← store H (pH + d)%Z 0;
    c_prev ← load C_prev (pC_prev + d)%Z;
    C ← store C (pC + d)%Z c_prev;
    Some (C, H)
  else
    x_i ← load X (pX + d)%Z;
    let i := sigmoid x_i in
    x_f ← load X (pX + (1 * D + d))%Z;
    let f := sigmoid x_f in
    x_o ← load X (pX + (2 * D + d))%Z;
    let o := sigmoid x_o in
    x_g ← load X (pX + (3 * D + d))%Z;
    let g := tanh x_g in
    c_prev ← load C_prev (pC_prev + d)%Z;
    let c := f * c_prev + i * g in
    C ← store C (pC + d)%Z c;
    let tanh_c := tanh c in
    H ← store H (pH + d)%Z (o * tanh_c);
    Some (C, H).

(** Body of the outer loop, lines 32-52, for sequence [n]. *)
Definition LSTMUnit_seq (D t : Z) (C_prev X : list T) (seqLengths : list Z)
    (n : Z) (s : fwd_state) : option fwd_state :=
  len ← load seqLengths n;
  let vld := valid t len in
  out ← for_int D
    (LSTMUnit_feature D C_prev X vld (fw_C_prev s) (fw_X s) (fw_C s) (fw_H s))
    (fw_Cbuf s, fw_Hbuf s);
  Some {| fw_C_prev := (fw_C_prev s + D)%Z;
          fw_X := (fw_X s + 4 * D)%Z;
          fw_C := (fw_C s + D)%Z;
          fw_H := (fw_H s + D)%Z;
          fw_Cbuf := out.1;
          fw_Hbuf := out.2 |}.

(** The state on entry: every pointer at the start of its buffer. *)
Definition fwd_init (C H : list T) : fwd_state :=
  {| fw_C_prev := 0; fw_X := 0; fw_C := 0; fw_H := 0;
     fw_Cbuf := C; fw_Hbuf := H |}.

(** [LSTMUnit(N, D, t, C_prev, X, seqLengths, C, H, context)]: the result
    is the contents of [C] and [H] on return. *)
Definition LSTMUnit (N D t : Z) (C_prev X : list T) (seqLengths : list Z)
    (C H : list T) : option (list T * list T) :=
  s ← for_int N (LSTMUnit_seq D t C_prev X seqLengths) (fwd_init C H);
  Some (fw_Cbuf s, fw_Hbuf s).

(** *** Backward step *)

(** The moving pointers of [LSTMUnitGradient] and its two output buffers. *)
Record bwd_state : Type := {
  bw_C_prev : Z;
  bw_X : Z;
  bw_C : Z;
  bw_H : Z;
  bw_C_diff : Z;
  bw_H_diff : Z;
  bw_X_diff : Z;
  bw_C_prev_diff : Z;
  bw_C_prev_diff_buf : list T;
  bw_X_diff_buf : list T
}.

(** Body of the inner loop, lines 74-99, at feature [d]. *)
Definition LSTMUnitGradient_feature (D : Z) (C_prev X C C_diff H_diff : list T)
    (vld : bool) (pC_prev pX pC pC_diff pH_diff pX_diff pC_prev_diff : Z)
    (d : Z) (out : list T * list T) : option (list T * list T) :=
  let '(C_prev_diff, X_diff) := out in
  let c_prev_diff := (pC_prev_diff + d)%Z in
  let i_diff := (pX_diff + d)%Z in
  let f_diff := (pX_diff + 1 * D + d)%Z in
  let o_diff := (pX_diff + 2 * D + d)%Z in
  let g_diff := (pX_diff + 3 * D + d)%Z in
  if negb vld then
    c_diff ← load C_diff (pC_diff + d)%Z;
    C_prev_diff ← store C_prev_diff c_prev_diff c_diff;
    X_diff ← store X_diff i_diff 0;
    X_diff ← store X_diff f_diff 0;
    X_diff ← store X_diff o_diff 0;
    X_diff ← store X_diff g_diff 0;
    Some (C_prev_diff, X_diff)
  else
    x_i ← load X (pX + d)%Z;
    let i := sigmoid x_i in
    x_f ← load X (pX + (1 * D + d))%Z;
    let f := sigmoid x_f in
    x_o ← load X (pX + (2 * D + d))%Z;
    let o := sigmoid x_o in
    x_g ← load X (pX + (3 * D + d))%Z;
    let g := tanh x_g in
    c_prev ← load C_prev (pC_prev + d)%Z;
    c ← load C (pC + d)%Z;
    let tanh_c := tanh c in
    c_diff ← load C_diff (pC_diff + d)%Z;
    h_diff ← load H_diff (pH_diff + d)%Z;
    let c_term_diff := c_diff + h_diff * o * (1 - tanh_c * tanh_c) in
    C_prev_diff ← store C_prev_diff c_prev_diff (c_term_diff * f);
    X_diff ← store X_diff i_diff (c_term_diff * g * i * (1 - i));
    X_diff ← store X_diff f_diff (c_term_diff * c_prev * f * (1 - f));
    X_diff ← store X_diff o_diff (h_diff * tanh_c * o * (1 - o));
    X_diff ← store X_diff g_diff (c_term_diff * i * (1 - g * g));
    Some (C_prev_diff, X_diff).

(** Body of the outer loop, lines 72-108, for sequence [n]. *)
Definition LSTMUnitGradient_seq (D t : Z) (C_prev X : list T)
    (seqLengths : list Z) (C H C_diff H_diff : list T)
    (n : Z) (s : bwd_state) : option bwd_state :=
  len ← load seqLengths n;
  let vld := valid t len in
  out ← for_int D
    (LSTMUnitGradient_feature D C_prev X C C_diff H_diff vld
       (bw_C_prev s) (bw_X s) (bw_C s) (bw_C_diff s) (bw_H_diff s)
       (bw_X_diff s) (bw_C_prev_diff s))
    (bw_C_prev_diff_buf s, bw_X_diff_buf s);
  Some {| bw_C_prev := (bw_C_prev s + D)%Z;
          bw_X := (bw_X s + 4 * D)%Z;
          bw_C := (bw_C s + D)%Z;
          bw_H := (bw_H s + D)%Z;
          bw_C_diff := (bw_C_diff s + D)%Z;
          bw_H_diff := (bw_H_diff s + D)%Z;
          bw_X_diff := (bw_X_diff s + 4 * D)%Z;
          bw_C_prev_diff := (bw_C_prev_diff s + D)%Z;
          bw_C_prev_diff_buf := out.1;
          bw_X_diff_buf := out.2 |}.

Definition bwd_init (C_prev_diff X_diff : list T) : bwd_state :=
  {| bw_C_prev := 0; bw_X := 0; bw_C := 0; bw_H := 0;
     bw_C_diff := 0; bw_H_diff := 0; bw_X_diff := 0; bw_C_prev_diff := 0;
     bw_C_prev_diff_buf := C_prev_diff; bw_X_diff_buf := X_diff |}.

(** [LSTMUnitGradient(N, D, t, C_prev, X, seqLengths, C, H, C_diff, H_diff,
    C_prev_diff, X_diff, context)]: the result is the contents of
    [C_prev_diff] and [X_diff] on return. *)
Definition LSTMUnitGradient (N D t : Z) (C_prev X : list T)
    (seqLengths : list Z) (C H C_diff H_diff : list T)
    (C_prev_diff X_diff : list T) : option (list T * list T) :=
  s ← for_int N (LSTMUnitGradient_seq D t C_prev X seqLengths C H C_diff H_diff)
        (bwd_init C_prev_diff X_diff);
  Some (bw_C_prev_diff_buf s, bw_X_diff_buf s).

(** *** The recomputing variant of the backward step

    The specification describes the valid branch of the backward kernel as
    recomputing the new cell value [c = f * c_prev + i * g].  This variant
    follows those words: it is [LSTMUnitGradient] with line 91,
    [const T c = C[d];], replaced by the recomputation, and so without the
    buffer [C]. *)

Definition LSTMUnitGradient_recompute_feature (D : Z)
    (C_prev X C_diff H_diff : list T)
    (vld : bool) (pC_prev pX pC_diff pH_diff pX_diff pC_prev_diff : Z)
    (d : Z) (out : list T * list T) : option (list T * list T) :=
  let '(C_prev_diff, X_diff) := out in
  let c_prev_diff := (pC_prev_diff + d)%Z in
  let i_diff := (pX_diff + d)%Z in
  let f_diff := (pX_diff + 1 * D + d)%Z in
  let o_diff := (pX_diff + 2 * D + d)%Z in
  let g_diff := (pX_diff + 3 * D + d)%Z in
  if negb vld then
    c_diff ← load C_diff (pC_diff + d)%Z;
    C_prev_diff ← store C_prev_diff c_prev_diff c_diff;
    X_diff ← store X_diff i_diff 0;
    X_diff ← store X_diff f_diff 0;
    X_diff ← store X_diff o_diff 0;
    X_diff ← store X_diff g_diff 0;
    Some (C_prev_diff, X_diff)
  else
    x_i ← load X (pX + d)%Z;
    let i := sigmoid x_i in
    x_f ← load X (pX + (1 * D + d))%Z;
    let f := sigmoid x_f in
    x_o ← load X (pX + (2 * D + d))%Z;
    let o := sigmoid x_o in
    x_g ← load X (pX + (3 * D + d))%Z;
    let g := tanh x_g in
    c_prev ← load C_prev (pC_prev + d)%Z;
    let c := f * c_prev + i * g in
    let tanh_c := tanh c in
    c_diff ← load C_diff (pC_diff + d)%Z;
    h_diff ← load H_diff (pH_diff + d)%Z;
    let c_term_diff := c_diff + h_diff * o * (1 - tanh_c * tanh_c) in
    C_prev_diff ← store C_prev_diff c_prev_diff (c_term_diff * f);
    X_diff ← store X_diff i_diff (c_term_diff * g * i * (1 - i));
    X_diff ← store X_diff f_diff (c_term_diff * c_prev * f * (1 - f));
    X_diff ← store X_diff o_diff (h_diff * tanh_c * o * (1 - o));
    X_diff ← store X_diff g_diff (c_term_diff * i * (1 - g * g));
    Some (C_prev_diff, X_diff).

Definition LSTMUnitGradient_recompute_seq (D t : Z) (C_prev X : list T)
    (seqLengths : list Z) (C_diff H_diff : list T)
    (n : Z) (s : bwd_state) : option bwd_state :=
  len ← load seqLengths n;
  let vld := valid t len in
  out ← for_int D
    (LSTMUnitGradient_recompute_feature D C_prev X C_diff H_diff vld
       (bw_C_prev s) (bw_X s) (bw_C_diff s) (bw_H_diff s)
       (bw_X_diff s) (bw_C_prev_diff s))
    (bw_C_prev_diff_buf s, bw_X_diff_buf s);
  Some {| bw_C_prev := (bw_C_prev s + D)%Z;
          bw_X := (bw_X s + 4 * D)%Z;
          bw_C := (bw_C s + D)%Z;
          bw_H := (bw_H s + D)%Z;
          bw_C_diff := (bw_C_diff s + D)%Z;
          bw_H_diff := (bw_H_diff s + D)%Z;
          bw_X_diff := (bw_X_diff s + 4 * D)%Z;
          bw_C_prev_diff := (bw_C_prev_diff s + D)%Z;
          bw_C_prev_diff_buf := out.1;
          bw_X_diff_buf := out.2 |}.

Definition LSTMUnitGradient_recompute (N D t : Z) (C_prev X : list T)
    (seqLengths : list Z) (C_diff H_diff : list T)
    (C_prev_diff X_diff : list T) : option (list T * list T) :=
  s ← for_int N
        (LSTMUnitGradient_recompute_seq D t C_prev X seqLengths C_diff H_diff)
        (bwd_init C_prev_diff X_diff);
  Some (bw_C_prev_diff_buf s, bw_X_diff_buf s).

(** *** Buffer shapes

    What the operator classes guarantee before they call the kernels:
    [N] sequences of [D] features, [4 * D] gate values per sequence, one
    length per sequence.  Buffers may be longer than needed. *)

Record fwd_shapes (N D : Z) (C_prev X : list T) (seqLengths : list Z)
    (C H : list T) : Prop := {
  fs_N : (0 <= N)%Z;
  fs_D : (0 <= D)%Z;
  fs_C_prev : (N * D <= Z.of_nat (length C_prev))%Z;
  fs_X : (N * (4 * D) <= Z.of_nat (length X))%Z;
  fs_seqLengths : (N <= Z.of_nat (length seqLengths))%Z;
  fs_C : (N * D <= Z.of_nat (length C))%Z;
  fs_H : (N * D <= Z.of_nat (length H))%Z
}.

Record bwd_shapes (N D : Z) (C_prev X : list T) (seqLengths : list Z)
    (C C_diff H_diff C_prev_diff X_diff : list T) : Prop := {
  bs_N : (0 <= N)%Z;
  bs_D : (0 <= D)%Z;
  bs_C_prev : (N * D <= Z.of_nat (length C_prev))%Z;
  bs_X : (N * (4 * D) <= Z.of_nat (length X))%Z;
  bs_seqLengths : (N <= Z.of_nat (length seqLengths))%Z;
  bs_C : (N * D <= Z.of_nat (length C))%Z;
  bs_C_diff : (N * D <= Z.of_nat (length C_diff))%Z;
  bs_H_diff : (N * D <= Z.of_nat (length H_diff))%Z;
  bs_C_prev_diff : (N * D <= Z.of_nat (length C_prev_diff))%Z;
  bs_X_diff : (N * (4 * D) <= Z.of_nat (length X_diff))%Z
}.

End Kernels.
End detail.

(** ** The operators

    [LSTMUnitOp] and [LSTMUnitGradientOp] fetch dimensions and buffers
    from their input tensors, check [4 * D == G], size the outputs and
    call the kernels. *)

(** Modelled from the spec: the tensor class of the framework
    ([caffe2/core/tensor.h], not part of this header).  A tensor is a list
    of dimensions and a flat buffer; [dim(i)] is undefined when the tensor
    has no dimension [i]. *)
Record tensor (A : Type) : Type := {
  dims : list Z;
  data : list A
}.
Arguments dims {A} _.
Arguments data {A} _.

Definition dim {A : Type} (x : tensor A) (i : Z) : option Z :=
  load (dims x) i.

(** Modelled from the spec: [Output(k)->ResizeLike(src)] followed by
    [mutable_data<T>()] yields a tensor with the dimensions of [src] whose
    storage [raw] has unspecified contents. *)
Definition ResizeLike {A : Type} (src : tensor A) (raw : list A) : tensor A :=
  {| dims := dims src; data := raw |}.

(** How a call of [RunOnDevice] ends: it returns [true] with its outputs,
    the fatal [CHECK_EQ] fires, or it runs into undefined behaviour. *)
Inductive outcome (A : Type) : Type :=
  | Returned (outputs : A)
  | CheckFailed
  | Undefined.
Arguments Returned {A} _.
Arguments CheckFailed {A}.
Arguments Undefined {A}.

Module LSTMUnitOp.
Section Op.
Context {T : Type} `{Scalar T}.

(** Lines 119-138.  The outputs are [(HIDDEN_T, CELL_T)]; [C_raw] and
    [H_raw] are the storage of the two outputs before the kernel runs. *)
Definition RunOnDevice (CELL_T_M_1 GATES : tensor T)
    (SEQ_LENGTHS TIMESTEP : tensor Z) (C_raw H_raw : list T)
    : outcome (tensor T * tensor T) :=
  match dim CELL_T_M_1 1, dim GATES 2, dim CELL_T_M_1 2 with
  | Some N, Some G, Some D =>
      if 4 * D =? G then
        let C_prev := data CELL_T_M_1 in
        let X := data GATES in
        let seqLengths := data SEQ_LENGTHS in
        match load (data TIMESTEP) 0 with
        | Some t =>
            let C := ResizeLike CELL_T_M_1 C_raw in
            let H := ResizeLike CELL_T_M_1 H_raw in
            match detail.LSTMUnit N D t C_prev X seqLengths
                    (data C) (data H) with
            | Some (C', H') =>
                Returned ({| dims := dims H; data := H' |},
                          {| dims := dims C; data := C' |})
            | None => Undefined
            end
        | None => Undefined
        end
      else CheckFailed
  | _, _, _ => Undefined
  end.

End Op.
End LSTMUnitOp.

Module LSTMUnitGradientOp.
Section Op.
Context {T : Type} `{Scalar T}.

(** Lines 151-187.  The outputs are [(CELL_T_M_1_GRAD, GATES_GRAD)];
    [C_prev_diff_raw] and [X_diff_raw] are their storage before the kernel
    runs. *)
Definition RunOnDevice (CELL_T_M_1 GATES : tensor T)
    (SEQ_LENGTHS TIMESTEP : tensor Z)
    (HIDDEN_T CELL_T HIDDEN_T_GRAD CELL_T_GRAD : tensor T)
    (C_prev_diff_raw X_diff_raw : list T)
    : outcome (tensor T * tensor T) :=
  match dim CELL_T_M_1 1, dim GATES 2, dim CELL_T_M_1 2 with
  | Some N, Some G, Some D =>
      if 4 * D =? G then
        let C_prev := data CELL_T_M_1 in
        let X := data GATES in
        match load (data TIMESTEP) 0 with
        | Some t =>
            let C := data CELL_T in
            let H := data HIDDEN_T in
            let C_diff := data CELL_T_GRAD in
            let H_diff := data HIDDEN_T_GRAD in
            let seqLengths := data SEQ_LENGTHS in
            let C_prev_diff := ResizeLike CELL_T_M_1 C_prev_diff_raw in
            let X_diff := ResizeLike GATES X_diff_raw in
            match detail.LSTMUnitGradient N D t C_prev X seqLengths
                    C H C_diff H_diff (data C_prev_diff) (data X_diff) with
            | Some (C_prev_diff', X_diff') =>
                Returned ({| dims := dims C_prev_diff; data := C_prev_diff' |},
                          {| dims := dims X_diff; data := X_diff' |})
            | None => Undefined
            end
        | None => Undefined
        end
      else CheckFailed
  | _, _, _ => Undefined
  end.

End Op.
End LSTMUnitGradientOp.

(** A tensor of shape [1 x rows x cols] with a buffer of that size. *)
Definition shaped {A : Type} (x : tensor A) (rows cols : Z) : Prop :=
  dims x = [1; rows; cols] /\ Z.of_nat (length (data x)) = rows * cols.

(** ** Arithmetic at zero

    The facts about the scalar arithmetic that the all-zero example of the
    specification relies on.  They hold over the reals and in IEEE 754
    binary64 arithmetic (where C's Annex F fixes [exp(-0.) = 1.]). *)

Record exact_at_zero (T : Type) `{Scalar T} : Prop := {
  eaz_exp : sc_exp (- 0)%sc = 1%sc;
  eaz_two_zero : (2 * 0)%sc = 0%sc;
  eaz_two_half : (2 * (1 / (1 + 1)) - 1)%sc = 0%sc;
  eaz_half_zero : (1 / (1 + 1) * 0)%sc = 0%sc;
  eaz_add_zero : (0 + 0)%sc = 0%sc
}.

(** ** The kernels over the real numbers *)

#[export] Instance R_scalar : Scalar R := {|
  sc_zero := 0%R;
  sc_one := 1%R;
  sc_two := 2%R;
  sc_add := Rplus;
  sc_sub := Rminus;
  sc_mul := Rmult;
  sc_div := Rdiv;
  sc_neg := Ropp;
  sc_exp := exp
|}.

(** ** The kernels over binary64 floats

    [T = double]; the library function [exp] is a parameter. *)

Definition binary64_scalar (fexp : float -> float) : Scalar float := {|
  sc_zero := 0%float;
  sc_one := 1%float;
  sc_two := 2%float;
  sc_add := PrimFloat.add;
  sc_sub := PrimFloat.sub;
  sc_mul := PrimFloat.mul;
  sc_div := PrimFloat.div;
  sc_neg := PrimFloat.opp;
  sc_exp := fexp
|}.

(** A batch of two sequences of two features over the reals, used to
    exercise the statements below: sequence 0 has three steps, sequence 1
    has one. *)
Module example.
Local Open Scope R_scope.
Definition C_prev : list R := [1; -2; 3; 4].
Definition X : list R := [0; 1; 2; 3; -1; -2; 0; 1; 1; 1; 0; 0; 2; -3; 1; 5].
Definition seqLengths : list Z := [3%Z; 1%Z].
Definition C : list R := [2; 0; -1; 1].
Definition H : list R := [1; 1; 1; 1].
Definition C_diff : list R := [1; 0; 2; -1].
Definition H_diff : list R := [1; 2; 0; 3].
Definition out4 : list R := [9; 9; 9; 9].
Definition out16 : list R :=
  [9; 9; 9; 9; 9; 9; 9; 9; 9; 9; 9; 9; 9; 9; 9; 9].
End example.

(** A second batch that agrees with the first on sequence 1 only. *)
Module example2.
Local Open Scope R_scope.
Definition C_prev : list R := [0; 0; 3; 4].
Definition X : list R := [5; 5; 5; 5; 5; 5; 5; 5; 1; 1; 0; 0; 2; -3; 1; 5].
Definition seqLengths : list Z := [7%Z; 1%Z].
Definition C : list R := [4; 4; -1; 1].
Definition H : list R := [3; 3; 3; 3].
Definition C_diff : list R := [6; 6; 2; -1].
Definition H_diff : list R := [8; 8; 0; 3].
Definition out4 : list R := [0; 0; 0; 0].
Definition out16 : list R :=
  [0; 0; 0; 0; 0; 0; 0; 0; 0; 0; 0; 0; 0; 0; 0; 0].
End example2.

(** The example batch as operator inputs. *)
Module example_op.
Definition CELL_T_M_1 : tensor R :=
  {| dims := [1; 2; 2]; data := example.C_prev |}.
Definition GATES : tensor R := {| dims := [1; 2; 8]; data := example.X |}.
Definition GATES_narrow : tensor R :=
  {| dims := [1; 2; 7]; data := example.X |}.
Definition SEQ_LENGTHS : tensor Z :=
  {| dims := [2]; data := example.seqLengths |}.
Definition SEQ_LENGTHS_short : tensor Z := {| dims := [1]; data := [3] |}.
Definition TIMESTEP : tensor Z := {| dims := [1]; data := [1] |}.
Definition HIDDEN_T : tensor R := {| dims := [1; 2; 2]; data := example.H |}.
Definition CELL_T : tensor R := {| dims := [1; 2; 2]; data := example.C |}.
Definition HIDDEN_T_GRAD : tensor R :=
  {| dims := [1; 2; 2]; data := example.H_diff |}.
Definition CELL_T_GRAD : tensor R :=
  {| dims := [1; 2; 2]; data := example.C_diff |}.
End example_op.

(** ** Closed forms of what the loops write

    [get] reads a buffer position that is known to exist; the [cell_]
    functions are the right-hand sides of the assignments of the two inner
    loops, as functions of the values read. *)

Definition upd {A : Type} (buf : list A) (i : Z) (v : A) : list A :=
  <[Z.to_nat i := v]> buf.

Definition get {A : Type} (dflt : A) (buf : list A) (i : Z) : A :=
  default dflt (load buf i).

(** [buf[n][k]] for a buffer of rows of [stride] cells. *)
Definition cell {A : Type} (buf : list A) (stride n k : Z) : option A :=
  load buf (n * stride + k).

(** Two buffers hold the same row [n]. *)
Definition same_row {A : Type} (stride n : Z) (b1 b2 : list A) : Prop :=
  forall k, 0 <= k < stride -> cell b1 stride n k = cell b2 stride n k.

(** A buffer is unchanged outside row [n]. *)
Definition same_outside_row {A : Type} (stride n : Z) (b1 b2 : list A)
    : Prop :=
  forall j, ~ n * stride <= j < n * stride + stride -> load b1 j = load b2 j.

Section ClosedForms.
Context {T : Type} `{Scalar T}.
Local Open Scope scalar_scope.

(** Lines 36 and 43-44. *)
Definition cell_c (vld : bool) (x_i x_f x_g c_prev : T) : T :=
  if vld
  then detail.sigmoid x_f * c_prev + detail.sigmoid x_i * detail.tanh x_g
  else c_prev.

(** Lines 35 and 45-46. *)
Definition cell_h (vld : bool) (x_i x_f x_o x_g c_prev : T) : T :=
  if vld
  then detail.sigmoid x_o * detail.tanh (cell_c true x_i x_f x_g c_prev)
  else 0.

(** Line 93. *)
Definition c_term (x_o c c_diff h_diff : T) : T :=
  c_diff + h_diff * detail.sigmoid x_o
           * (1 - detail.tanh c * detail.tanh c).

(** Lines 80 and 94. *)
Definition grad_c_prev (vld : bool) (x_f x_o c c_diff h_diff : T) : T :=
  if vld then c_term x_o c c_diff h_diff * detail.sigmoid x_f else c_diff.

(** Lines 81 and 95. *)
Definition grad_i (vld : bool) (x_i x_o x_g c c_diff h_diff : T) : T :=
  if vld
  then c_term x_o c c_diff h_diff * detail.tanh x_g * detail.sigmoid x_i
       * (1 - detail.sigmoid x_i)
  else 0.

(** Lines 82 and 96. *)
Definition grad_f (vld : bool) (x_f x_o c_prev c c_diff h_diff : T) : T :=
  if vld
  then c_term x_o c c_diff h_diff * c_prev * detail.sigmoid x_f
       * (1 - detail.sigmoid x_f)
  else 0.

(** Lines 83 and 97. *)
Definition grad_o (vld : bool) (x_o c h_diff : T) : T :=
  if vld
  then h_diff * detail.tanh c * detail.sigmoid x_o * (1 - detail.sigmoid x_o)
  else 0.

(** Lines 84 and 98. *)
Definition grad_g (vld : bool) (x_i x_o x_g c c_diff h_diff : T) : T :=
  if vld
  then c_term x_o c c_diff h_diff * detail.sigmoid x_i
       * (1 - detail.tanh x_g * detail.tanh x_g)
  else 0.

(** Validity of sequence [n], false when the length cannot be read. *)
Definition valid_at (t : Z) (seqLengths : list Z) (n : Z) : bool :=
  match load seqLengths n with
  | Some len => detail.valid t len
  | None => false
  end.

(** What one inner iteration of [LSTMUnit] writes at feature [d], the
    input pointers being [pC_prev] and [pX]. *)
Definition fwd_c (D : Z) (C_prev X : list T) (vld : bool)
    (pC_prev pX d : Z) : T :=
  cell_c vld (get 0 X (pX + d)) (get 0 X (pX + (1 * D + d)))
    (get 0 X (pX + (3 * D + d))) (get 0 C_prev (pC_prev + d)).

Definition fwd_h (D : Z) (C_prev X : list T) (vld : bool)
    (pC_prev pX d : Z) : T :=
  cell_h vld (get 0 X (pX + d)) (get 0 X (pX + (1 * D + d)))
    (get 0 X (pX + (2 * D + d))) (get 0 X (pX + (3 * D + d)))
    (get 0 C_prev (pC_prev + d)).

(** What [LSTMUnit] writes for sequence [n] at feature [d]: sequence [n]
    owns the cells [n * D ..] of [C_prev], [C], [H] and the cells
    [n * (4 * D) ..] of [X]. *)
Definition C_at (D t : Z) (C_prev X : list T) (seqLengths : list Z)
    (n d : Z) : T :=
  fwd_c D C_prev X (valid_at t seqLengths n) (n * D) (n * (4 * D)) d.

Definition H_at (D t : Z) (C_prev X : list T) (seqLengths : list Z)
    (n d : Z) : T :=
  fwd_h D C_prev X (valid_at t seqLengths n) (n * D) (n * (4 * D)) d.

(** What one inner iteration of [LSTMUnitGradient] writes at feature
    [d]: [p] is the common value of the pointers into [C_prev], [C],
    [C_diff] and [H_diff], and [pX] the pointer into [X]. *)
Definition bwd_c_prev (D : Z) (X C C_diff H_diff : list T) (vld : bool)
    (p pX d : Z) : T :=
  grad_c_prev vld (get 0 X (pX + (1 * D + d))) (get 0 X (pX + (2 * D + d)))
    (get 0 C (p + d)) (get 0 C_diff (p + d)) (get 0 H_diff (p + d)).

Definition bwd_i (D : Z) (X C C_diff H_diff : list T) (vld : bool)
    (p pX d : Z) : T :=
  grad_i vld (get 0 X (pX + d)) (get 0 X (pX + (2 * D + d)))
    (get 0 X (pX + (3 * D + d)))
    (get 0 C (p + d)) (get 0 C_diff (p + d)) (get 0 H_diff (p + d)).

Definition bwd_f (D : Z) (C_prev X C C_diff H_diff : list T) (vld : bool)
    (p pX d : Z) : T :=
  grad_f vld (get 0 X (pX + (1 * D + d))) (get 0 X (pX + (2 * D + d)))
    (get 0 C_prev (p + d))
    (get 0 C (p + d)) (get 0 C_diff (p + d)) (get 0 H_diff (p + d)).

Definition bwd_o (D : Z) (X C H_diff : list T) (vld : bool)
    (p pX d : Z) : T :=
  grad_o vld (get 0 X (pX + (2 * D + d)))
    (get 0 C (p + d)) (get 0 H_diff (p + d)).

Definition bwd_g (D : Z) (X C C_diff H_diff : list T) (vld : bool)
    (p pX d : Z) : T :=
  grad_g vld (get 0 X (pX + d)) (get 0 X (pX + (2 * D + d)))
    (get 0 X (pX + (3 * D + d)))
    (get 0 C (p + d)) (get 0 C_diff (p + d)) (get 0 H_diff (p + d)).

(** What [LSTMUnitGradient] writes for sequence [n] at feature [d]. *)
Definition C_prev_diff_at (D t : Z) (X : list T) (seqLengths : list Z)
    (C C_diff H_diff : list T) (n d : Z) : T :=
  bwd_c_prev D X C C_diff H_diff (valid_at t seqLengths n)
    (n * D) (n * (4 * D)) d.

Definition i_diff_at (D t : Z) (X : list T) (seqLengths : list Z)
    (C C_diff H_diff : list T) (n d : Z) : T :=
  bwd_i D X C C_diff H_diff (valid_at t seqLengths n) (n * D) (n * (4 * D)) d.

Definition f_diff_at (D t : Z) (C_prev X : list T) (seqLengths : list Z)
    (C C_diff H_diff : list T) (n d : Z) : T :=
  bwd_f D C_prev X C C_diff H_diff (valid_at t seqLengths n)
    (n * D) (n * (4 * D)) d.

Definition o_diff_at (D t : Z) (X : list T) (seqLengths : list Z)
    (C H_diff : list T) (n d : Z) : T :=
  bwd_o D X C H_diff (valid_at t seqLengths n) (n * D) (n * (4 * D)) d.

Definition g_diff_at (D t : Z) (X : list T) (seqLengths : list Z)
    (C C_diff H_diff : list T) (n d : Z) : T :=
  bwd_g D X C C_diff H_diff (valid_at t seqLengths n) (n * D) (n * (4 * D)) d.

End ClosedForms.

(** [c_diff * C[n][d] + h_diff * H[n][d]] as a function of the five inputs
    of the cell. *)
Definition cell_objective (vld : bool) (c_diff h_diff : R)
    (x_i x_f x_o x_g c_prev : R) : R :=
  (c_diff * cell_c vld x_i x_f x_g c_prev
   + h_diff * cell_h vld x_i x_f x_o x_g c_prev)%R.

(** The inner product of two buffers. *)
Definition dot (a b : list R) : R :=
  fold_right Rplus 0%R (zip_with Rmult a b).

(** The scalar [<C_diff, C> + <H_diff, H>] of the outputs [(C, H)] of the
    forward kernel, as a function of the kernel's inputs: the quantity
    whose gradient the upstream gradients [C_diff], [H_diff] pull back. *)
Definition LSTMUnit_loss (N D t : Z) (C_prev X : list R)
    (seqLengths : list Z) (C0 H0 C_diff H_diff : list R) : R :=
  match detail.LSTMUnit N D t C_prev X seqLengths C0 H0 with
  | Some (C, H) => (dot C_diff C + dot H_diff H)%R
  | None => 0%R
  end.

(** The sequences of a batch have all ended at step [t]. *)
Definition all_ended (N t : Z) (seqLengths : list Z) : Prop :=
  forall n len, 0 <= n < N -> load seqLengths n = Some len -> len <= t.

(** ** Buffers and loops: basic facts *)

Section Buffers.
Context {A : Type}.
Implicit Types (buf : list A) (i j : Z) (v : A).

Lemma in_range_true buf i :
  0 <= i < Z.of_nat (length buf) ->
  (0 <=? i) && (i <? Z.of_nat (length buf)) = true.
Proof.
  intros [Hlo Hhi]. apply andb_true_intro. split.
  - by apply Z.leb_le.
  - by apply Z.ltb_lt.
Qed.

Lemma in_range_inv buf i :
  (0 <=? i) && (i <? Z.of_nat (length buf)) = true ->
  0 <= i < Z.of_nat (length buf).
Proof.
  intros Hb. apply andb_prop in Hb as [Hlo Hhi].
  apply Z.leb_le in Hlo. apply Z.ltb_lt in Hhi. lia.
Qed.

Lemma store_in buf i v :
  0 <= i < Z.of_nat (length buf) -> store buf i v = Some (upd buf i v).
Proof. intros Hi. unfold store. by rewrite in_range_true. Qed.

Lemma upd_length buf i v : length (upd buf i v) = length buf.
Proof. apply length_insert. Qed.

Lemma load_in dflt buf i :
  0 <= i < Z.of_nat (length buf) -> load buf i = Some (get dflt buf i).
Proof.
  intros Hi. unfold get, load. rewrite in_range_true by done.
  destruct (buf !! Z.to_nat i) as [x|] eqn:Hx; [done|].
  apply lookup_ge_None in Hx. lia.
Qed.

Lemma get_load dflt buf i v : load buf i = Some v -> get dflt buf i = v.
Proof. intros Hl. unfold get. by rewrite Hl. Qed.

Lemma load_upd_eq buf i v :
  0 <= i < Z.of_nat (length buf) -> load (upd buf i v) i = Some v.
Proof.
  intros Hi. unfold load. rewrite upd_length, in_range_true by done.
  unfold upd. apply list_lookup_insert_eq. lia.
Qed.

Lemma load_upd_ne buf i j v :
  0 <= i -> i <> j -> load (upd buf i v) j = load buf j.
Proof.
  intros Hi Hne. unfold load. rewrite upd_length.
  destruct (_ && _) eqn:Hb; [|done].
  apply in_range_inv in Hb. unfold upd.
  apply list_lookup_insert_ne. lia.
Qed.

Lemma load_upd_at buf i j v :
  i = j -> 0 <= i < Z.of_nat (length buf) -> load (upd buf i v) j = Some v.
Proof. intros <-. apply load_upd_eq. Qed.

Lemma get_at dflt buf i j v : load buf i = Some v -> i = j -> get dflt buf j = v.
Proof. intros Hl <-. by apply get_load. Qed.

End Buffers.

Section Loops.
Context {S : Type}.
Implicit Types (body : Z -> S -> option S) (s : S).

(** A loop whose body keeps an invariant and never fails returns, in a
    state that satisfies the invariant. *)
Lemma for_loop_inv (I : Z -> S -> Prop) body cnt : forall lo s,
  I lo s ->
  (forall i s0, lo <= i < lo + Z.of_nat cnt -> I i s0 ->
     exists s1, body i s0 = Some s1 /\ I (i + 1) s1) ->
  exists s', for_loop lo cnt body s = Some s' /\ I (lo + Z.of_nat cnt) s'.
Proof.
  induction cnt as [|k IH]; intros lo s Hs Hstep.
  - exists s. split; [done|]. by replace (lo + Z.of_nat 0) with lo by lia.
  - destruct (Hstep lo s) as (s1 & Hb & Hs1); [lia | done |].
    destruct (IH (lo + 1) s1) as (s' & Hrun & Hs'); [done | |].
    + intros i s0 Hi. apply Hstep. lia.
    + exists s'. split.
      * simpl. rewrite Hb. exact Hrun.
      * by replace (lo + Z.of_nat (Datatypes.S k)) with (lo + 1 + Z.of_nat k)
          by lia.
Qed.

Lemma for_int_inv (I : Z -> S -> Prop) body hi s :
  0 <= hi ->
  I 0 s ->
  (forall i s0, 0 <= i < hi -> I i s0 ->
     exists s1, body i s0 = Some s1 /\ I (i + 1) s1) ->
  exists s', for_int hi body s = Some s' /\ I hi s'.
Proof.
  intros Hhi Hs Hstep. unfold for_int.
  destruct (for_loop_inv I body (Z.to_nat hi) 0 s) as (s' & Hrun & Hs').
  - done.
  - intros i s0 Hi. apply Hstep. lia.
  - exists s'. split; [done|]. by replace hi with (0 + Z.of_nat (Z.to_nat hi)) by lia.
Qed.

(** Two bodies that agree on the states an invariant allows run alike. *)
Lemma for_loop_ext (I : Z -> S -> Prop) body1 body2 cnt : forall lo s,
  I lo s ->
  (forall i s0, lo <= i < lo + Z.of_nat cnt -> I i s0 ->
     body1 i s0 = body2 i s0) ->
  (forall i s0 s1, lo <= i < lo + Z.of_nat cnt -> I i s0 ->
     body1 i s0 = Some s1 -> I (i + 1) s1) ->
  for_loop lo cnt body1 s = for_loop lo cnt body2 s.
Proof.
  induction cnt as [|k IH]; intros lo s Hs Heq Hstep; [done|].
  simpl. rewrite <- (Heq lo s) by (done || lia).
  destruct (body1 lo s) as [s1|] eqn:Hb; [|done]. simpl.
  apply IH.
  - apply (Hstep lo s); [lia | done | done].
  - intros i s0 Hi. apply Heq. lia.
  - intros i s0 s2 Hi. apply Hstep. lia.
Qed.

Lemma for_int_ext (I : Z -> S -> Prop) body1 body2 hi s :
  I 0 s ->
  (forall i s0, 0 <= i < hi -> I i s0 -> body1 i s0 = body2 i s0) ->
  (forall i s0 s1, 0 <= i < hi -> I i s0 ->
     body1 i s0 = Some s1 -> I (i + 1) s1) ->
  for_int hi body1 s = for_int hi body2 s.
Proof.
  intros Hs Heq Hstep. unfold for_int. apply (for_loop_ext I); [done | |].
  - intros i s0 Hi. apply Heq. lia.
  - intros i s0 s1 Hi. apply Hstep. lia.
Qed.

End Loops.

(** Index arithmetic of the slices. *)
Lemma slice_lt (D m k d : Z) :
  0 <= m < k -> 0 <= d < D -> 0 <= m * D + d < k * D.
Proof. intros. nia. Qed.

(** ** The forward kernel, loop by loop *)

Ltac run_mem :=
  repeat (first [ rewrite (load_in sc_zero) by (rewrite ?upd_length; lia)
                | rewrite store_in by (rewrite ?upd_length; lia) ];
          cbn [mbind option_bind]).

Section Forward.
Context {T : Type} `{Scalar T}.
Variables (D t : Z) (C_prev X : list T) (seqLengths : list Z).

Lemma LSTMUnit_feature_in vld pC_prev pX pC pH d (C H0 : list T) :
  0 <= d < D ->
  0 <= pC_prev -> pC_prev + D <= Z.of_nat (length C_prev) ->
  0 <= pX -> pX + 4 * D <= Z.of_nat (length X) ->
  0 <= pC -> pC + D <= Z.of_nat (length C) ->
  0 <= pH -> pH + D <= Z.of_nat (length H0) ->
  detail.LSTMUnit_feature D C_prev X vld pC_prev pX pC pH d (C, H0) =
  Some (upd C (pC + d) (fwd_c D C_prev X vld pC_prev pX d),
        upd H0 (pH + d) (fwd_h D C_prev X vld pC_prev pX d)).
Proof.
  intros. unfold detail.LSTMUnit_feature, fwd_c, fwd_h, cell_h, cell_c.
  destruct vld; cbn [negb]; run_mem; reflexivity.
Qed.

(** The inner loop writes the [D] cells that start at [pC] and [pH], and
    nothing else. *)
Lemma LSTMUnit_inner vld pC_prev pX pC pH (C H0 : list T) :
  0 <= D ->
  0 <= pC_prev -> pC_prev + D <= Z.of_nat (length C_prev) ->
  0 <= pX -> pX + 4 * D <= Z.of_nat (length X) ->
  0 <= pC -> pC + D <= Z.of_nat (length C) ->
  0 <= pH -> pH + D <= Z.of_nat (length H0) ->
  exists C' H',
    for_int D (detail.LSTMUnit_feature D C_prev X vld pC_prev pX pC pH) (C, H0)
      = Some (C', H') /\
    length C' = length C /\ length H' = length H0 /\
    (forall d, 0 <= d < D ->
       load C' (pC + d) = Some (fwd_c D C_prev X vld pC_prev pX d) /\
       load H' (pH + d) = Some (fwd_h D C_prev X vld pC_prev pX d)) /\
    (forall j, ~ pC <= j < pC + D -> load C' j = load C j) /\
    (forall j, ~ pH <= j < pH + D -> load H' j = load H0 j).
Proof.
  intros HD ? ? ? ? ? ? ? ?.
  pose (I := fun (d : Z) (out : list T * list T) =>
    length out.1 = length C /\ length out.2 = length H0 /\
    (forall k, 0 <= k < d ->
       load out.1 (pC + k) = Some (fwd_c D C_prev X vld pC_prev pX k) /\
       load out.2 (pH + k) = Some (fwd_h D C_prev X vld pC_prev pX k)) /\
    (forall j, ~ pC <= j < pC + D -> load out.1 j = load C j) /\
    (forall j, ~ pH <= j < pH + D -> load out.2 j = load H0 j)).
  destruct (for_int_inv I
    (detail.LSTMUnit_feature D C_prev X vld pC_prev pX pC pH) D (C, H0))
    as ([C' H'] & Hrun & HI); [done | | | ].
  - subst I. simpl. split_and!; [done | done | intros; lia | done | done].
  - intros d [Ck Hk0] Hd (HlC & HlH & Hval & HoC & HoH). simpl in *.
    eexists. split; [apply LSTMUnit_feature_in; lia |].
    subst I. simpl. rewrite !upd_length. split_and!; [done | done | | |].
    + intros k Hk. destruct (decide (k = d)) as [->|Hne].
      * rewrite !load_upd_eq by lia. done.
      * rewrite !load_upd_ne by lia. apply Hval. lia.
    + intros j Hj. rewrite load_upd_ne by lia. by apply HoC.
    + intros j Hj. rewrite load_upd_ne by lia. by apply HoH.
  - exists C', H'. destruct HI as (? & ? & ? & ? & ?). done.
Qed.

(** After [k] sequences every pointer has advanced by [k] slices, the
    first [k] slices of the outputs hold their final values and the rest
    of the outputs is as the caller left it. *)
Lemma LSTMUnit_run N (C0 H0 : list T) :
  detail.fwd_shapes N D C_prev X seqLengths C0 H0 ->
  forall k, 0 <= k <= N ->
  exists s,
    for_int k (detail.LSTMUnit_seq D t C_prev X seqLengths)
      (detail.fwd_init C0 H0) = Some s /\
    detail.fw_C_prev s = k * D /\ detail.fw_X s = k * (4 * D) /\
    detail.fw_C s = k * D /\ detail.fw_H s = k * D /\
    length (detail.fw_Cbuf s) = length C0 /\
    length (detail.fw_Hbuf s) = length H0 /\
    (forall m d, 0 <= m < k -> 0 <= d < D ->
       load (detail.fw_Cbuf s) (m * D + d)
         = Some (C_at D t C_prev X seqLengths m d) /\
       load (detail.fw_Hbuf s) (m * D + d)
         = Some (H_at D t C_prev X seqLengths m d)) /\
    (forall j, ~ 0 <= j < k * D ->
       load (detail.fw_Cbuf s) j = load C0 j /\
       load (detail.fw_Hbuf s) j = load H0 j).
Proof.
  intros [HN HD HCp HX Hsl HC HH] k Hk.
  apply (for_int_inv (fun k s =>
    detail.fw_C_prev s = k * D /\ detail.fw_X s = k * (4 * D) /\
    detail.fw_C s = k * D /\ detail.fw_H s = k * D /\
    length (detail.fw_Cbuf s) = length C0 /\
    length (detail.fw_Hbuf s) = length H0 /\
    (forall m d, 0 <= m < k -> 0 <= d < D ->
       load (detail.fw_Cbuf s) (m * D + d)
         = Some (C_at D t C_prev X seqLengths m d) /\
       load (detail.fw_Hbuf s) (m * D + d)
         = Some (H_at D t C_prev X seqLengths m d)) /\
    (forall j, ~ 0 <= j < k * D ->
       load (detail.fw_Cbuf s) j = load C0 j /\
       load (detail.fw_Hbuf s) j = load H0 j))); [lia | | ].
  - simpl. split_and!; try done. intros; lia.
  - intros n [pc px pC pH Cn Hn] Hn_lt
      (Epc & Epx & EpC & EpH & HlC & HlH & Hval & Hout).
    simpl in *. subst pc px pC pH.
    assert (Hs1 : 0 <= n * D /\ n * D + D <= N * D) by nia.
    unfold detail.LSTMUnit_seq. simpl.
    rewrite (load_in 0 seqLengths n) by lia. simpl.
    destruct (LSTMUnit_inner (detail.valid t (get 0 seqLengths n))
      (n * D) (n * (4 * D)) (n * D) (n * D) Cn Hn)
      as (C' & H' & Hrun & HlC' & HlH' & Hnew & HoC & HoH); try lia.
    rewrite Hrun. simpl. eexists. split; [done|]. simpl.
    assert (Hv : valid_at t seqLengths n
                 = detail.valid t (get 0 seqLengths n)).
    { unfold valid_at. by rewrite (load_in 0 seqLengths n) by lia. }
    split_and!; try lia.
    + intros m d Hm Hd. destruct (decide (m = n)) as [->|Hne].
      * unfold C_at, H_at. rewrite Hv. by apply Hnew.
      * assert (0 <= m * D + d < n * D) by (apply slice_lt; lia).
        rewrite HoC, HoH by lia. apply Hval; lia.
    + intros j Hj. rewrite HoC, HoH by lia. apply Hout. lia.
Qed.

(** The whole forward kernel: it returns, and every cell of the first [N]
    slices of [C] and [H] holds its closed form. *)
Lemma LSTMUnit_spec N (C0 H0 : list T) :
  detail.fwd_shapes N D C_prev X seqLengths C0 H0 ->
  exists C H',
    detail.LSTMUnit N D t C_prev X seqLengths C0 H0 = Some (C, H') /\
    length C = length C0 /\ length H' = length H0 /\
    (forall n d, 0 <= n < N -> 0 <= d < D ->
       load C (n * D + d) = Some (C_at D t C_prev X seqLengths n d) /\
       load H' (n * D + d) = Some (H_at D t C_prev X seqLengths n d)) /\
    (forall j, ~ 0 <= j < N * D ->
       load C j = load C0 j /\ load H' j = load H0 j).
Proof.
  intros Hsh.
  destruct (LSTMUnit_run N C0 H0 Hsh N) as (s & Hrun & _ & _ & _ & _ & Hs).
  { destruct Hsh. lia. }
  exists (detail.fw_Cbuf s), (detail.fw_Hbuf s).
  unfold detail.LSTMUnit. rewrite Hrun. simpl.
  destruct Hs as (? & ? & ? & ?). done.
Qed.

End Forward.

(** ** The backward kernel, loop by loop *)

Ltac solve_load :=
  repeat first
    [ rewrite load_upd_at by (rewrite ?upd_length; lia)
    | rewrite load_upd_ne by lia ].

Section Backward.
Context {T : Type} `{Scalar T}.
Variables (D t : Z) (C_prev X : list T) (seqLengths : list Z).
Variables (C C_diff H_diff : list T).

Lemma LSTMUnitGradient_feature_in vld p pX pC_prev_diff pX_diff d
    (Cpd Xd : list T) :
  0 <= d < D ->
  0 <= p ->
  p + D <= Z.of_nat (length C_prev) -> p + D <= Z.of_nat (length C) ->
  p + D <= Z.of_nat (length C_diff) -> p + D <= Z.of_nat (length H_diff) ->
  0 <= pX -> pX + 4 * D <= Z.of_nat (length X) ->
  0 <= pC_prev_diff -> pC_prev_diff + D <= Z.of_nat (length Cpd) ->
  0 <= pX_diff -> pX_diff + 4 * D <= Z.of_nat (length Xd) ->
  detail.LSTMUnitGradient_feature D C_prev X C C_diff H_diff vld
    p pX p p p pX_diff pC_prev_diff d (Cpd, Xd) =
  Some (upd Cpd (pC_prev_diff + d)
          (bwd_c_prev D X C C_diff H_diff vld p pX d),
        upd (upd (upd (upd Xd
          (pX_diff + d) (bwd_i D X C C_diff H_diff vld p pX d))
          (pX_diff + 1 * D + d) (bwd_f D C_prev X C C_diff H_diff vld p pX d))
          (pX_diff + 2 * D + d) (bwd_o D X C H_diff vld p pX d))
          (pX_diff + 3 * D + d) (bwd_g D X C C_diff H_diff vld p pX d)).
Proof.
  intros. unfold detail.LSTMUnitGradient_feature.
  unfold bwd_c_prev, bwd_i, bwd_f, bwd_o, bwd_g.
  unfold grad_c_prev, grad_i, grad_f, grad_o, grad_g, c_term.
  destruct vld; cbn [negb]; run_mem; reflexivity.
Qed.

(** The inner loop writes the [D] cells of [C_prev_diff] that start at
    [pC_prev_diff], the four blocks of [D] cells of [X_diff] that start at
    [pX_diff], and nothing else. *)
Lemma LSTMUnitGradient_inner vld p pX pC_prev_diff pX_diff (Cpd Xd : list T) :
  0 <= D ->
  0 <= p ->
  p + D <= Z.of_nat (length C_prev) -> p + D <= Z.of_nat (length C) ->
  p + D <= Z.of_nat (length C_diff) -> p + D <= Z.of_nat (length H_diff) ->
  0 <= pX -> pX + 4 * D <= Z.of_nat (length X) ->
  0 <= pC_prev_diff -> pC_prev_diff + D <= Z.of_nat (length Cpd) ->
  0 <= pX_diff -> pX_diff + 4 * D <= Z.of_nat (length Xd) ->
  exists Cpd' Xd',
    for_int D
      (detail.LSTMUnitGradient_feature D C_prev X C C_diff H_diff vld
         p pX p p p pX_diff pC_prev_diff) (Cpd, Xd) = Some (Cpd', Xd') /\
    length Cpd' = length Cpd /\ length Xd' = length Xd /\
    (forall d, 0 <= d < D ->
       load Cpd' (pC_prev_diff + d)
         = Some (bwd_c_prev D X C C_diff H_diff vld p pX d) /\
       load Xd' (pX_diff + d)
         = Some (bwd_i D X C C_diff H_diff vld p pX d) /\
       load Xd' (pX_diff + 1 * D + d)
         = Some (bwd_f D C_prev X C C_diff H_diff vld p pX d) /\
       load Xd' (pX_diff + 2 * D + d)
         = Some (bwd_o D X C H_diff vld p pX d) /\
       load Xd' (pX_diff + 3 * D + d)
         = Some (bwd_g D X C C_diff H_diff vld p pX d)) /\
    (forall j, ~ pC_prev_diff <= j < pC_prev_diff + D ->
       load Cpd' j = load Cpd j) /\
    (forall j, ~ pX_diff <= j < pX_diff + 4 * D -> load Xd' j = load Xd j).
Proof.
  intros HD ? ? ? ? ? ? ? ? ? ? ?.
  pose (I := fun (d : Z) (out : list T * list T) =>
    length out.1 = length Cpd /\ length out.2 = length Xd /\
    (forall k, 0 <= k < d ->
       load out.1 (pC_prev_diff + k)
         = Some (bwd_c_prev D X C C_diff H_diff vld p pX k) /\
       load out.2 (pX_diff + k)
         = Some (bwd_i D X C C_diff H_diff vld p pX k) /\
       load out.2 (pX_diff + 1 * D + k)
         = Some (bwd_f D C_prev X C C_diff H_diff vld p pX k) /\
       load out.2 (pX_diff + 2 * D + k)
         = Some (bwd_o D X C H_diff vld p pX k) /\
       load out.2 (pX_diff + 3 * D + k)
         = Some (bwd_g D X C C_diff H_diff vld p pX k)) /\
    (forall j, ~ pC_prev_diff <= j < pC_prev_diff + D ->
       load out.1 j = load Cpd j) /\
    (forall j, ~ pX_diff <= j < pX_diff + 4 * D -> load out.2 j = load Xd j)).
  destruct (for_int_inv I
    (detail.LSTMUnitGradient_feature D C_prev X C C_diff H_diff vld
       p pX p p p pX_diff pC_prev_diff) D (Cpd, Xd))
    as ([Cpd' Xd'] & Hrun & HI); [done | | | ].
  - subst I. simpl. split_and!; [done | done | intros; lia | done | done].
  - intros d [Ck Xk] Hd (HlC & HlX & Hval & HoC & HoX). simpl in *.
    eexists. split; [apply LSTMUnitGradient_feature_in; lia |].
    subst I. simpl. rewrite !upd_length. split_and!; [done | done | | |].
    + intros k Hk. destruct (decide (k = d)) as [->|Hne].
      * solve_load. done.
      * solve_load. apply Hval. lia.
    + intros j Hj. solve_load. by apply HoC.
    + intros j Hj. solve_load. by apply HoX.
  - exists Cpd', Xd'. destruct HI as (? & ? & ? & ? & ?). done.
Qed.

(** After [k] sequences every pointer has advanced by [k] slices, the
    first [k] slices of both outputs hold their final values and the rest
    is as the caller left it. *)
Lemma LSTMUnitGradient_run N (H0 Cpd0 Xd0 : list T) :
  detail.bwd_shapes N D C_prev X seqLengths C C_diff H_diff Cpd0 Xd0 ->
  forall k, 0 <= k <= N ->
  exists s,
    for_int k
      (detail.LSTMUnitGradient_seq D t C_prev X seqLengths C H0 C_diff H_diff)
      (detail.bwd_init Cpd0 Xd0) = Some s /\
    length (detail.bw_C_prev_diff_buf s) = length Cpd0 /\
    length (detail.bw_X_diff_buf s) = length Xd0 /\
    (forall m d, 0 <= m < k -> 0 <= d < D ->
       load (detail.bw_C_prev_diff_buf s) (m * D + d)
         = Some (C_prev_diff_at D t X seqLengths C C_diff H_diff m d) /\
       load (detail.bw_X_diff_buf s) (m * (4 * D) + d)
         = Some (i_diff_at D t X seqLengths C C_diff H_diff m d) /\
       load (detail.bw_X_diff_buf s) (m * (4 * D) + 1 * D + d)
         = Some (f_diff_at D t C_prev X seqLengths C C_diff H_diff m d) /\
       load (detail.bw_X_diff_buf s) (m * (4 * D) + 2 * D + d)
         = Some (o_diff_at D t X seqLengths C H_diff m d) /\
       load (detail.bw_X_diff_buf s) (m * (4 * D) + 3 * D + d)
         = Some (g_diff_at D t X seqLengths C C_diff H_diff m d)) /\
    (forall j, ~ 0 <= j < k * D ->
       load (detail.bw_C_prev_diff_buf s) j = load Cpd0 j) /\
    (forall j, ~ 0 <= j < k * (4 * D) ->
       load (detail.bw_X_diff_buf s) j = load Xd0 j) /\
    detail.bw_C_prev s = k * D /\ detail.bw_X s = k * (4 * D) /\
    detail.bw_C s = k * D /\ detail.bw_H s = k * D /\
    detail.bw_C_diff s = k * D /\ detail.bw_H_diff s = k * D /\
    detail.bw_X_diff s = k * (4 * D) /\ detail.bw_C_prev_diff s = k * D.
Proof.
  intros [HN HD HCp HX Hsl HC HCd HHd HCpd HXd] k Hk.
  apply (for_int_inv (fun k s =>
    length (detail.bw_C_prev_diff_buf s) = length Cpd0 /\
    length (detail.bw_X_diff_buf s) = length Xd0 /\
    (forall m d, 0 <= m < k -> 0 <= d < D ->
       load (detail.bw_C_prev_diff_buf s) (m * D + d)
         = Some (C_prev_diff_at D t X seqLengths C C_diff H_diff m d) /\
       load (detail.bw_X_diff_buf s) (m * (4 * D) + d)
         = Some (i_diff_at D t X seqLengths C C_diff H_diff m d) /\
       load (detail.bw_X_diff_buf s) (m * (4 * D) + 1 * D + d)
         = Some (f_diff_at D t C_prev X seqLengths C C_diff H_diff m d) /\
       load (detail.bw_X_diff_buf s) (m * (4 * D) + 2 * D + d)
         = Some (o_diff_at D t X seqLengths C H_diff m d) /\
       load (detail.bw_X_diff_buf s) (m * (4 * D) + 3 * D + d)
         = Some (g_diff_at D t X seqLengths C C_diff H_diff m d)) /\
    (forall j, ~ 0 <= j < k * D ->
       load (detail.bw_C_prev_diff_buf s) j = load Cpd0 j) /\
    (forall j, ~ 0 <= j < k * (4 * D) ->
       load (detail.bw_X_diff_buf s) j = load Xd0 j) /\
    detail.bw_C_prev s = k * D /\ detail.bw_X s = k * (4 * D) /\
    detail.bw_C s = k * D /\ detail.bw_H s = k * D /\
    detail.bw_C_diff s = k * D /\ detail.bw_H_diff s = k * D /\
    detail.bw_X_diff s = k * (4 * D) /\ detail.bw_C_prev_diff s = k * D));
    [lia | | ].
  - simpl. split_and!; try done. intros; lia.
  - intros n [pc px pC pH pCd pHd pXd pCpd Cn Xn] Hn_lt
      (HlC & HlX & Hval & HoutC & HoutX
       & Epc & Epx & EpC & EpH & EpCd & EpHd & EpXd & EpCpd).
    simpl in *. subst pc px pC pH pCd pHd pXd pCpd.
    assert (Hs1 : 0 <= n * D /\ n * D + D <= N * D) by nia.
    unfold detail.LSTMUnitGradient_seq. simpl.
    rewrite (load_in 0 seqLengths n) by lia. simpl.
    destruct (LSTMUnitGradient_inner (detail.valid t (get 0 seqLengths n))
      (n * D) (n * (4 * D)) (n * D) (n * (4 * D)) Cn Xn)
      as (C' & X' & Hrun & HlC' & HlX' & Hnew & HoC & HoX); try lia.
    rewrite Hrun. simpl. eexists. split; [done|]. simpl.
    assert (Hv : valid_at t seqLengths n
                 = detail.valid t (get 0 seqLengths n)).
    { unfold valid_at. by rewrite (load_in 0 seqLengths n) by lia. }
    split_and!; try lia.
    + intros m d Hm Hd. destruct (decide (m = n)) as [->|Hne].
      * unfold C_prev_diff_at, i_diff_at, f_diff_at, o_diff_at, g_diff_at.
        rewrite Hv. by apply Hnew.
      * assert (0 <= m * D /\ m * D + D <= n * D) by nia.
        rewrite HoC by lia. rewrite !HoX by lia. apply Hval; lia.
    + intros j Hj. rewrite HoC by lia. apply HoutC. lia.
    + intros j Hj. rewrite HoX by lia. apply HoutX. lia.
Qed.

(** The whole backward kernel: it returns, and every cell of the first
    [N] slices of [C_prev_diff] and [X_diff] holds its closed form. *)
Lemma LSTMUnitGradient_spec N (H0 Cpd0 Xd0 : list T) :
  detail.bwd_shapes N D C_prev X seqLengths C C_diff H_diff Cpd0 Xd0 ->
  exists Cpd Xd,
    detail.LSTMUnitGradient N D t C_prev X seqLengths C H0 C_diff H_diff
      Cpd0 Xd0 = Some (Cpd, Xd) /\
    length Cpd = length Cpd0 /\ length Xd = length Xd0 /\
    (forall n d, 0 <= n < N -> 0 <= d < D ->
       load Cpd (n * D + d)
         = Some (C_prev_diff_at D t X seqLengths C C_diff H_diff n d) /\
       load Xd (n * (4 * D) + d)
         = Some (i_diff_at D t X seqLengths C C_diff H_diff n d) /\
       load Xd (n * (4 * D) + 1 * D + d)
         = Some (f_diff_at D t C_prev X seqLengths C C_diff H_diff n d) /\
       load Xd (n * (4 * D) + 2 * D + d)
         = Some (o_diff_at D t X seqLengths C H_diff n d) /\
       load Xd (n * (4 * D) + 3 * D + d)
         = Some (g_diff_at D t X seqLengths C C_diff H_diff n d)) /\
    (forall j, ~ 0 <= j < N * D -> load Cpd j = load Cpd0 j) /\
    (forall j, ~ 0 <= j < N * (4 * D) -> load Xd j = load Xd0 j).
Proof.
  intros Hsh.
  destruct (LSTMUnitGradient_run N H0 Cpd0 Xd0 Hsh N)
    as (s & Hrun & ? & ? & ? & ? & ? & _).
  { destruct Hsh. lia. }
  exists (detail.bw_C_prev_diff_buf s), (detail.bw_X_diff_buf s).
  unfold detail.LSTMUnitGradient. rewrite Hrun. done.
Qed.

End Backward.

(** ** The forward step, cell by cell *)

Lemma valid_at_read t (seqLengths : list Z) n len :
  load seqLengths n = Some len -> valid_at t seqLengths n = detail.valid t len.
Proof. intros Hl. unfold valid_at. by rewrite Hl. Qed.

Section ForwardClaims.
Context {T : Type} `{Scalar T}.
Local Open Scope scalar_scope.

(** The values of a running sequence, shared by the statements below. *)
Lemma fwd_valid_cells (N D t : Z) (C_prev X : list T)
    (seqLengths : list Z) (C0 H0 : list T) (n d len : Z)
    (x_i x_f x_o x_g c_prev : T) :
  detail.fwd_shapes N D C_prev X seqLengths C0 H0 ->
  (0 <= n < N)%Z -> (0 <= d < D)%Z ->
  load seqLengths n = Some len -> (t < len)%Z ->
  cell X (4 * D) n d = Some x_i ->
  cell X (4 * D) n (D + d) = Some x_f ->
  cell X (4 * D) n (2 * D + d) = Some x_o ->
  cell X (4 * D) n (3 * D + d) = Some x_g ->
  cell C_prev D n d = Some c_prev ->
  exists C H1,
    detail.LSTMUnit N D t C_prev X seqLengths C0 H0 = Some (C, H1) /\
    let i := detail.sigmoid x_i in
    let f := detail.sigmoid x_f in
    let o := detail.sigmoid x_o in
    let g := detail.tanh x_g in
    cell C D n d = Some (f * c_prev + i * g) /\
    cell H1 D n d = Some (o * detail.tanh (f * c_prev + i * g)).
Proof.
  intros Hsh Hn Hd Hlen Hlt Hi Hf Ho Hg Hc.
  destruct (LSTMUnit_spec D t C_prev X seqLengths N C0 H0 Hsh)
    as (C & H1 & Hrun & _ & _ & Hcells & _).
  exists C, H1. split; [exact Hrun|]. cbn zeta.
  destruct (Hcells n d Hn Hd) as [HC HH]. unfold cell. rewrite HC, HH.
  unfold C_at, H_at, fwd_c, fwd_h.
  rewrite (valid_at_read _ _ _ _ Hlen).
  assert (Hv : detail.valid t len = true) by (by apply Z.ltb_lt).
  rewrite Hv.
  rewrite (get_at _ _ _ (n * (4 * D) + d)%Z _ Hi) by lia.
  rewrite (get_at _ _ _ (n * (4 * D) + (1 * D + d))%Z _ Hf) by lia.
  rewrite (get_at _ _ _ (n * (4 * D) + (2 * D + d))%Z _ Ho) by lia.
  rewrite (get_at _ _ _ (n * (4 * D) + (3 * D + d))%Z _ Hg) by lia.
  rewrite (get_at _ _ _ (n * D + d)%Z _ Hc) by lia.
  done.
Qed.


(** C1.  In a sequence [n] that is still running at step [t]
    ([t < seqLengths[n]]), feature [d] gets
    [C[n][d] = f * C_prev[n][d] + i * g] and [H[n][d] = o * tanh(C[n][d])],
    where [i], [f], [o] are the sigmoids of the gate values at offsets
    [d], [D + d], [2 D + d] of row [n] of [X] and [g] is the [tanh] of the
    one at offset [3 D + d]. *)
Theorem LSTMUnit_valid_cell (N D t : Z) (C_prev X : list T)
    (seqLengths : list Z) (C0 H0 : list T) (n d len : Z)
    (x_i x_f x_o x_g c_prev : T) :
  detail.fwd_shapes N D C_prev X seqLengths C0 H0 ->
  (0 <= n < N)%Z -> (0 <= d < D)%Z ->
  load seqLengths n = Some len -> (t < len)%Z ->
  cell X (4 * D) n d = Some x_i ->
  cell X (4 * D) n (D + d) = Some x_f ->
  cell X (4 * D) n (2 * D + d) = Some x_o ->
  cell X (4 * D) n (3 * D + d) = Some x_g ->
  cell C_prev D n d = Some c_prev ->
  exists C H1,
    detail.LSTMUnit N D t C_prev X seqLengths C0 H0 = Some (C, H1) /\
    let i := detail.sigmoid x_i in
    let f := detail.sigmoid x_f in
    let o := detail.sigmoid x_o in
    let g := detail.tanh x_g in
    cell C D n d = Some (f * c_prev + i * g) /\
    cell H1 D n d = Some (o * detail.tanh (f * c_prev + i * g)).
Proof. apply fwd_valid_cells. Qed.

(** C3.  In a sequence [n] that has ended at step [t]
    ([t >= seqLengths[n]], whatever the sign of the length), every feature
    [d] gets [H[n][d] = 0] and [C[n][d] = C_prev[n][d]], and the kernel
    returns normally. *)
Theorem LSTMUnit_frozen_cell (N D t : Z) (C_prev X : list T)
    (seqLengths : list Z) (C0 H0 : list T) (n d len : Z) (c_prev : T) :
  detail.fwd_shapes N D C_prev X seqLengths C0 H0 ->
  (0 <= n < N)%Z -> (0 <= d < D)%Z ->
  load seqLengths n = Some len -> (t >= len)%Z ->
  cell C_prev D n d = Some c_prev ->
  exists C H1,
    detail.LSTMUnit N D t C_prev X seqLengths C0 H0 = Some (C, H1) /\
    cell H1 D n d = Some 0 /\
    cell C D n d = Some c_prev.
Proof.
  intros Hsh Hn Hd Hlen Hge Hc.
  destruct (LSTMUnit_spec D t C_prev X seqLengths N C0 H0 Hsh)
    as (C & H1 & Hrun & _ & _ & Hcells & _).
  exists C, H1. split; [exact Hrun|].
  destruct (Hcells n d Hn Hd) as [HC HH]. unfold cell. rewrite HC, HH.
  unfold C_at, H_at, fwd_c, fwd_h.
  rewrite (valid_at_read _ _ _ _ Hlen).
  assert (Hv : detail.valid t len = false) by (apply Z.ltb_ge; lia).
  rewrite Hv.
  rewrite (get_at _ _ _ (n * D + d)%Z _ Hc) by lia.
  done.
Qed.

End ForwardClaims.

Lemma LSTMUnit_valid_cell_witness :
  exists C H1,
    detail.LSTMUnit 2 2 1 example.C_prev example.X example.seqLengths
      example.out4 example.out4 = Some (C, H1) /\
    let i := detail.sigmoid 1%R in
    let f := detail.sigmoid 3%R in
    let o := detail.sigmoid (-2)%R in
    let g := detail.tanh 1%R in
    cell C 2 0 1 = Some (f * (-2) + i * g)%R /\
    cell H1 2 0 1 = Some (o * detail.tanh (f * (-2) + i * g))%R.
Proof.
  refine (LSTMUnit_valid_cell 2 2 1 example.C_prev example.X
            example.seqLengths example.out4 example.out4 0 1 3
            1%R 3%R (-2)%R 1%R (-2)%R _ _ _ _ _ _ _ _ _ _).
  - constructor; simpl; lia.
  - lia.
  - lia.
  - reflexivity.
  - lia.
  - reflexivity.
  - reflexivity.
  - reflexivity.
  - reflexivity.
  - reflexivity.
Defined.

Lemma LSTMUnit_frozen_cell_witness :
  exists C H1,
    detail.LSTMUnit 2 2 1 example.C_prev example.X example.seqLengths
      example.out4 example.out4 = Some (C, H1) /\
    cell H1 2 1 0 = Some 0%R /\
    cell C 2 1 0 = Some 3%R.
Proof.
  refine (LSTMUnit_frozen_cell 2 2 1 example.C_prev example.X
            example.seqLengths example.out4 example.out4 1 0 1 3%R
            _ _ _ _ _ _).
  - constructor; simpl; lia.
  - lia.
  - lia.
  - reflexivity.
  - lia.
  - reflexivity.
Defined.


(** ** The backward step, cell by cell *)

Section BackwardClaims.
Context {T : Type} `{Scalar T}.
Local Open Scope scalar_scope.

(** The gradients of a running sequence, shared by the statements below. *)
Lemma bwd_valid_cells (N D t : Z) (C_prev X : list T)
    (seqLengths : list Z) (C H0 C_diff H_diff Cpd0 Xd0 : list T)
    (n d len : Z) (x_i x_f x_o x_g c_prev c c_diff h_diff : T) :
  detail.bwd_shapes N D C_prev X seqLengths C C_diff H_diff Cpd0 Xd0 ->
  (0 <= n < N)%Z -> (0 <= d < D)%Z ->
  load seqLengths n = Some len -> (t < len)%Z ->
  cell X (4 * D) n d = Some x_i ->
  cell X (4 * D) n (D + d) = Some x_f ->
  cell X (4 * D) n (2 * D + d) = Some x_o ->
  cell X (4 * D) n (3 * D + d) = Some x_g ->
  cell C_prev D n d = Some c_prev ->
  cell C D n d = Some c ->
  cell C_diff D n d = Some c_diff ->
  cell H_diff D n d = Some h_diff ->
  exists C_prev_diff X_diff,
    detail.LSTMUnitGradient N D t C_prev X seqLengths C H0 C_diff H_diff
      Cpd0 Xd0 = Some (C_prev_diff, X_diff) /\
    let i := detail.sigmoid x_i in
    let f := detail.sigmoid x_f in
    let o := detail.sigmoid x_o in
    let g := detail.tanh x_g in
    let tanh_c := detail.tanh c in
    let c_term := c_diff + h_diff * o * (1 - tanh_c * tanh_c) in
    cell C_prev_diff D n d = Some (c_term * f) /\
    cell X_diff (4 * D) n d = Some (c_term * g * i * (1 - i)) /\
    cell X_diff (4 * D) n (D + d) = Some (c_term * c_prev * f * (1 - f)) /\
    cell X_diff (4 * D) n (2 * D + d) = Some (h_diff * tanh_c * o * (1 - o)) /\
    cell X_diff (4 * D) n (3 * D + d) = Some (c_term * i * (1 - g * g)).
Proof.
  intros Hsh Hn Hd Hlen Hlt Hi Hf Ho Hg Hcp Hc Hcd Hhd.
  destruct (LSTMUnitGradient_spec D t C_prev X seqLengths C C_diff H_diff
              N H0 Cpd0 Xd0 Hsh)
    as (Cpd & Xd & Hrun & _ & _ & Hcells & _).
  exists Cpd, Xd. split; [exact Hrun|]. cbn zeta.
  destruct (Hcells n d Hn Hd) as (E0 & E1 & E2 & E3 & E4). unfold cell.
  replace (n * (4 * D) + (D + d))%Z with (n * (4 * D) + 1 * D + d)%Z by lia.
  replace (n * (4 * D) + (2 * D + d))%Z with (n * (4 * D) + 2 * D + d)%Z
    by lia.
  replace (n * (4 * D) + (3 * D + d))%Z with (n * (4 * D) + 3 * D + d)%Z
    by lia.
  rewrite E0, E1, E2, E3, E4.
  unfold C_prev_diff_at, i_diff_at, f_diff_at, o_diff_at, g_diff_at.
  unfold bwd_c_prev, bwd_i, bwd_f, bwd_o, bwd_g.
  rewrite (valid_at_read _ _ _ _ Hlen).
  assert (Hv : detail.valid t len = true) by (by apply Z.ltb_lt).
  rewrite Hv.
  rewrite !(get_at _ _ _ (n * (4 * D) + d)%Z _ Hi) by lia.
  rewrite !(get_at _ _ _ (n * (4 * D) + (1 * D + d))%Z _ Hf) by lia.
  rewrite !(get_at _ _ _ (n * (4 * D) + (2 * D + d))%Z _ Ho) by lia.
  rewrite !(get_at _ _ _ (n * (4 * D) + (3 * D + d))%Z _ Hg) by lia.
  rewrite !(get_at _ _ _ (n * D + d)%Z _ Hcp) by lia.
  rewrite !(get_at _ _ _ (n * D + d)%Z _ Hc) by lia.
  rewrite !(get_at _ _ _ (n * D + d)%Z _ Hcd) by lia.
  rewrite !(get_at _ _ _ (n * D + d)%Z _ Hhd) by lia.
  done.
Qed.


(** C2.  In a sequence [n] that is still running at step [t], feature [d]
    gets, with [i], [f], [o] the sigmoids of the gate values, [g] the
    [tanh] of the candidate value, [tanh_c = tanh(C[n][d])] and
    [c_term = C_diff[n][d] + H_diff[n][d] * o * (1 - tanh_c * tanh_c)]:
    [C_prev_diff[n][d] = c_term * f], and in row [n] of [X_diff], at
    offsets [d], [D + d], [2 D + d], [3 D + d], the values
    [c_term * g * i * (1 - i)], [c_term * c_prev * f * (1 - f)],
    [H_diff[n][d] * tanh_c * o * (1 - o)] and [c_term * i * (1 - g * g)]. *)
Theorem LSTMUnitGradient_valid_cell (N D t : Z) (C_prev X : list T)
    (seqLengths : list Z) (C H0 C_diff H_diff Cpd0 Xd0 : list T)
    (n d len : Z) (x_i x_f x_o x_g c_prev c c_diff h_diff : T) :
  detail.bwd_shapes N D C_prev X seqLengths C C_diff H_diff Cpd0 Xd0 ->
  (0 <= n < N)%Z -> (0 <= d < D)%Z ->
  load seqLengths n = Some len -> (t < len)%Z ->
  cell X (4 * D) n d = Some x_i ->
  cell X (4 * D) n (D + d) = Some x_f ->
  cell X (4 * D) n (2 * D + d) = Some x_o ->
  cell X (4 * D) n (3 * D + d) = Some x_g ->
  cell C_prev D n d = Some c_prev ->
  cell C D n d = Some c ->
  cell C_diff D n d = Some c_diff ->
  cell H_diff D n d = Some h_diff ->
  exists C_prev_diff X_diff,
    detail.LSTMUnitGradient N D t C_prev X seqLengths C H0 C_diff H_diff
      Cpd0 Xd0 = Some (C_prev_diff, X_diff) /\
    let i := detail.sigmoid x_i in
    let f := detail.sigmoid x_f in
    let o := detail.sigmoid x_o in
    let g := detail.tanh x_g in
    let tanh_c := detail.tanh c in
    let c_term := c_diff + h_diff * o * (1 - tanh_c * tanh_c) in
    cell C_prev_diff D n d = Some (c_term * f) /\
    cell X_diff (4 * D) n d = Some (c_term * g * i * (1 - i)) /\
    cell X_diff (4 * D) n (D + d) = Some (c_term * c_prev * f * (1 - f)) /\
    cell X_diff (4 * D) n (2 * D + d) = Some (h_diff * tanh_c * o * (1 - o)) /\
    cell X_diff (4 * D) n (3 * D + d) = Some (c_term * i * (1 - g * g)).
Proof. apply bwd_valid_cells. Qed.

(** C4.  In a sequence [n] that has ended at step [t], feature [d] gets
    [C_prev_diff[n][d] = C_diff[n][d]] and [0] in the four gate-gradient
    cells at offsets [d], [D + d], [2 D + d], [3 D + d] of row [n] of
    [X_diff]. *)
Theorem LSTMUnitGradient_frozen_cell (N D t : Z) (C_prev X : list T)
    (seqLengths : list Z) (C H0 C_diff H_diff Cpd0 Xd0 : list T)
    (n d len : Z) (c_diff : T) :
  detail.bwd_shapes N D C_prev X seqLengths C C_diff H_diff Cpd0 Xd0 ->
  (0 <= n < N)%Z -> (0 <= d < D)%Z ->
  load seqLengths n = Some len -> (t >= len)%Z ->
  cell C_diff D n d = Some c_diff ->
  exists C_prev_diff X_diff,
    detail.LSTMUnitGradient N D t C_prev X seqLengths C H0 C_diff H_diff
      Cpd0 Xd0 = Some (C_prev_diff, X_diff) /\
    cell C_prev_diff D n d = Some c_diff /\
    cell X_diff (4 * D) n d = Some 0 /\
    cell X_diff (4 * D) n (D + d) = Some 0 /\
    cell X_diff (4 * D) n (2 * D + d) = Some 0 /\
    cell X_diff (4 * D) n (3 * D + d) = Some 0.
Proof.
  intros Hsh Hn Hd Hlen Hge Hcd.
  destruct (LSTMUnitGradient_spec D t C_prev X seqLengths C C_diff H_diff
              N H0 Cpd0 Xd0 Hsh)
    as (Cpd & Xd & Hrun & _ & _ & Hcells & _).
  exists Cpd, Xd. split; [exact Hrun|].
  destruct (Hcells n d Hn Hd) as (E0 & E1 & E2 & E3 & E4). unfold cell.
  replace (n * (4 * D) + (D + d))%Z with (n * (4 * D) + 1 * D + d)%Z by lia.
  replace (n * (4 * D) + (2 * D + d))%Z with (n * (4 * D) + 2 * D + d)%Z
    by lia.
  replace (n * (4 * D) + (3 * D + d))%Z with (n * (4 * D) + 3 * D + d)%Z
    by lia.
  rewrite E0, E1, E2, E3, E4.
  unfold C_prev_diff_at, i_diff_at, f_diff_at, o_diff_at, g_diff_at.
  unfold bwd_c_prev, bwd_i, bwd_f, bwd_o, bwd_g.
  rewrite (valid_at_read _ _ _ _ Hlen).
  assert (Hv : detail.valid t len = false) by (apply Z.ltb_ge; lia).
  rewrite Hv.
  rewrite !(get_at _ _ _ (n * D + d)%Z _ Hcd) by lia.
  done.
Qed.

End BackwardClaims.

Lemma LSTMUnitGradient_valid_cell_witness :
  exists C_prev_diff X_diff,
    detail.LSTMUnitGradient 2 2 1 example.C_prev example.X example.seqLengths
      example.C example.H example.C_diff example.H_diff
      example.out4 example.out16 = Some (C_prev_diff, X_diff) /\
    let i := detail.sigmoid 1%R in
    let f := detail.sigmoid 3%R in
    let o := detail.sigmoid (-2)%R in
    let g := detail.tanh 1%R in
    let tanh_c := detail.tanh 0%R in
    let c_term := (0 + 2 * o * (1 - tanh_c * tanh_c))%R in
    cell C_prev_diff 2 0 1 = Some (c_term * f)%R /\
    cell X_diff (4 * 2) 0 1 = Some (c_term * g * i * (1 - i))%R /\
    cell X_diff (4 * 2) 0 (2 + 1) = Some (c_term * (-2) * f * (1 - f))%R /\
    cell X_diff (4 * 2) 0 (2 * 2 + 1) = Some (2 * tanh_c * o * (1 - o))%R /\
    cell X_diff (4 * 2) 0 (3 * 2 + 1) = Some (c_term * i * (1 - g * g))%R.
Proof.
  refine (LSTMUnitGradient_valid_cell 2 2 1 example.C_prev example.X
            example.seqLengths example.C example.H example.C_diff
            example.H_diff example.out4 example.out16 0 1 3
            1%R 3%R (-2)%R 1%R (-2)%R 0%R 0%R 2%R
            _ _ _ _ _ _ _ _ _ _ _ _ _).
  - constructor; simpl; lia.
  - lia.
  - lia.
  - reflexivity.
  - lia.
  - reflexivity.
  - reflexivity.
  - reflexivity.
  - reflexivity.
  - reflexivity.
  - reflexivity.
  - reflexivity.
  - reflexivity.
Defined.

Lemma LSTMUnitGradient_frozen_cell_witness :
  exists C_prev_diff X_diff,
    detail.LSTMUnitGradient 2 2 1 example.C_prev example.X example.seqLengths
      example.C example.H example.C_diff example.H_diff
      example.out4 example.out16 = Some (C_prev_diff, X_diff) /\
    cell C_prev_diff 2 1 0 = Some 2%R /\
    cell X_diff (4 * 2) 1 0 = Some 0%R /\
    cell X_diff (4 * 2) 1 (2 + 0) = Some 0%R /\
    cell X_diff (4 * 2) 1 (2 * 2 + 0) = Some 0%R /\
    cell X_diff (4 * 2) 1 (3 * 2 + 0) = Some 0%R.
Proof.
  refine (LSTMUnitGradient_frozen_cell 2 2 1 example.C_prev example.X
            example.seqLengths example.C example.H example.C_diff
            example.H_diff example.out4 example.out16 1 0 1 2%R
            _ _ _ _ _ _).
  - constructor; simpl; lia.
  - lia.
  - lia.
  - reflexivity.
  - lia.
  - reflexivity.
Defined.

(** ** Properties of both kernels *)

Section BothKernels.
Context {T : Type} `{Scalar T}.
Local Open Scope scalar_scope.

(** C6.  For sequence [n] both kernels branch on the one boolean
    [valid t seqLengths[n]], that is on [t < seqLengths[n]]: every feature
    [d] of the sequence gets, in both kernels, the value its closed form
    takes at that boolean.  At [t = seqLengths[n] - 1] the boolean is true
    (full computation), at [t = seqLengths[n]] it is false (frozen). *)
Theorem validity_shared (N D t : Z) (C_prev X : list T)
    (seqLengths : list Z) (C0 H0 C H1 C_diff H_diff Cpd0 Xd0 : list T)
    (n len : Z) :
  detail.fwd_shapes N D C_prev X seqLengths C0 H0 ->
  detail.bwd_shapes N D C_prev X seqLengths C C_diff H_diff Cpd0 Xd0 ->
  (0 <= n < N)%Z ->
  load seqLengths n = Some len ->
  exists Cf Hf C_prev_diff X_diff,
    detail.LSTMUnit N D t C_prev X seqLengths C0 H0 = Some (Cf, Hf) /\
    detail.LSTMUnitGradient N D t C_prev X seqLengths C H1 C_diff H_diff
      Cpd0 Xd0 = Some (C_prev_diff, X_diff) /\
    (detail.valid t len = true <-> (t < len)%Z) /\
    detail.valid (len - 1) len = true /\
    detail.valid len len = false /\
    let vld := detail.valid t len in
    let p := (n * D)%Z in
    let pX := (n * (4 * D))%Z in
    forall d, (0 <= d < D)%Z ->
      cell Cf D n d = Some (fwd_c D C_prev X vld p pX d) /\
      cell Hf D n d = Some (fwd_h D C_prev X vld p pX d) /\
      cell C_prev_diff D n d
        = Some (bwd_c_prev D X C C_diff H_diff vld p pX d) /\
      cell X_diff (4 * D) n d
        = Some (bwd_i D X C C_diff H_diff vld p pX d) /\
      cell X_diff (4 * D) n (D + d)
        = Some (bwd_f D C_prev X C C_diff H_diff vld p pX d) /\
      cell X_diff (4 * D) n (2 * D + d)
        = Some (bwd_o D X C H_diff vld p pX d) /\
      cell X_diff (4 * D) n (3 * D + d)
        = Some (bwd_g D X C C_diff H_diff vld p pX d).
Proof.
  intros Hf Hb Hn Hlen.
  destruct (LSTMUnit_spec D t C_prev X seqLengths N C0 H0 Hf)
    as (Cf & Hf' & Hrunf & _ & _ & Hcf & _).
  destruct (LSTMUnitGradient_spec D t C_prev X seqLengths C C_diff H_diff
              N H1 Cpd0 Xd0 Hb)
    as (Cpd & Xd & Hrunb & _ & _ & Hcb & _).
  exists Cf, Hf', Cpd, Xd.
  split; [exact Hrunf|]. split; [exact Hrunb|].
  split; [apply Z.ltb_lt|].
  split; [apply Z.ltb_lt; lia|].
  split; [apply Z.ltb_irrefl|].
  intros vld p pX d Hd. subst vld p pX.
  destruct (Hcf n d Hn Hd) as [EC EH].
  destruct (Hcb n d Hn Hd) as (E0 & E1 & E2 & E3 & E4).
  unfold cell.
  replace (n * (4 * D) + (D + d))%Z with (n * (4 * D) + 1 * D + d)%Z by lia.
  replace (n * (4 * D) + (2 * D + d))%Z with (n * (4 * D) + 2 * D + d)%Z
    by lia.
  replace (n * (4 * D) + (3 * D + d))%Z with (n * (4 * D) + 3 * D + d)%Z
    by lia.
  rewrite EC, EH, E0, E1, E2, E3, E4.
  unfold C_at, H_at, C_prev_diff_at, i_diff_at, f_diff_at, o_diff_at,
    g_diff_at.
  rewrite (valid_at_read _ _ _ _ Hlen). done.
Qed.

(** C7.  [tanh x] is [2 * sigmoid (2 * x) - 1] and [sigmoid x] is
    [1 / (1 + exp (- x))], for every [x]; and it is this composite that
    both kernels evaluate: the hidden state of the forward step and the
    gate gradients of the backward step are the values below, written
    with [sigmoid] only. *)
Theorem tanh_is_sigmoid_composite (N D t : Z) (C_prev X : list T)
    (seqLengths : list Z) (C0 H0 C H1 C_diff H_diff Cpd0 Xd0 : list T)
    (n d len : Z) (x_i x_f x_o x_g c_prev c c_diff h_diff : T) :
  detail.fwd_shapes N D C_prev X seqLengths C0 H0 ->
  detail.bwd_shapes N D C_prev X seqLengths C C_diff H_diff Cpd0 Xd0 ->
  (0 <= n < N)%Z -> (0 <= d < D)%Z ->
  load seqLengths n = Some len -> (t < len)%Z ->
  cell X (4 * D) n d = Some x_i ->
  cell X (4 * D) n (D + d) = Some x_f ->
  cell X (4 * D) n (2 * D + d) = Some x_o ->
  cell X (4 * D) n (3 * D + d) = Some x_g ->
  cell C_prev D n d = Some c_prev ->
  cell C D n d = Some c ->
  cell C_diff D n d = Some c_diff ->
  cell H_diff D n d = Some h_diff ->
  (forall x : T, detail.tanh x = 2 * detail.sigmoid (2 * x) - 1) /\
  (forall x : T, detail.sigmoid x = 1 / (1 + sc_exp (- x))) /\
  exists Cf Hf C_prev_diff X_diff,
    detail.LSTMUnit N D t C_prev X seqLengths C0 H0 = Some (Cf, Hf) /\
    detail.LSTMUnitGradient N D t C_prev X seqLengths C H1 C_diff H_diff
      Cpd0 Xd0 = Some (C_prev_diff, X_diff) /\
    let i := detail.sigmoid x_i in
    let f := detail.sigmoid x_f in
    let o := detail.sigmoid x_o in
    let g := 2 * detail.sigmoid (2 * x_g) - 1 in
    let c_new := f * c_prev + i * g in
    let tanh_c := 2 * detail.sigmoid (2 * c) - 1 in
    let c_term := c_diff + h_diff * o * (1 - tanh_c * tanh_c) in
    cell Cf D n d = Some c_new /\
    cell Hf D n d = Some (o * (2 * detail.sigmoid (2 * c_new) - 1)) /\
    cell C_prev_diff D n d = Some (c_term * f) /\
    cell X_diff (4 * D) n d = Some (c_term * g * i * (1 - i)) /\
    cell X_diff (4 * D) n (2 * D + d) = Some (h_diff * tanh_c * o * (1 - o)) /\
    cell X_diff (4 * D) n (3 * D + d) = Some (c_term * i * (1 - g * g)).
Proof.
  intros Hf Hb Hn Hd Hlen Hlt Hi Hxf Ho Hg Hcp Hc Hcd Hhd.
  split; [reflexivity|]. split; [reflexivity|].
  destruct (fwd_valid_cells N D t C_prev X seqLengths C0 H0 n d len
              x_i x_f x_o x_g c_prev Hf Hn Hd Hlen Hlt Hi Hxf Ho Hg Hcp)
    as (Cf & Hf' & Hrunf & EC & EH).
  destruct (bwd_valid_cells N D t C_prev X seqLengths C H1 C_diff H_diff
              Cpd0 Xd0 n d len x_i x_f x_o x_g c_prev c c_diff h_diff
              Hb Hn Hd Hlen Hlt Hi Hxf Ho Hg Hcp Hc Hcd Hhd)
    as (Cpd & Xd & Hrunb & E0 & E1 & _ & E3 & E4).
  exists Cf, Hf', Cpd, Xd.
  split; [exact Hrunf|]. split; [exact Hrunb|].
  cbn zeta. unfold detail.tanh in EC, EH, E0, E1, E3, E4.
  split_and!; assumption.
Qed.

(** C10.  The backward kernel never reads the hidden-state buffer [H]:
    two calls that differ only in [H] return the same two buffers. *)
Theorem LSTMUnitGradient_ignores_H (N D t : Z) (C_prev X : list T)
    (seqLengths : list Z) (C H1 H2 C_diff H_diff Cpd0 Xd0 : list T) :
  detail.LSTMUnitGradient N D t C_prev X seqLengths C H1 C_diff H_diff
    Cpd0 Xd0
  = detail.LSTMUnitGradient N D t C_prev X seqLengths C H2 C_diff H_diff
      Cpd0 Xd0.
Proof. reflexivity. Qed.

End BothKernels.

(** ** Independence of the sequences *)

Lemma get_same {A : Type} (dflt : A) (b1 b2 : list A) i j :
  load b1 i = load b2 i -> i = j -> get dflt b1 j = get dflt b2 j.
Proof. intros Hl <-. unfold get. by rewrite Hl. Qed.

Section Independence.
Context {T : Type} `{Scalar T}.

Lemma C_at_same_row D t (C_prev X C_prev' X' : list T)
    (seqLengths seqLengths' : list Z) n d :
  0 <= d < D ->
  same_row D n C_prev C_prev' -> same_row (4 * D) n X X' ->
  load seqLengths n = load seqLengths' n ->
  C_at D t C_prev X seqLengths n d = C_at D t C_prev' X' seqLengths' n d /\
  H_at D t C_prev X seqLengths n d = H_at D t C_prev' X' seqLengths' n d.
Proof.
  intros Hd HC HX Hs. unfold C_at, H_at, fwd_c, fwd_h, valid_at.
  rewrite Hs.
  rewrite (get_same _ X X' (n * (4 * D) + d) _ (HX d ltac:(lia)) eq_refl).
  rewrite (get_same _ X X' (n * (4 * D) + (1 * D + d)) _
             (HX (1 * D + d) ltac:(lia)) eq_refl).
  rewrite (get_same _ X X' (n * (4 * D) + (2 * D + d)) _
             (HX (2 * D + d) ltac:(lia)) eq_refl).
  rewrite (get_same _ X X' (n * (4 * D) + (3 * D + d)) _
             (HX (3 * D + d) ltac:(lia)) eq_refl).
  rewrite (get_same _ C_prev C_prev' (n * D + d) _ (HC d ltac:(lia)) eq_refl).
  done.
Qed.

Lemma diff_at_same_row D t (C_prev X C C_diff H_diff : list T)
    (C_prev' X' C' C_diff' H_diff' : list T)
    (seqLengths seqLengths' : list Z) n d :
  0 <= d < D ->
  same_row D n C_prev C_prev' -> same_row (4 * D) n X X' ->
  same_row D n C C' -> same_row D n C_diff C_diff' ->
  same_row D n H_diff H_diff' ->
  load seqLengths n = load seqLengths' n ->
  C_prev_diff_at D t X seqLengths C C_diff H_diff n d
    = C_prev_diff_at D t X' seqLengths' C' C_diff' H_diff' n d /\
  i_diff_at D t X seqLengths C C_diff H_diff n d
    = i_diff_at D t X' seqLengths' C' C_diff' H_diff' n d /\
  f_diff_at D t C_prev X seqLengths C C_diff H_diff n d
    = f_diff_at D t C_prev' X' seqLengths' C' C_diff' H_diff' n d /\
  o_diff_at D t X seqLengths C H_diff n d
    = o_diff_at D t X' seqLengths' C' H_diff' n d /\
  g_diff_at D t X seqLengths C C_diff H_diff n d
    = g_diff_at D t X' seqLengths' C' C_diff' H_diff' n d.
Proof.
  intros Hd HCp HX HC HCd HHd Hs.
  unfold C_prev_diff_at, i_diff_at, f_diff_at, o_diff_at, g_diff_at.
  unfold bwd_c_prev, bwd_i, bwd_f, bwd_o, bwd_g, valid_at.
  rewrite Hs.
  rewrite !(get_same _ X X' (n * (4 * D) + d) _ (HX d ltac:(lia)) eq_refl).
  rewrite !(get_same _ X X' (n * (4 * D) + (1 * D + d)) _
              (HX (1 * D + d) ltac:(lia)) eq_refl).
  rewrite !(get_same _ X X' (n * (4 * D) + (2 * D + d)) _
              (HX (2 * D + d) ltac:(lia)) eq_refl).
  rewrite !(get_same _ X X' (n * (4 * D) + (3 * D + d)) _
              (HX (3 * D + d) ltac:(lia)) eq_refl).
  rewrite !(get_same _ C_prev C_prev' (n * D + d) _
              (HCp d ltac:(lia)) eq_refl).
  rewrite !(get_same _ C C' (n * D + d) _ (HC d ltac:(lia)) eq_refl).
  rewrite !(get_same _ C_diff C_diff' (n * D + d) _
              (HCd d ltac:(lia)) eq_refl).
  rewrite !(get_same _ H_diff H_diff' (n * D + d) _
              (HHd d ltac:(lia)) eq_refl).
  done.
Qed.

End Independence.

Section IndependenceClaim.
Context {T : Type} `{Scalar T}.

(** One sequence of the forward kernel writes its own rows only. *)
Lemma LSTMUnit_seq_local N D t (C_prev X : list T) (seqLengths : list Z)
    (C0 H0 : list T) n :
  detail.fwd_shapes N D C_prev X seqLengths C0 H0 ->
  0 <= n < N ->
  exists s s',
    for_int n (detail.LSTMUnit_seq D t C_prev X seqLengths)
      (detail.fwd_init C0 H0) = Some s /\
    detail.LSTMUnit_seq D t C_prev X seqLengths n s = Some s' /\
    same_outside_row D n (detail.fw_Cbuf s') (detail.fw_Cbuf s) /\
    same_outside_row D n (detail.fw_Hbuf s') (detail.fw_Hbuf s).
Proof.
  intros Hsh Hn.
  destruct (LSTMUnit_run D t C_prev X seqLengths N C0 H0 Hsh n)
    as (s & Hrun & Epc & Epx & EpC & EpH & HlC & HlH & _); [lia|].
  destruct Hsh as [HN HD HCp HX Hsl HC HH].
  assert (Hs1 : 0 <= n * D /\ n * D + D <= N * D) by nia.
  destruct (LSTMUnit_inner D C_prev X (detail.valid t (get 0 seqLengths n))
      (n * D) (n * (4 * D)) (n * D) (n * D)
      (detail.fw_Cbuf s) (detail.fw_Hbuf s))
    as (C' & H' & Hin & _ & _ & _ & HoC & HoH); try lia.
  exists s. eexists. split; [exact Hrun|].
  unfold detail.LSTMUnit_seq.
  rewrite (load_in 0 seqLengths n) by lia. simpl.
  rewrite Epc, Epx, EpC, EpH, Hin. simpl.
  split; [reflexivity|]. simpl. split; assumption.
Qed.

(** One sequence of the backward kernel writes its own rows only. *)
Lemma LSTMUnitGradient_seq_local N D t (C_prev X : list T)
    (seqLengths : list Z) (C H0 C_diff H_diff Cpd0 Xd0 : list T) n :
  detail.bwd_shapes N D C_prev X seqLengths C C_diff H_diff Cpd0 Xd0 ->
  0 <= n < N ->
  exists s s',
    for_int n
      (detail.LSTMUnitGradient_seq D t C_prev X seqLengths C H0 C_diff H_diff)
      (detail.bwd_init Cpd0 Xd0) = Some s /\
    detail.LSTMUnitGradient_seq D t C_prev X seqLengths C H0 C_diff H_diff
      n s = Some s' /\
    same_outside_row D n
      (detail.bw_C_prev_diff_buf s') (detail.bw_C_prev_diff_buf s) /\
    same_outside_row (4 * D) n
      (detail.bw_X_diff_buf s') (detail.bw_X_diff_buf s).
Proof.
  intros Hsh Hn.
  destruct (LSTMUnitGradient_run D t C_prev X seqLengths C C_diff H_diff
              N H0 Cpd0 Xd0 Hsh n)
    as (s & Hrun & HlC & HlX & _ & _ & _
        & Epc & Epx & EpC & EpH & EpCd & EpHd & EpXd & EpCpd); [lia|].
  destruct Hsh as [HN HD HCp HX Hsl HC HCd HHd HCpd HXd].
  assert (Hs1 : 0 <= n * D /\ n * D + D <= N * D) by nia.
  destruct (LSTMUnitGradient_inner D C_prev X C C_diff H_diff
      (detail.valid t (get 0 seqLengths n))
      (n * D) (n * (4 * D)) (n * D) (n * (4 * D))
      (detail.bw_C_prev_diff_buf s) (detail.bw_X_diff_buf s))
    as (C' & X' & Hin & _ & _ & _ & HoC & HoX); try lia.
  exists s. eexists. split; [exact Hrun|].
  unfold detail.LSTMUnitGradient_seq.
  rewrite (load_in 0 seqLengths n) by lia. simpl.
  rewrite Epc, Epx, EpC, EpCd, EpHd, EpXd, EpCpd, Hin. simpl.
  split; [reflexivity|]. simpl. split; assumption.
Qed.

(** C8.  What the kernels write for sequence [n] depends on [t] and on
    row [n] of the inputs only: two calls whose inputs agree on row [n]
    ([C_prev], [X], [seqLengths], and for the backward step [C], [C_diff],
    [H_diff]) agree on row [n] of the outputs.  And the iteration for
    sequence [n], run in the state the earlier sequences left, changes
    nothing outside row [n] of the outputs. *)
Theorem sequences_independent (N D t n : Z)
    (C_prev X : list T) (seqLengths : list Z)
    (C H1 C_diff H_diff C0 H0 Cpd0 Xd0 : list T)
    (C_prev' X' : list T) (seqLengths' : list Z)
    (C' H1' C_diff' H_diff' C0' H0' Cpd0' Xd0' : list T) :
  detail.fwd_shapes N D C_prev X seqLengths C0 H0 ->
  detail.fwd_shapes N D C_prev' X' seqLengths' C0' H0' ->
  detail.bwd_shapes N D C_prev X seqLengths C C_diff H_diff Cpd0 Xd0 ->
  detail.bwd_shapes N D C_prev' X' seqLengths' C' C_diff' H_diff'
    Cpd0' Xd0' ->
  0 <= n < N ->
  same_row D n C_prev C_prev' ->
  same_row (4 * D) n X X' ->
  load seqLengths n = load seqLengths' n ->
  same_row D n C C' ->
  same_row D n C_diff C_diff' ->
  same_row D n H_diff H_diff' ->
  (exists Cf Hf Cf' Hf',
     detail.LSTMUnit N D t C_prev X seqLengths C0 H0 = Some (Cf, Hf) /\
     detail.LSTMUnit N D t C_prev' X' seqLengths' C0' H0' = Some (Cf', Hf') /\
     same_row D n Cf Cf' /\ same_row D n Hf Hf') /\
  (exists Cpd Xd Cpd' Xd',
     detail.LSTMUnitGradient N D t C_prev X seqLengths C H1 C_diff H_diff
       Cpd0 Xd0 = Some (Cpd, Xd) /\
     detail.LSTMUnitGradient N D t C_prev' X' seqLengths' C' H1' C_diff'
       H_diff' Cpd0' Xd0' = Some (Cpd', Xd') /\
     same_row D n Cpd Cpd' /\ same_row (4 * D) n Xd Xd') /\
  (exists s s',
     for_int n (detail.LSTMUnit_seq D t C_prev X seqLengths)
       (detail.fwd_init C0 H0) = Some s /\
     detail.LSTMUnit_seq D t C_prev X seqLengths n s = Some s' /\
     same_outside_row D n (detail.fw_Cbuf s') (detail.fw_Cbuf s) /\
     same_outside_row D n (detail.fw_Hbuf s') (detail.fw_Hbuf s)) /\
  (exists s s',
     for_int n
       (detail.LSTMUnitGradient_seq D t C_prev X seqLengths C H1 C_diff H_diff)
       (detail.bwd_init Cpd0 Xd0) = Some s /\
     detail.LSTMUnitGradient_seq D t C_prev X seqLengths C H1 C_diff H_diff
       n s = Some s' /\
     same_outside_row D n
       (detail.bw_C_prev_diff_buf s') (detail.bw_C_prev_diff_buf s) /\
     same_outside_row (4 * D) n
       (detail.bw_X_diff_buf s') (detail.bw_X_diff_buf s)).
Proof.
  intros Hf Hf' Hb Hb' Hn HCp HX Hsl HC HCd HHd.
  split_and!.
  - destruct (LSTMUnit_spec D t C_prev X seqLengths N C0 H0 Hf)
      as (Cf & Hf1 & Hrun & _ & _ & Hc & _).
    destruct (LSTMUnit_spec D t C_prev' X' seqLengths' N C0' H0' Hf')
      as (Cf' & Hf1' & Hrun' & _ & _ & Hc' & _).
    exists Cf, Hf1, Cf', Hf1'. split; [done|]. split; [done|].
    split; intros d Hd; unfold cell;
      destruct (Hc n d Hn Hd) as [E1 E2];
      destruct (Hc' n d Hn Hd) as [E1' E2'];
      destruct (C_at_same_row D t C_prev X C_prev' X' seqLengths seqLengths'
                  n d Hd HCp HX Hsl) as [E3 E4]; congruence.
  - destruct (LSTMUnitGradient_spec D t C_prev X seqLengths C C_diff H_diff
                N H1 Cpd0 Xd0 Hb)
      as (Cpd & Xd & Hrun & _ & _ & Hc & _).
    destruct (LSTMUnitGradient_spec D t C_prev' X' seqLengths' C' C_diff'
                H_diff' N H1' Cpd0' Xd0' Hb')
      as (Cpd' & Xd' & Hrun' & _ & _ & Hc' & _).
    exists Cpd, Xd, Cpd', Xd'. split; [done|]. split; [done|].
    assert (Hrow : forall d, 0 <= d < D ->
      load Cpd (n * D + d) = load Cpd' (n * D + d) /\
      load Xd (n * (4 * D) + d) = load Xd' (n * (4 * D) + d) /\
      load Xd (n * (4 * D) + 1 * D + d)
        = load Xd' (n * (4 * D) + 1 * D + d) /\
      load Xd (n * (4 * D) + 2 * D + d)
        = load Xd' (n * (4 * D) + 2 * D + d) /\
      load Xd (n * (4 * D) + 3 * D + d)
        = load Xd' (n * (4 * D) + 3 * D + d)).
    { intros d Hd.
      destruct (Hc n d Hn Hd) as (E0 & E1 & E2 & E3 & E4).
      destruct (Hc' n d Hn Hd) as (E0' & E1' & E2' & E3' & E4').
      destruct (diff_at_same_row D t C_prev X C C_diff H_diff
                  C_prev' X' C' C_diff' H_diff' seqLengths seqLengths'
                  n d Hd HCp HX HC HCd HHd Hsl)
        as (S0 & S1 & S2 & S3 & S4).
      split_and!; congruence. }
    split.
    + intros d Hd. unfold cell. destruct (Hrow d Hd) as (E & _). exact E.
    + intros k Hk. unfold cell.
      destruct (decide (k < D)) as [H0k|H0k].
      { destruct (Hrow k) as (_ & E & _); [lia | exact E]. }
      destruct (decide (k < 2 * D)) as [H1k|H1k].
      { replace (n * (4 * D) + k) with (n * (4 * D) + 1 * D + (k - D))
          by lia.
        destruct (Hrow (k - D)) as (_ & _ & E & _); [lia | exact E]. }
      destruct (decide (k < 3 * D)) as [H2k|H2k].
      { replace (n * (4 * D) + k) with (n * (4 * D) + 2 * D + (k - 2 * D))
          by lia.
        destruct (Hrow (k - 2 * D)) as (_ & _ & _ & E & _); [lia | exact E]. }
      replace (n * (4 * D) + k) with (n * (4 * D) + 3 * D + (k - 3 * D))
        by lia.
      destruct (Hrow (k - 3 * D)) as (_ & _ & _ & _ & E); [lia | exact E].
  - by apply (LSTMUnit_seq_local N).
  - by apply (LSTMUnitGradient_seq_local N).
Qed.

End IndependenceClaim.

(** ** Reading the cell value against recomputing it *)

Section Recompute.
Context {T : Type} `{Scalar T}.
Local Open Scope scalar_scope.

(** Both backward kernels on one sequence of one feature. *)
Lemma LSTMUnitGradient_1x1 (c_prev x_i x_f x_o x_g c h c_diff h_diff : T)
    (cpd0 xd0 xd1 xd2 xd3 : T) :
  detail.LSTMUnitGradient 1 1 0 [c_prev] [x_i; x_f; x_o; x_g] [1%Z]
    [c] [h] [c_diff] [h_diff] [cpd0] [xd0; xd1; xd2; xd3]
  = Some ([grad_c_prev true x_f x_o c c_diff h_diff],
          [grad_i true x_i x_o x_g c c_diff h_diff;
           grad_f true x_f x_o c_prev c c_diff h_diff;
           grad_o true x_o c h_diff;
           grad_g true x_i x_o x_g c c_diff h_diff]).
Proof. reflexivity. Qed.

Lemma LSTMUnitGradient_recompute_1x1
    (c_prev x_i x_f x_o x_g c_diff h_diff : T) (cpd0 xd0 xd1 xd2 xd3 : T) :
  let c := cell_c true x_i x_f x_g c_prev in
  detail.LSTMUnitGradient_recompute 1 1 0 [c_prev] [x_i; x_f; x_o; x_g]
    [1%Z] [c_diff] [h_diff] [cpd0] [xd0; xd1; xd2; xd3]
  = Some ([grad_c_prev true x_f x_o c c_diff h_diff],
          [grad_i true x_i x_o x_g c c_diff h_diff;
           grad_f true x_f x_o c_prev c c_diff h_diff;
           grad_o true x_o c h_diff;
           grad_g true x_i x_o x_g c c_diff h_diff]).
Proof. reflexivity. Qed.

(** On the cell values the forward step wrote, one inner iteration of the
    kernel and of its recomputing variant are the same function. *)
Lemma feature_recompute_eq N D t (C_prev X : list T) (seqLengths : list Z)
    (Cf C_diff H_diff : list T) n len d pCd pHd pXd pCpd
    (out : list T * list T) :
  (forall n d, 0 <= n < N -> 0 <= d < D ->
     load Cf (n * D + d) = Some (C_at D t C_prev X seqLengths n d))%Z ->
  (0 <= n < N)%Z -> (0 <= d < D)%Z ->
  load seqLengths n = Some len ->
  detail.LSTMUnitGradient_feature D C_prev X Cf C_diff H_diff
    (detail.valid t len) (n * D) (n * (4 * D)) (n * D) pCd pHd pXd pCpd d out
  = detail.LSTMUnitGradient_recompute_feature D C_prev X C_diff H_diff
      (detail.valid t len) (n * D) (n * (4 * D)) pCd pHd pXd pCpd d out.
Proof.
  intros Hcf Hn Hd Hlen.
  unfold detail.LSTMUnitGradient_feature,
    detail.LSTMUnitGradient_recompute_feature.
  destruct out as [Cpd Xd].
  destruct (detail.valid t len) eqn:Hv; cbn [negb]; [|reflexivity].
  destruct (load X (n * (4 * D) + d)) as [x_i|] eqn:Ei; [|reflexivity].
  destruct (load X (n * (4 * D) + (1 * D + d))) as [x_f|] eqn:Ef;
    [|reflexivity].
  destruct (load X (n * (4 * D) + (2 * D + d))) as [x_o|] eqn:Eo;
    [|reflexivity].
  destruct (load X (n * (4 * D) + (3 * D + d))) as [x_g|] eqn:Eg;
    [|reflexivity].
  destruct (load C_prev (n * D + d)) as [c_prev|] eqn:Ec; [|reflexivity].
  cbn [mbind option_bind].
  rewrite (Hcf n d Hn Hd). unfold C_at, fwd_c.
  rewrite (valid_at_read _ _ _ _ Hlen), Hv.
  rewrite (get_load _ _ _ _ Ei), (get_load _ _ _ _ Ef),
    (get_load _ _ _ _ Eg), (get_load _ _ _ _ Ec).
  reflexivity.
Qed.

(** C5, as amended.  In the valid branch the backward kernel recomputes
    [i], [f], [o], [g] and [tanh_c] but reads [c] from its input [C]; when
    [C] is the cell state the forward kernel produced for the same
    [N], [D], [t], [C_prev], [X] and [seqLengths], the kernel returns
    exactly what the variant that recomputes [c = f * c_prev + i * g]
    returns. *)
Theorem LSTMUnitGradient_recompute_on_forward_output (N D t : Z)
    (C_prev X : list T) (seqLengths : list Z)
    (C0 H0 Cf Hf H1 C_diff H_diff Cpd0 Xd0 : list T) :
  detail.fwd_shapes N D C_prev X seqLengths C0 H0 ->
  detail.LSTMUnit N D t C_prev X seqLengths C0 H0 = Some (Cf, Hf) ->
  detail.bwd_shapes N D C_prev X seqLengths Cf C_diff H_diff Cpd0 Xd0 ->
  exists C_prev_diff X_diff,
    detail.LSTMUnitGradient N D t C_prev X seqLengths Cf H1 C_diff H_diff
      Cpd0 Xd0 = Some (C_prev_diff, X_diff) /\
    detail.LSTMUnitGradient_recompute N D t C_prev X seqLengths C_diff H_diff
      Cpd0 Xd0 = Some (C_prev_diff, X_diff).
Proof.
  intros Hsh Hfwd Hb.
  destruct (LSTMUnit_spec D t C_prev X seqLengths N C0 H0 Hsh)
    as (Cf' & Hf' & Hrun & _ & _ & Hcells & _).
  rewrite Hfwd in Hrun. injection Hrun as <- <-.
  destruct (LSTMUnitGradient_spec D t C_prev X seqLengths Cf C_diff H_diff
              N H1 Cpd0 Xd0 Hb) as (Cpd & Xd & Hg & _).
  exists Cpd, Xd. split; [exact Hg|]. rewrite <- Hg.
  unfold detail.LSTMUnitGradient, detail.LSTMUnitGradient_recompute.
  f_equal. symmetry.
  apply (for_int_ext (fun k s =>
    detail.bw_C_prev s = k * D /\ detail.bw_X s = k * (4 * D) /\
    detail.bw_C s = k * D)%Z).
  - simpl. lia.
  - intros n s Hn (Epc & Epx & EpC).
    unfold detail.LSTMUnitGradient_seq, detail.LSTMUnitGradient_recompute_seq.
    destruct (load seqLengths n) as [len|] eqn:Hlen; [|reflexivity].
    cbn [mbind option_bind]. rewrite Epc, Epx, EpC.
    f_equal.
    apply (for_int_ext (fun _ _ => True)); [done | | done].
    intros d out Hd _.
    apply (feature_recompute_eq N D t C_prev X seqLengths); try done.
    intros n0 d0 Hn0 Hd0. by apply Hcells.
  - intros n s s1 Hn (Epc & Epx & EpC).
    unfold detail.LSTMUnitGradient_seq.
    destruct (load seqLengths n) as [len|]; [|discriminate].
    cbn [mbind option_bind].
    destruct (for_int D _ _) as [out|]; [|discriminate].
    cbn [mbind option_bind]. intros [= <-]. simpl. lia.
Qed.

End Recompute.

(** ** The all-zero example *)

Section ZeroExample.
Context {T : Type} `{Scalar T}.
Local Open Scope scalar_scope.

Lemma LSTMUnit_1x1 (c_prev x_i x_f x_o x_g c0 h0 : T) :
  detail.LSTMUnit 1 1 0 [c_prev] [x_i; x_f; x_o; x_g] [1%Z] [c0] [h0]
  = Some ([cell_c true x_i x_f x_g c_prev],
          [cell_h true x_i x_f x_o x_g c_prev]).
Proof. reflexivity. Qed.

Lemma sigmoid_zero : exact_at_zero T -> detail.sigmoid 0 = 1 / (1 + 1).
Proof. intros Hz. unfold detail.sigmoid. by rewrite (eaz_exp T Hz). Qed.

Lemma tanh_zero : exact_at_zero T -> detail.tanh 0 = 0.
Proof.
  intros Hz. unfold detail.tanh.
  rewrite (eaz_two_zero T Hz), (sigmoid_zero Hz). apply (eaz_two_half T Hz).
Qed.

(** C9.  With [N = 1], [D = 1], [t = 0], [seqLengths = [1]],
    [C_prev = [0]] and the four gate values [0], the forward kernel
    returns [C = [0]] and [H = [0]]: the three sigmoids are [1 / (1 + 1)],
    [g = tanh 0 = 0], [c = 0] and [h = 0]. *)
Theorem LSTMUnit_example_zero (c0 h0 : T) :
  exact_at_zero T ->
  detail.sigmoid 0 = 1 / (1 + 1) /\
  detail.tanh 0 = 0 /\
  detail.LSTMUnit 1 1 0 [0] [0; 0; 0; 0] [1%Z] [c0] [h0] = Some ([0], [0]).
Proof.
  intros Hz. split; [by apply sigmoid_zero|]. split; [by apply tanh_zero|].
  rewrite LSTMUnit_1x1. unfold cell_h, cell_c.
  rewrite (sigmoid_zero Hz), (tanh_zero Hz).
  rewrite (eaz_half_zero T Hz), (eaz_add_zero T Hz), (tanh_zero Hz).
  by rewrite (eaz_half_zero T Hz).
Qed.

End ZeroExample.

(** The reals satisfy the arithmetic at zero. *)
Lemma R_exact_at_zero : exact_at_zero R.
Proof.
  constructor; simpl.
  - rewrite Ropp_0. apply exp_0.
  - lra.
  - lra.
  - lra.
  - lra.
Qed.

Lemma LSTMUnit_example_zero_witness :
  detail.sigmoid 0%R = (1 / (1 + 1))%R /\
  detail.tanh 0%R = 0%R /\
  detail.LSTMUnit 1 1 0 [0%R] [0%R; 0%R; 0%R; 0%R] [1%Z] [7%R] [7%R]
    = Some ([0%R], [0%R]).
Proof. exact (LSTMUnit_example_zero 7%R 7%R R_exact_at_zero). Defined.

(** So does binary64 arithmetic, whatever [exp] is away from zero. *)
Lemma binary64_exact_at_zero (fexp : float -> float) :
  fexp (- 0)%float = 1%float ->
  @exact_at_zero float (binary64_scalar fexp).
Proof. intros Hexp. constructor; [exact Hexp | reflexivity ..]. Qed.

(** The example in binary64: the outputs are the float [+0]. *)
Lemma LSTMUnit_example_zero_binary64 (fexp : float -> float) (c0 h0 : float) :
  fexp (- 0)%float = 1%float ->
  @detail.LSTMUnit float (binary64_scalar fexp) 1 1 0
    [0%float] [0%float; 0%float; 0%float; 0%float] [1%Z] [c0] [h0]
  = Some ([0%float], [0%float]).
Proof.
  intros Hexp.
  apply (@LSTMUnit_example_zero float (binary64_scalar fexp) c0 h0).
  by apply binary64_exact_at_zero.
Qed.

(** ** Over the reals *)

Lemma exp_neg_two_lt_1 : (0 < exp (- (2 * 1)) < 1)%R.
Proof.
  split; [apply exp_pos|].
  pose proof (exp_increasing (- (2 * 1)) 0 ltac:(lra)) as Hlt.
  by rewrite exp_0 in Hlt.
Qed.

(** X21.  Over the reals the [tanh] helper, written with [sigmoid], is the
    hyperbolic tangent [sinh x / cosh x]. *)
Lemma tanh_real (x : R) : detail.tanh x = Rtrigo_def.tanh x.
Proof.
  unfold detail.tanh, detail.sigmoid, Rtrigo_def.tanh, sinh, cosh.
  cbn [sc_mul sc_add sc_sub sc_div sc_neg sc_exp sc_one sc_two R_scalar].
  replace (- (2 * x))%R with (- x + - x)%R by lra.
  rewrite exp_plus. rewrite (exp_Ropp x).
  pose proof (exp_pos x) as Hx.
  assert (0 < exp x * exp x)%R by (by apply Rmult_lt_0_compat).
  field. split; lra.
Qed.

(** C5, the counterexample.  One sequence of one feature, all gate values
    [0], [C_prev = [0]], [H_diff = [1]], [C_diff = [0]]: the forward step
    would produce the cell value [0], but the kernel is handed [C = [1]]
    and uses it, so its output-gate gradient is [tanh 1 / 4], not the [0]
    of the recomputing variant. *)
Lemma LSTMUnitGradient_reads_C :
  detail.LSTMUnitGradient 1 1 0 [0%R] [0%R; 0%R; 0%R; 0%R] [1%Z]
    [1%R] [0%R] [0%R] [1%R] [0%R] [0%R; 0%R; 0%R; 0%R]
  <> detail.LSTMUnitGradient_recompute 1 1 0 [0%R] [0%R; 0%R; 0%R; 0%R] [1%Z]
       [0%R] [1%R] [0%R] [0%R; 0%R; 0%R; 0%R].
Proof.
  rewrite LSTMUnitGradient_1x1.
  rewrite (LSTMUnitGradient_recompute_1x1 0%R 0%R 0%R 0%R 0%R 0%R 1%R).
  cbn zeta. intros [= _ _ _ Eo _]. revert Eo.
  replace (2 * 0)%R with 0%R by lra.
  rewrite !Ropp_0, !exp_0.
  replace (- (2 * (1 / (1 + 1) * 0 + 1 / (1 + 1) * (2 * (1 / (1 + 1)) - 1))))%R
    with 0%R by lra.
  rewrite exp_0.
  pose proof exp_neg_two_lt_1 as [He0 He1].
  set (e := exp (- (2 * 1))) in *.
  assert (Hu : (1 / (1 + e) * (1 + e) = 1)%R) by (field; lra).
  set (u := (1 / (1 + e))%R) in *.
  intros E. assert (Hhalf : u = (1 / 2)%R) by lra.
  rewrite Hhalf in Hu. lra.
Qed.

(** ** The statements on the example batches *)

Lemma example_fwd_shapes :
  detail.fwd_shapes 2 2 example.C_prev example.X example.seqLengths
    example.out4 example.out4.
Proof. constructor; simpl; lia. Defined.

Lemma example_bwd_shapes :
  detail.bwd_shapes 2 2 example.C_prev example.X example.seqLengths
    example.C example.C_diff example.H_diff example.out4 example.out16.
Proof. constructor; simpl; lia. Defined.

Lemma example2_fwd_shapes :
  detail.fwd_shapes 2 2 example2.C_prev example2.X example2.seqLengths
    example2.out4 example2.out4.
Proof. constructor; simpl; lia. Defined.

Lemma example2_bwd_shapes :
  detail.bwd_shapes 2 2 example2.C_prev example2.X example2.seqLengths
    example2.C example2.C_diff example2.H_diff example2.out4 example2.out16.
Proof. constructor; simpl; lia. Defined.

Lemma LSTMUnitGradient_recompute_on_forward_output_witness :
  exists Cf Hf C_prev_diff X_diff,
    detail.LSTMUnit 2 2 1 example.C_prev example.X example.seqLengths
      example.out4 example.out4 = Some (Cf, Hf) /\
    detail.LSTMUnitGradient 2 2 1 example.C_prev example.X example.seqLengths
      Cf example.H example.C_diff example.H_diff example.out4 example.out16
      = Some (C_prev_diff, X_diff) /\
    detail.LSTMUnitGradient_recompute 2 2 1 example.C_prev example.X
      example.seqLengths example.C_diff example.H_diff
      example.out4 example.out16 = Some (C_prev_diff, X_diff).
Proof.
  destruct (LSTMUnit_spec 2 1 example.C_prev example.X example.seqLengths
              2 example.out4 example.out4 example_fwd_shapes)
    as (Cf & Hf & Hrun & HlC & _).
  exists Cf, Hf.
  destruct (LSTMUnitGradient_recompute_on_forward_output 2 2 1
              example.C_prev example.X example.seqLengths
              example.out4 example.out4 Cf Hf example.H
              example.C_diff example.H_diff example.out4 example.out16
              example_fwd_shapes Hrun)
    as (Cpd & Xd & E1 & E2).
  - constructor; rewrite ?HlC; simpl; lia.
  - exists Cpd, Xd. split; [exact Hrun|]. split; [exact E1 | exact E2].
Defined.

Lemma validity_shared_witness :
  exists Cf Hf C_prev_diff X_diff,
    detail.LSTMUnit 2 2 1 example.C_prev example.X example.seqLengths
      example.out4 example.out4 = Some (Cf, Hf) /\
    detail.LSTMUnitGradient 2 2 1 example.C_prev example.X example.seqLengths
      example.C example.H example.C_diff example.H_diff
      example.out4 example.out16 = Some (C_prev_diff, X_diff) /\
    (detail.valid 1 3 = true <-> 1 < 3) /\
    detail.valid (3 - 1) 3 = true /\
    detail.valid 3 3 = false /\
    let vld := detail.valid 1 3 in
    let p := 0 * 2 in
    let pX := 0 * (4 * 2) in
    forall d, 0 <= d < 2 ->
      cell Cf 2 0 d = Some (fwd_c 2 example.C_prev example.X vld p pX d) /\
      cell Hf 2 0 d = Some (fwd_h 2 example.C_prev example.X vld p pX d) /\
      cell C_prev_diff 2 0 d
        = Some (bwd_c_prev 2 example.X example.C example.C_diff
                  example.H_diff vld p pX d) /\
      cell X_diff (4 * 2) 0 d
        = Some (bwd_i 2 example.X example.C example.C_diff
                  example.H_diff vld p pX d) /\
      cell X_diff (4 * 2) 0 (2 + d)
        = Some (bwd_f 2 example.C_prev example.X example.C example.C_diff
                  example.H_diff vld p pX d) /\
      cell X_diff (4 * 2) 0 (2 * 2 + d)
        = Some (bwd_o 2 example.X example.C example.H_diff vld p pX d) /\
      cell X_diff (4 * 2) 0 (3 * 2 + d)
        = Some (bwd_g 2 example.X example.C example.C_diff
                  example.H_diff vld p pX d).
Proof.
  refine (validity_shared 2 2 1 example.C_prev example.X example.seqLengths
            example.out4 example.out4 example.C example.H example.C_diff
            example.H_diff example.out4 example.out16 0 3
            example_fwd_shapes example_bwd_shapes _ _).
  - lia.
  - reflexivity.
Defined.

Lemma tanh_is_sigmoid_composite_witness :
  (forall x : R, detail.tanh x = (2 * detail.sigmoid (2 * x) - 1)%R) /\
  (forall x : R, detail.sigmoid x = (1 / (1 + exp (- x)))%R) /\
  exists Cf Hf C_prev_diff X_diff,
    detail.LSTMUnit 2 2 1 example.C_prev example.X example.seqLengths
      example.out4 example.out4 = Some (Cf, Hf) /\
    detail.LSTMUnitGradient 2 2 1 example.C_prev example.X example.seqLengths
      example.C example.H example.C_diff example.H_diff
      example.out4 example.out16 = Some (C_prev_diff, X_diff) /\
    let i := detail.sigmoid 1%R in
    let f := detail.sigmoid 3%R in
    let o := detail.sigmoid (-2)%R in
    let g := (2 * detail.sigmoid (2 * 1) - 1)%R in
    let c_new := (f * (-2) + i * g)%R in
    let tanh_c := (2 * detail.sigmoid (2 * 0) - 1)%R in
    let c_term := (0 + 2 * o * (1 - tanh_c * tanh_c))%R in
    cell Cf 2 0 1 = Some c_new /\
    cell Hf 2 0 1 = Some (o * (2 * detail.sigmoid (2 * c_new) - 1))%R /\
    cell C_prev_diff 2 0 1 = Some (c_term * f)%R /\
    cell X_diff (4 * 2) 0 1 = Some (c_term * g * i * (1 - i))%R /\
    cell X_diff (4 * 2) 0 (2 * 2 + 1) = Some (2 * tanh_c * o * (1 - o))%R /\
    cell X_diff (4 * 2) 0 (3 * 2 + 1) = Some (c_term * i * (1 - g * g))%R.
Proof.
  refine (tanh_is_sigmoid_composite 2 2 1 example.C_prev example.X
            example.seqLengths example.out4 example.out4 example.C example.H
            example.C_diff example.H_diff example.out4 example.out16 0 1 3
            1%R 3%R (-2)%R 1%R (-2)%R 0%R 0%R 2%R
            example_fwd_shapes example_bwd_shapes
            _ _ _ _ _ _ _ _ _ _ _ _).
  - lia.
  - lia.
  - reflexivity.
  - lia.
  - reflexivity.
  - reflexivity.
  - reflexivity.
  - reflexivity.
  - reflexivity.
  - reflexivity.
  - reflexivity.
  - reflexivity.
Defined.

Ltac row_cases2 :=
  let k := fresh "k" in let Hk := fresh "Hk" in let Hc := fresh "Hc" in
  intros k Hk;
  assert (Hc : k = 0 \/ k = 1) by lia;
  destruct Hc as [-> | ->]; reflexivity.

Ltac row_cases8 :=
  let k := fresh "k" in let Hk := fresh "Hk" in let Hc := fresh "Hc" in
  intros k Hk;
  assert (Hc : k = 0 \/ k = 1 \/ k = 2 \/ k = 3 \/ k = 4 \/ k = 5 \/ k = 6
               \/ k = 7) by lia;
  repeat (destruct Hc as [-> | Hc]; [reflexivity|]);
  subst k; reflexivity.

Lemma sequences_independent_witness :
  (exists Cf Hf Cf' Hf',
     detail.LSTMUnit 2 2 0 example.C_prev example.X example.seqLengths
       example.out4 example.out4 = Some (Cf, Hf) /\
     detail.LSTMUnit 2 2 0 example2.C_prev example2.X example2.seqLengths
       example2.out4 example2.out4 = Some (Cf', Hf') /\
     same_row 2 1 Cf Cf' /\ same_row 2 1 Hf Hf') /\
  (exists Cpd Xd Cpd' Xd',
     detail.LSTMUnitGradient 2 2 0 example.C_prev example.X
       example.seqLengths example.C example.H example.C_diff example.H_diff
       example.out4 example.out16 = Some (Cpd, Xd) /\
     detail.LSTMUnitGradient 2 2 0 example2.C_prev example2.X
       example2.seqLengths example2.C example2.H example2.C_diff
       example2.H_diff example2.out4 example2.out16 = Some (Cpd', Xd') /\
     same_row 2 1 Cpd Cpd' /\ same_row (4 * 2) 1 Xd Xd') /\
  (exists s s',
     for_int 1 (detail.LSTMUnit_seq 2 0 example.C_prev example.X
                  example.seqLengths)
       (detail.fwd_init example.out4 example.out4) = Some s /\
     detail.LSTMUnit_seq 2 0 example.C_prev example.X example.seqLengths 1 s
       = Some s' /\
     same_outside_row 2 1 (detail.fw_Cbuf s') (detail.fw_Cbuf s) /\
     same_outside_row 2 1 (detail.fw_Hbuf s') (detail.fw_Hbuf s)) /\
  (exists s s',
     for_int 1
       (detail.LSTMUnitGradient_seq 2 0 example.C_prev example.X
          example.seqLengths example.C example.H example.C_diff
          example.H_diff)
       (detail.bwd_init example.out4 example.out16) = Some s /\
     detail.LSTMUnitGradient_seq 2 0 example.C_prev example.X
       example.seqLengths example.C example.H example.C_diff example.H_diff
       1 s = Some s' /\
     same_outside_row 2 1
       (detail.bw_C_prev_diff_buf s') (detail.bw_C_prev_diff_buf s) /\
     same_outside_row (4 * 2) 1
       (detail.bw_X_diff_buf s') (detail.bw_X_diff_buf s)).
Proof.
  refine (sequences_independent 2 2 0 1
            example.C_prev example.X example.seqLengths
            example.C example.H example.C_diff example.H_diff
            example.out4 example.out4 example.out4 example.out16
            example2.C_prev example2.X example2.seqLengths
            example2.C example2.H example2.C_diff example2.H_diff
            example2.out4 example2.out4 example2.out4 example2.out16
            example_fwd_shapes example2_fwd_shapes
            example_bwd_shapes example2_bwd_shapes
            _ _ _ _ _ _ _).
  - lia.
  - row_cases2.
  - row_cases8.
  - reflexivity.
  - row_cases2.
  - row_cases2.
  - row_cases2.
Defined.

(** * Further properties of the kernels *)

(** ** More on buffers and loops *)

Lemma load_out {A : Type} (buf : list A) i :
  ~ 0 <= i < Z.of_nat (length buf) -> load buf i = None.
Proof.
  intros Hi. unfold load. destruct (_ && _) eqn:Hb; [|done].
  apply in_range_inv in Hb. contradiction.
Qed.

Lemma load_None_out {A : Type} (buf : list A) i :
  load buf i = None -> ~ 0 <= i < Z.of_nat (length buf).
Proof.
  intros Hl Hi. pose proof (lookup_lt_is_Some_2 buf (Z.to_nat i)) as Hs.
  unfold load in Hl. rewrite in_range_true in Hl by done.
  destruct Hs as [x Hx]; [lia|]. congruence.
Qed.

Lemma store_None_out {A : Type} (buf : list A) i v :
  ~ 0 <= i < Z.of_nat (length buf) -> store buf i v = None.
Proof.
  intros Hi. unfold store. destruct (_ && _) eqn:Hb; [|done].
  apply in_range_inv in Hb. contradiction.
Qed.

Lemma store_Some {A : Type} (buf : list A) i v buf' :
  store buf i v = Some buf' ->
  0 <= i < Z.of_nat (length buf) /\ buf' = upd buf i v.
Proof.
  unfold store. destruct (_ && _) eqn:Hb; [|discriminate].
  intros [= <-]. split; [by apply in_range_inv | done].
Qed.

(** Two buffers with the same cells are the same buffer. *)
Lemma load_ext {A : Type} (buf1 buf2 : list A) :
  length buf1 = length buf2 ->
  (forall i, 0 <= i < Z.of_nat (length buf1) -> load buf1 i = load buf2 i) ->
  buf1 = buf2.
Proof.
  intros Hlen Hl. apply list_eq. intros k.
  destruct (decide (k < length buf1)%nat) as [Hk|Hk].
  - specialize (Hl (Z.of_nat k) ltac:(lia)). unfold load in Hl.
    rewrite <- Hlen in Hl. rewrite in_range_true in Hl by lia.
    by rewrite Nat2Z.id in Hl.
  - rewrite !lookup_ge_None_2; [done | lia | lia].
Qed.

Lemma load_replicate {A : Type} (x : A) (len : nat) i :
  0 <= i < Z.of_nat len -> load (replicate len x) i = Some x.
Proof.
  intros Hi. unfold load.
  rewrite in_range_true by (rewrite length_replicate; done).
  apply lookup_replicate_2. lia.
Qed.

(** Every index below [N * D] is a cell [(n, d)] of the batch. *)
Lemma cell_index (N D j : Z) :
  0 <= j < N * D -> 0 <= D ->
  exists n d, 0 <= n < N /\ 0 <= d < D /\ j = n * D + d.
Proof.
  intros Hj HD.
  assert (HD' : 0 < D).
  { destruct (decide (D = 0)) as [->|]; [|lia]. rewrite Z.mul_0_r in Hj. lia. }
  exists (j / D), (j mod D).
  pose proof (Z.mod_pos_bound j D HD') as Hm.
  pose proof (Z.div_mod j D ltac:(lia)) as Hdm.
  split; [|split; [done | lia]].
  split; [apply Z.div_pos; lia|].
  apply Z.div_lt_upper_bound; lia.
Qed.

Section LoopFailure.
Context {S : Type}.
Implicit Types (body : Z -> S -> option S) (s : S).

(** A loop that keeps an invariant as long as it runs fails when some
    iteration fails in every state the invariant allows. *)
Lemma for_loop_fails (I : Z -> S -> Prop) body cnt i0 : forall lo s,
  I lo s ->
  (forall i s0 s1, lo <= i < lo + Z.of_nat cnt -> I i s0 ->
     body i s0 = Some s1 -> I (i + 1) s1) ->
  lo <= i0 < lo + Z.of_nat cnt ->
  (forall s0, I i0 s0 -> body i0 s0 = None) ->
  for_loop lo cnt body s = None.
Proof.
  induction cnt as [|k IH]; intros lo s Hs Hstep Hi0 Hfail; [lia|].
  simpl. destruct (body lo s) as [s1|] eqn:Hb; [|done]. simpl.
  destruct (decide (i0 = lo)) as [->|Hne].
  { rewrite Hfail in Hb by done. discriminate. }
  apply IH.
  - by apply (Hstep lo s); [lia | |].
  - intros i s0 s2 Hi. apply Hstep. lia.
  - lia.
  - done.
Qed.

Lemma for_int_fails (I : Z -> S -> Prop) body hi i0 s :
  I 0 s ->
  (forall i s0 s1, 0 <= i < hi -> I i s0 ->
     body i s0 = Some s1 -> I (i + 1) s1) ->
  0 <= i0 < hi ->
  (forall s0, I i0 s0 -> body i0 s0 = None) ->
  for_int hi body s = None.
Proof.
  intros Hs Hstep Hi0 Hfail. unfold for_int.
  apply (for_loop_fails I body _ i0); [done | | lia | done].
  intros i s0 s1 Hi. apply Hstep. lia.
Qed.

End LoopFailure.

(** ** What the kernels write, and what they leave alone *)

Section Frame.
Context {T : Type} `{Scalar T}.

(** X1.  The forward kernel keeps the sizes of its output buffers and
    writes their first [N * D] cells only: every cell at an index outside
    [0 .. N * D - 1] still holds what the caller put there. *)
Theorem LSTMUnit_frame (N D t : Z) (C_prev X : list T) (seqLengths : list Z)
    (C0 H0 : list T) :
  detail.fwd_shapes N D C_prev X seqLengths C0 H0 ->
  exists C H1,
    detail.LSTMUnit N D t C_prev X seqLengths C0 H0 = Some (C, H1) /\
    length C = length C0 /\ length H1 = length H0 /\
    forall j, ~ 0 <= j < N * D -> load C j = load C0 j /\ load H1 j = load H0 j.
Proof.
  intros Hsh.
  destruct (LSTMUnit_spec D t C_prev X seqLengths N C0 H0 Hsh)
    as (C & H1 & Hrun & HlC & HlH & _ & Hout).
  by exists C, H1.
Qed.

(** X2.  The backward kernel keeps the sizes of its output buffers and
    writes the first [N * D] cells of [C_prev_diff] and the first
    [N * 4 * D] cells of [X_diff] only. *)
Theorem LSTMUnitGradient_frame (N D t : Z) (C_prev X : list T)
    (seqLengths : list Z) (C H0 C_diff H_diff Cpd0 Xd0 : list T) :
  detail.bwd_shapes N D C_prev X seqLengths C C_diff H_diff Cpd0 Xd0 ->
  exists C_prev_diff X_diff,
    detail.LSTMUnitGradient N D t C_prev X seqLengths C H0 C_diff H_diff
      Cpd0 Xd0 = Some (C_prev_diff, X_diff) /\
    length C_prev_diff = length Cpd0 /\ length X_diff = length Xd0 /\
    (forall j, ~ 0 <= j < N * D -> load C_prev_diff j = load Cpd0 j) /\
    (forall j, ~ 0 <= j < N * (4 * D) -> load X_diff j = load Xd0 j).
Proof.
  intros Hsh.
  destruct (LSTMUnitGradient_spec D t C_prev X seqLengths C C_diff H_diff
              N H0 Cpd0 Xd0 Hsh)
    as (Cpd & Xd & Hrun & HlC & HlX & _ & HoC & HoX).
  by exists Cpd, Xd.
Qed.

(** The forward result does not depend on the initial outputs. *)
Lemma LSTMUnit_init_irrelevant (N D t : Z) (C_prev X : list T)
    (seqLengths : list Z) (C0 H0 C0' H0' : list T) :
  detail.fwd_shapes N D C_prev X seqLengths C0 H0 ->
  Z.of_nat (length C0) = N * D -> Z.of_nat (length H0) = N * D ->
  Z.of_nat (length C0') = N * D -> Z.of_nat (length H0') = N * D ->
  exists C H1,
    detail.LSTMUnit N D t C_prev X seqLengths C0 H0 = Some (C, H1) /\
    detail.LSTMUnit N D t C_prev X seqLengths C0' H0' = Some (C, H1).
Proof.
  intros Hsh HC0 HH0 HC0' HH0'.
  assert (Hsh' : detail.fwd_shapes N D C_prev X seqLengths C0' H0').
  { destruct Hsh. constructor; lia. }
  destruct (LSTMUnit_spec D t C_prev X seqLengths N C0 H0 Hsh)
    as (C & H1 & Hrun & HlC & HlH & Hc & _).
  destruct (LSTMUnit_spec D t C_prev X seqLengths N C0' H0' Hsh')
    as (C' & H1' & Hrun' & HlC' & HlH' & Hc' & _).
  exists C, H1. split; [done|]. rewrite Hrun'.
  assert (HD : 0 <= D) by (by destruct Hsh).
  assert (C' = C) as ->.
  { apply load_ext; [lia|]. intros j Hj.
    destruct (cell_index N D j) as (n & d & Hn & Hd & ->); [lia | done |].
    destruct (Hc n d Hn Hd) as [-> _]. by destruct (Hc' n d Hn Hd) as [-> _]. }
  assert (H1' = H1) as ->; [|done].
  apply load_ext; [lia|]. intros j Hj.
  destruct (cell_index N D j) as (n & d & Hn & Hd & ->); [lia | done |].
  destruct (Hc n d Hn Hd) as [_ ->]. by destruct (Hc' n d Hn Hd) as [_ ->].
Qed.

(** X3.  The outputs of the forward kernel are write-only: with output
    buffers of exactly [N * D] cells, what the call returns does not
    depend on what those buffers held before. *)
Theorem LSTMUnit_outputs_overwritten (N D t : Z) (C_prev X : list T)
    (seqLengths : list Z) (C0 H0 C0' H0' : list T) :
  detail.fwd_shapes N D C_prev X seqLengths C0 H0 ->
  Z.of_nat (length C0) = N * D -> Z.of_nat (length H0) = N * D ->
  Z.of_nat (length C0') = N * D -> Z.of_nat (length H0') = N * D ->
  exists C H1,
    detail.LSTMUnit N D t C_prev X seqLengths C0 H0 = Some (C, H1) /\
    detail.LSTMUnit N D t C_prev X seqLengths C0' H0' = Some (C, H1).
Proof. apply LSTMUnit_init_irrelevant. Qed.

(** The backward result does not depend on the initial outputs. *)
Lemma LSTMUnitGradient_init_irrelevant (N D t : Z) (C_prev X : list T)
    (seqLengths : list Z) (C H0 C_diff H_diff Cpd0 Xd0 Cpd0' Xd0' : list T) :
  detail.bwd_shapes N D C_prev X seqLengths C C_diff H_diff Cpd0 Xd0 ->
  Z.of_nat (length Cpd0) = N * D -> Z.of_nat (length Xd0) = N * (4 * D) ->
  Z.of_nat (length Cpd0') = N * D -> Z.of_nat (length Xd0') = N * (4 * D) ->
  exists C_prev_diff X_diff,
    detail.LSTMUnitGradient N D t C_prev X seqLengths C H0 C_diff H_diff
      Cpd0 Xd0 = Some (C_prev_diff, X_diff) /\
    detail.LSTMUnitGradient N D t C_prev X seqLengths C H0 C_diff H_diff
      Cpd0' Xd0' = Some (C_prev_diff, X_diff).
Proof.
  intros Hsh HC0 HX0 HC0' HX0'.
  assert (Hsh' : detail.bwd_shapes N D C_prev X seqLengths C C_diff H_diff
                   Cpd0' Xd0').
  { destruct Hsh. constructor; lia. }
  destruct (LSTMUnitGradient_spec D t C_prev X seqLengths C C_diff H_diff
              N H0 Cpd0 Xd0 Hsh)
    as (Cpd & Xd & Hrun & HlC & HlX & Hc & _).
  destruct (LSTMUnitGradient_spec D t C_prev X seqLengths C C_diff H_diff
              N H0 Cpd0' Xd0' Hsh')
    as (Cpd' & Xd' & Hrun' & HlC' & HlX' & Hc' & _).
  exists Cpd, Xd. split; [done|]. rewrite Hrun'.
  assert (HD : 0 <= D) by (by destruct Hsh).
  assert (Cpd' = Cpd) as ->.
  { apply load_ext; [lia|]. intros j Hj.
    destruct (cell_index N D j) as (n & d & Hn & Hd & ->); [lia | done |].
    destruct (Hc n d Hn Hd) as [-> _]. by destruct (Hc' n d Hn Hd) as [-> _]. }
  assert (Xd' = Xd) as ->; [|done].
  apply load_ext; [lia|]. intros j Hj.
  destruct (cell_index N (4 * D) j) as (n & k & Hn & Hk & ->);
    [lia | lia |].
  destruct (decide (k < D)) as [H0k|H0k].
  { destruct (Hc n k Hn ltac:(lia)) as (_ & -> & _).
    by destruct (Hc' n k Hn ltac:(lia)) as (_ & -> & _). }
  destruct (decide (k < 2 * D)) as [H1k|H1k].
  { replace (n * (4 * D) + k) with (n * (4 * D) + 1 * D + (k - D)) by lia.
    destruct (Hc n (k - D) Hn ltac:(lia)) as (_ & _ & -> & _).
    by destruct (Hc' n (k - D) Hn ltac:(lia)) as (_ & _ & -> & _). }
  destruct (decide (k < 3 * D)) as [H2k|H2k].
  { replace (n * (4 * D) + k) with (n * (4 * D) + 2 * D + (k - 2 * D))
      by lia.
    destruct (Hc n (k - 2 * D) Hn ltac:(lia)) as (_ & _ & _ & -> & _).
    by destruct (Hc' n (k - 2 * D) Hn ltac:(lia)) as (_ & _ & _ & -> & _). }
  replace (n * (4 * D) + k) with (n * (4 * D) + 3 * D + (k - 3 * D)) by lia.
  destruct (Hc n (k - 3 * D) Hn ltac:(lia)) as (_ & _ & _ & _ & ->).
  by destruct (Hc' n (k - 3 * D) Hn ltac:(lia)) as (_ & _ & _ & _ & ->).
Qed.

(** X4.  The outputs of the backward kernel are write-only as well. *)
Theorem LSTMUnitGradient_outputs_overwritten (N D t : Z) (C_prev X : list T)
    (seqLengths : list Z) (C H0 C_diff H_diff Cpd0 Xd0 Cpd0' Xd0' : list T) :
  detail.bwd_shapes N D C_prev X seqLengths C C_diff H_diff Cpd0 Xd0 ->
  Z.of_nat (length Cpd0) = N * D -> Z.of_nat (length Xd0) = N * (4 * D) ->
  Z.of_nat (length Cpd0') = N * D -> Z.of_nat (length Xd0') = N * (4 * D) ->
  exists C_prev_diff X_diff,
    detail.LSTMUnitGradient N D t C_prev X seqLengths C H0 C_diff H_diff
      Cpd0 Xd0 = Some (C_prev_diff, X_diff) /\
    detail.LSTMUnitGradient N D t C_prev X seqLengths C H0 C_diff H_diff
      Cpd0' Xd0' = Some (C_prev_diff, X_diff).
Proof. apply LSTMUnitGradient_init_irrelevant. Qed.

End Frame.

(** ** Empty batches and missing lengths *)

Section Edges.
Context {T : Type} `{Scalar T}.

(** X5.  With [N <= 0] neither kernel touches any buffer: both return the
    output buffers as they were, whatever the sizes of the buffers. *)
Theorem empty_batch (N D t : Z) (C_prev X : list T) (seqLengths : list Z)
    (C H1 C_diff H_diff C0 H0 Cpd0 Xd0 : list T) :
  N <= 0 ->
  detail.LSTMUnit N D t C_prev X seqLengths C0 H0 = Some (C0, H0) /\
  detail.LSTMUnitGradient N D t C_prev X seqLengths C H1 C_diff H_diff
    Cpd0 Xd0 = Some (Cpd0, Xd0).
Proof.
  intros HN. unfold detail.LSTMUnit, detail.LSTMUnitGradient, for_int.
  replace (Z.to_nat N) with 0%nat by lia. done.
Qed.

(** The outer loops with an inner loop that does nothing. *)
Lemma LSTMUnit_no_features N D t (C_prev X : list T) (seqLengths : list Z)
    (C0 H0 : list T) :
  D <= 0 -> 0 <= N <= Z.of_nat (length seqLengths) ->
  detail.LSTMUnit N D t C_prev X seqLengths C0 H0 = Some (C0, H0).
Proof.
  intros HD HN. unfold detail.LSTMUnit.
  destruct (for_int_inv
    (fun _ s => detail.fw_Cbuf s = C0 /\ detail.fw_Hbuf s = H0)
    (detail.LSTMUnit_seq D t C_prev X seqLengths) N (detail.fwd_init C0 H0))
    as (s & -> & HC & HH); [lia | done | | by simpl; rewrite HC, HH].
  intros n s Hn [HC HH]. unfold detail.LSTMUnit_seq.
  rewrite (load_in 0 seqLengths n) by lia. simpl.
  unfold for_int. replace (Z.to_nat D) with 0%nat by lia. simpl.
  eexists. split; [done|]. done.
Qed.

Lemma LSTMUnitGradient_no_features N D t (C_prev X : list T)
    (seqLengths : list Z) (C H1 C_diff H_diff Cpd0 Xd0 : list T) :
  D <= 0 -> 0 <= N <= Z.of_nat (length seqLengths) ->
  detail.LSTMUnitGradient N D t C_prev X seqLengths C H1 C_diff H_diff
    Cpd0 Xd0 = Some (Cpd0, Xd0).
Proof.
  intros HD HN. unfold detail.LSTMUnitGradient.
  destruct (for_int_inv
    (fun _ s => detail.bw_C_prev_diff_buf s = Cpd0
                /\ detail.bw_X_diff_buf s = Xd0)
    (detail.LSTMUnitGradient_seq D t C_prev X seqLengths C H1 C_diff H_diff)
    N (detail.bwd_init Cpd0 Xd0))
    as (s & -> & HC & HX); [lia | done | | by simpl; rewrite HC, HX].
  intros n s Hn [HC HX]. unfold detail.LSTMUnitGradient_seq.
  rewrite (load_in 0 seqLengths n) by lia. simpl.
  unfold for_int. replace (Z.to_nat D) with 0%nat by lia. simpl.
  eexists. split; [done|]. done.
Qed.

(** X6.  With [D <= 0] and a length for each of the [N] sequences, both
    kernels return the output buffers as they were; no data buffer is
    accessed, whatever its size. *)
Theorem no_features (N D t : Z) (C_prev X : list T) (seqLengths : list Z)
    (C H1 C_diff H_diff C0 H0 Cpd0 Xd0 : list T) :
  D <= 0 -> 0 <= N <= Z.of_nat (length seqLengths) ->
  detail.LSTMUnit N D t C_prev X seqLengths C0 H0 = Some (C0, H0) /\
  detail.LSTMUnitGradient N D t C_prev X seqLengths C H1 C_diff H_diff
    Cpd0 Xd0 = Some (Cpd0, Xd0).
Proof.
  intros HD HN. split.
  - by apply LSTMUnit_no_features.
  - by apply LSTMUnitGradient_no_features.
Qed.

(** With fewer than [N] lengths both kernels run off [seqLengths]. *)
Lemma kernels_short_lengths (N D t : Z) (C_prev X : list T)
    (seqLengths : list Z) (C H1 C_diff H_diff C0 H0 Cpd0 Xd0 : list T) :
  Z.of_nat (length seqLengths) < N ->
  detail.LSTMUnit N D t C_prev X seqLengths C0 H0 = None /\
  detail.LSTMUnitGradient N D t C_prev X seqLengths C H1 C_diff H_diff
    Cpd0 Xd0 = None.
Proof.
  intros Hlen.
  assert (Hno : load seqLengths (Z.of_nat (length seqLengths)) = None)
    by (apply load_out; lia).
  split.
  - unfold detail.LSTMUnit.
    rewrite (for_int_fails (fun _ _ => True) _ N
               (Z.of_nat (length seqLengths))); [done | done | done | lia |].
    intros s _. unfold detail.LSTMUnit_seq. by rewrite Hno.
  - unfold detail.LSTMUnitGradient.
    rewrite (for_int_fails (fun _ _ => True) _ N
               (Z.of_nat (length seqLengths))); [done | done | done | lia |].
    intros s _. unfold detail.LSTMUnitGradient_seq. by rewrite Hno.
Qed.

(** X7.  Both kernels read [seqLengths[n]] for every [n < N], before any
    feature of sequence [n] and even when [D <= 0]: with fewer than [N]
    lengths the call runs off the end of [seqLengths], whatever the other
    buffers are. *)
Theorem seqLengths_too_short (N D t : Z) (C_prev X : list T)
    (seqLengths : list Z) (C H1 C_diff H_diff C0 H0 Cpd0 Xd0 : list T) :
  Z.of_nat (length seqLengths) < N ->
  detail.LSTMUnit N D t C_prev X seqLengths C0 H0 = None /\
  detail.LSTMUnitGradient N D t C_prev X seqLengths C H1 C_diff H_diff
    Cpd0 Xd0 = None.
Proof. apply kernels_short_lengths. Qed.

End Edges.

(** ** A step past the end of every sequence *)

Section AllFrozen.
Context {T : Type} `{Scalar T}.

Lemma ended_not_valid N t (seqLengths : list Z) n len :
  all_ended N t seqLengths -> 0 <= n < N ->
  load seqLengths n = Some len -> detail.valid t len = false.
Proof. intros Hall Hn Hl. apply Z.ltb_ge. by apply (Hall n). Qed.

(** A frozen step does not read the gate buffer. *)
Lemma LSTMUnit_ended_any_X N D t (C_prev X X' : list T)
    (seqLengths : list Z) (C0 H0 : list T) :
  all_ended N t seqLengths ->
  detail.LSTMUnit N D t C_prev X seqLengths C0 H0
  = detail.LSTMUnit N D t C_prev X' seqLengths C0 H0.
Proof.
  intros Hall. unfold detail.LSTMUnit. f_equal.
  apply (for_int_ext (fun _ _ => True)); [done | | done].
  intros n s Hn _. unfold detail.LSTMUnit_seq.
  destruct (load seqLengths n) as [len|] eqn:Hlen; [|done].
  cbn [mbind option_bind].
  rewrite (ended_not_valid N t seqLengths n len Hall Hn Hlen).
  reflexivity.
Qed.

(** A frozen step of the backward kernel reads [C_diff] only. *)
Lemma LSTMUnitGradient_ended_any N D t (C_prev X C H1 H_diff : list T)
    (C_prev' X' C' H1' H_diff' : list T)
    (seqLengths : list Z) (C_diff Cpd0 Xd0 : list T) :
  all_ended N t seqLengths ->
  detail.LSTMUnitGradient N D t C_prev X seqLengths C H1 C_diff H_diff
    Cpd0 Xd0
  = detail.LSTMUnitGradient N D t C_prev' X' seqLengths C' H1' C_diff H_diff'
      Cpd0 Xd0.
Proof.
  intros Hall. unfold detail.LSTMUnitGradient. f_equal.
  apply (for_int_ext (fun _ _ => True)); [done | | done].
  intros n s Hn _. unfold detail.LSTMUnitGradient_seq.
  destruct (load seqLengths n) as [len|] eqn:Hlen; [|done].
  cbn [mbind option_bind].
  rewrite (ended_not_valid N t seqLengths n len Hall Hn Hlen).
  reflexivity.
Qed.

(** X8.  When every sequence has ended at step [t], the forward kernel
    returns the previous cell state unchanged and a hidden state of
    zeros, without reading the gate buffer [X] (which may even be
    empty). *)
Theorem LSTMUnit_all_ended (N D t : Z) (C_prev X : list T)
    (seqLengths : list Z) (C0 H0 : list T) :
  0 <= N <= Z.of_nat (length seqLengths) -> 0 <= D ->
  all_ended N t seqLengths ->
  Z.of_nat (length C_prev) = N * D ->
  Z.of_nat (length C0) = N * D -> Z.of_nat (length H0) = N * D ->
  detail.LSTMUnit N D t C_prev X seqLengths C0 H0
  = Some (C_prev, replicate (length H0) sc_zero).
Proof.
  intros HN HD Hall HCp HC0 HH0.
  rewrite (LSTMUnit_ended_any_X N D t C_prev X
             (replicate (Z.to_nat (N * (4 * D))) sc_zero) seqLengths C0 H0 Hall).
  set (X' := replicate (Z.to_nat (N * (4 * D))) sc_zero).
  assert (Hsh : detail.fwd_shapes N D C_prev X' seqLengths C0 H0).
  { constructor; try lia. unfold X'. rewrite length_replicate. nia. }
  destruct (LSTMUnit_spec D t C_prev X' seqLengths N C0 H0 Hsh)
    as (C & H1 & -> & HlC & HlH & Hc & _).
  assert (Hfrozen : forall n, 0 <= n < N -> valid_at t seqLengths n = false).
  { intros n Hn. unfold valid_at.
    destruct (load seqLengths n) as [len|] eqn:Hlen; [|done].
    by apply (ended_not_valid N t seqLengths n len). }
  f_equal. f_equal.
  - apply load_ext; [lia|]. intros j Hj.
    destruct (cell_index N D j) as (n & d & Hn & Hd & ->); [lia | done |].
    destruct (Hc n d Hn Hd) as [-> _].
    unfold C_at, fwd_c. rewrite (Hfrozen n Hn). simpl.
    symmetry. apply load_in. lia.
  - apply load_ext; [rewrite length_replicate; lia|]. intros j Hj.
    destruct (cell_index N D j) as (n & d & Hn & Hd & ->); [lia | done |].
    destruct (Hc n d Hn Hd) as [_ ->].
    unfold H_at, fwd_h. rewrite (Hfrozen n Hn). simpl.
    symmetry. apply load_replicate. lia.
Qed.

(** X9.  When every sequence has ended at step [t], the backward kernel
    passes the cell gradient through unchanged and returns zero gate
    gradients, reading none of [C_prev], [X], [C], [H], [H_diff]. *)
Theorem LSTMUnitGradient_all_ended (N D t : Z) (C_prev X : list T)
    (seqLengths : list Z) (C H1 C_diff H_diff Cpd0 Xd0 : list T) :
  0 <= N <= Z.of_nat (length seqLengths) -> 0 <= D ->
  all_ended N t seqLengths ->
  Z.of_nat (length C_diff) = N * D ->
  Z.of_nat (length Cpd0) = N * D -> Z.of_nat (length Xd0) = N * (4 * D) ->
  detail.LSTMUnitGradient N D t C_prev X seqLengths C H1 C_diff H_diff
    Cpd0 Xd0
  = Some (C_diff, replicate (length Xd0) sc_zero).
Proof.
  intros HN HD Hall HCd HC0 HX0.
  set (Z4 := replicate (Z.to_nat (N * (4 * D))) (sc_zero : T)).
  set (Z1 := replicate (Z.to_nat (N * D)) (sc_zero : T)).
  rewrite (LSTMUnitGradient_ended_any N D t C_prev X C H1 H_diff
             Z1 Z4 Z1 H1 Z1 seqLengths C_diff Cpd0 Xd0 Hall).
  assert (Hsh : detail.bwd_shapes N D Z1 Z4 seqLengths Z1 C_diff Z1 Cpd0 Xd0).
  { constructor; try lia; unfold Z1, Z4; rewrite length_replicate; nia. }
  destruct (LSTMUnitGradient_spec D t Z1 Z4 seqLengths Z1 C_diff Z1
              N H1 Cpd0 Xd0 Hsh)
    as (Cpd & Xd & -> & HlC & HlX & Hc & _).
  assert (Hfrozen : forall n, 0 <= n < N -> valid_at t seqLengths n = false).
  { intros n Hn. unfold valid_at.
    destruct (load seqLengths n) as [len|] eqn:Hlen; [|done].
    by apply (ended_not_valid N t seqLengths n len). }
  f_equal. f_equal.
  - apply load_ext; [lia|]. intros j Hj.
    destruct (cell_index N D j) as (n & d & Hn & Hd & ->); [lia | done |].
    destruct (Hc n d Hn Hd) as (-> & _).
    unfold C_prev_diff_at, bwd_c_prev. rewrite (Hfrozen n Hn). simpl.
    symmetry. apply load_in. lia.
  - apply load_ext; [rewrite length_replicate; lia|]. intros j Hj.
    rewrite load_replicate by lia.
    destruct (cell_index N (4 * D) j) as (n & k & Hn & Hk & ->);
      [lia | lia |].
    destruct (decide (k < D)) as [H0k|H0k].
    { destruct (Hc n k Hn ltac:(lia)) as (_ & -> & _).
      unfold i_diff_at, bwd_i. by rewrite (Hfrozen n Hn). }
    destruct (decide (k < 2 * D)) as [H1k|H1k].
    { replace (n * (4 * D) + k) with (n * (4 * D) + 1 * D + (k - D)) by lia.
      destruct (Hc n (k - D) Hn ltac:(lia)) as (_ & _ & -> & _).
      unfold f_diff_at, bwd_f. by rewrite (Hfrozen n Hn). }
    destruct (decide (k < 3 * D)) as [H2k|H2k].
    { replace (n * (4 * D) + k) with (n * (4 * D) + 2 * D + (k - 2 * D))
        by lia.
      destruct (Hc n (k - 2 * D) Hn ltac:(lia)) as (_ & _ & _ & -> & _).
      unfold o_diff_at, bwd_o. by rewrite (Hfrozen n Hn). }
    replace (n * (4 * D) + k) with (n * (4 * D) + 3 * D + (k - 3 * D)) by lia.
    destruct (Hc n (k - 3 * D) Hn ltac:(lia)) as (_ & _ & _ & _ & ->).
    unfold g_diff_at, bwd_g. by rewrite (Hfrozen n Hn).
Qed.

End AllFrozen.

(** ** Independence of the features *)

Section FeatureIndependence.
Context {T : Type} `{Scalar T}.

(** X10.  Cell [(n, d)] of the forward outputs depends on [t],
    [seqLengths[n]], [C_prev[n][d]] and the four gate values of feature
    [d] only: two calls that agree on these agree on [C[n][d]] and
    [H[n][d]], however the rest of the inputs differs. *)
Theorem LSTMUnit_cell_inputs (N D t n d : Z)
    (C_prev X : list T) (seqLengths : list Z) (C0 H0 : list T)
    (C_prev' X' : list T) (seqLengths' : list Z) (C0' H0' : list T) :
  detail.fwd_shapes N D C_prev X seqLengths C0 H0 ->
  detail.fwd_shapes N D C_prev' X' seqLengths' C0' H0' ->
  0 <= n < N -> 0 <= d < D ->
  load seqLengths n = load seqLengths' n ->
  cell C_prev D n d = cell C_prev' D n d ->
  cell X (4 * D) n d = cell X' (4 * D) n d ->
  cell X (4 * D) n (D + d) = cell X' (4 * D) n (D + d) ->
  cell X (4 * D) n (2 * D + d) = cell X' (4 * D) n (2 * D + d) ->
  cell X (4 * D) n (3 * D + d) = cell X' (4 * D) n (3 * D + d) ->
  exists C H1 C' H1',
    detail.LSTMUnit N D t C_prev X seqLengths C0 H0 = Some (C, H1) /\
    detail.LSTMUnit N D t C_prev' X' seqLengths' C0' H0' = Some (C', H1') /\
    cell C D n d = cell C' D n d /\ cell H1 D n d = cell H1' D n d.
Proof.
  intros Hsh Hsh' Hn Hd Hs Hcp Hi Hf Ho Hg.
  destruct (LSTMUnit_spec D t C_prev X seqLengths N C0 H0 Hsh)
    as (C & H1 & Hrun & _ & _ & Hc & _).
  destruct (LSTMUnit_spec D t C_prev' X' seqLengths' N C0' H0' Hsh')
    as (C' & H1' & Hrun' & _ & _ & Hc' & _).
  exists C, H1, C', H1'. split; [done|]. split; [done|].
  destruct (Hc n d Hn Hd) as [EC EH]. destruct (Hc' n d Hn Hd) as [EC' EH'].
  unfold cell in *. rewrite EC, EH, EC', EH'.
  unfold C_at, H_at, fwd_c, fwd_h, valid_at. rewrite Hs.
  rewrite (get_same _ X X' (n * (4 * D) + d) _ Hi eq_refl).
  rewrite (get_same _ X X' _ (n * (4 * D) + (1 * D + d)) Hf ltac:(lia)).
  rewrite (get_same _ X X' _ (n * (4 * D) + (2 * D + d)) Ho ltac:(lia)).
  rewrite (get_same _ X X' _ (n * (4 * D) + (3 * D + d)) Hg ltac:(lia)).
  rewrite (get_same _ C_prev C_prev' (n * D + d) _ Hcp eq_refl).
  done.
Qed.

(** X11.  Cell [(n, d)] of [C_prev_diff] and the four gate-gradient cells
    of feature [d] in row [n] of [X_diff] depend on [t], [seqLengths[n]]
    and on cell [(n, d)] of [C_prev], [C], [C_diff], [H_diff] and the
    four gate values of feature [d] only. *)
Theorem LSTMUnitGradient_cell_inputs (N D t n d : Z)
    (C_prev X : list T) (seqLengths : list Z)
    (C H1 C_diff H_diff Cpd0 Xd0 : list T)
    (C_prev' X' : list T) (seqLengths' : list Z)
    (C' H1' C_diff' H_diff' Cpd0' Xd0' : list T) :
  detail.bwd_shapes N D C_prev X seqLengths C C_diff H_diff Cpd0 Xd0 ->
  detail.bwd_shapes N D C_prev' X' seqLengths' C' C_diff' H_diff'
    Cpd0' Xd0' ->
  0 <= n < N -> 0 <= d < D ->
  load seqLengths n = load seqLengths' n ->
  cell C_prev D n d = cell C_prev' D n d ->
  cell C D n d = cell C' D n d ->
  cell C_diff D n d = cell C_diff' D n d ->
  cell H_diff D n d = cell H_diff' D n d ->
  cell X (4 * D) n d = cell X' (4 * D) n d ->
  cell X (4 * D) n (D + d) = cell X' (4 * D) n (D + d) ->
  cell X (4 * D) n (2 * D + d) = cell X' (4 * D) n (2 * D + d) ->
  cell X (4 * D) n (3 * D + d) = cell X' (4 * D) n (3 * D + d) ->
  exists Cpd Xd Cpd' Xd',
    detail.LSTMUnitGradient N D t C_prev X seqLengths C H1 C_diff H_diff
      Cpd0 Xd0 = Some (Cpd, Xd) /\
    detail.LSTMUnitGradient N D t C_prev' X' seqLengths' C' H1' C_diff'
      H_diff' Cpd0' Xd0' = Some (Cpd', Xd') /\
    cell Cpd D n d = cell Cpd' D n d /\
    cell Xd (4 * D) n d = cell Xd' (4 * D) n d /\
    cell Xd (4 * D) n (D + d) = cell Xd' (4 * D) n (D + d) /\
    cell Xd (4 * D) n (2 * D + d) = cell Xd' (4 * D) n (2 * D + d) /\
    cell Xd (4 * D) n (3 * D + d) = cell Xd' (4 * D) n (3 * D + d).
Proof.
  intros Hsh Hsh' Hn Hd Hs Hcp Hc Hcd Hhd Hi Hf Ho Hg.
  destruct (LSTMUnitGradient_spec D t C_prev X seqLengths C C_diff H_diff
              N H1 Cpd0 Xd0 Hsh)
    as (Cpd & Xd & Hrun & _ & _ & Hv & _).
  destruct (LSTMUnitGradient_spec D t C_prev' X' seqLengths' C' C_diff'
              H_diff' N H1' Cpd0' Xd0' Hsh')
    as (Cpd' & Xd' & Hrun' & _ & _ & Hv' & _).
  exists Cpd, Xd, Cpd', Xd'. split; [done|]. split; [done|].
  destruct (Hv n d Hn Hd) as (E0 & E1 & E2 & E3 & E4).
  destruct (Hv' n d Hn Hd) as (E0' & E1' & E2' & E3' & E4').
  unfold cell in *.
  replace (n * (4 * D) + (D + d)) with (n * (4 * D) + 1 * D + d) in * by lia.
  replace (n * (4 * D) + (2 * D + d)) with (n * (4 * D) + 2 * D + d) in *
    by lia.
  replace (n * (4 * D) + (3 * D + d)) with (n * (4 * D) + 3 * D + d) in *
    by lia.
  rewrite E0, E1, E2, E3, E4, E0', E1', E2', E3', E4'.
  unfold C_prev_diff_at, i_diff_at, f_diff_at, o_diff_at, g_diff_at.
  unfold bwd_c_prev, bwd_i, bwd_f, bwd_o, bwd_g, valid_at. rewrite Hs.
  rewrite !(get_same _ X X' (n * (4 * D) + d) _ Hi eq_refl).
  rewrite !(get_same _ X X' _ (n * (4 * D) + (1 * D + d)) Hf ltac:(lia)).
  rewrite !(get_same _ X X' _ (n * (4 * D) + (2 * D + d)) Ho ltac:(lia)).
  rewrite !(get_same _ X X' _ (n * (4 * D) + (3 * D + d)) Hg ltac:(lia)).
  rewrite !(get_same _ C_prev C_prev' (n * D + d) _ Hcp eq_refl).
  rewrite !(get_same _ C C' (n * D + d) _ Hc eq_refl).
  rewrite !(get_same _ C_diff C_diff' (n * D + d) _ Hcd eq_refl).
  rewrite !(get_same _ H_diff H_diff' (n * D + d) _ Hhd eq_refl).
  done.
Qed.

End FeatureIndependence.

(** ** Bounds over the reals *)

Lemma R_sigmoid_unfold (x : R) : detail.sigmoid x = (1 / (1 + exp (- x)))%R.
Proof. reflexivity. Qed.

Lemma R_tanh_unfold (x : R) :
  detail.tanh x = (2 * detail.sigmoid (2 * x) - 1)%R.
Proof. reflexivity. Qed.







(** ** The backward step as a derivative, over the reals *)

Section Calculus.
Local Open Scope R_scope.

Lemma dlim_ext (f g : R -> R) (x l : R) :
  (forall y, f y = g y) -> derivable_pt_lim f x l -> derivable_pt_lim g x l.
Proof.
  intros Hfg Hf eps Heps. destruct (Hf eps Heps) as [delta Hd].
  exists delta. intros h Hh Hlt. rewrite <- !Hfg. by apply Hd.
Qed.

Lemma dlim_val (f : R -> R) (x l l' : R) :
  derivable_pt_lim f x l -> l = l' -> derivable_pt_lim f x l'.
Proof. by intros Hf <-. Qed.

Lemma sigmoid_deriv (x : R) :
  derivable_pt_lim detail.sigmoid x
    (detail.sigmoid x * (1 - detail.sigmoid x))%R.
Proof.
  pose proof (exp_pos (- x)) as He.
  apply (dlim_ext (fct_cte 1 / (fct_cte 1 + comp exp (- id)))%F);
    [reflexivity|].
  eapply dlim_val.
  - apply derivable_pt_lim_div.
    + apply derivable_pt_lim_const.
    + apply derivable_pt_lim_plus.
      * apply derivable_pt_lim_const.
      * apply derivable_pt_lim_comp.
        -- apply derivable_pt_lim_opp. apply derivable_pt_lim_id.
        -- apply derivable_pt_lim_exp.
    + unfold plus_fct, fct_cte, comp, opp_fct, id. lra.
  - rewrite R_sigmoid_unfold.
    unfold plus_fct, fct_cte, comp, opp_fct, id, Rsqr. field. lra.
Qed.

Lemma tanh_deriv (x : R) :
  derivable_pt_lim detail.tanh x (1 - detail.tanh x * detail.tanh x)%R.
Proof.
  apply (dlim_ext
    (mult_real_fct 2 (comp detail.sigmoid (mult_real_fct 2 id))
     - fct_cte 1)%F); [reflexivity|].
  eapply dlim_val.
  - apply derivable_pt_lim_minus.
    + apply derivable_pt_lim_scal.
      apply derivable_pt_lim_comp.
      * apply derivable_pt_lim_scal. apply derivable_pt_lim_id.
      * apply sigmoid_deriv.
    + apply derivable_pt_lim_const.
  - rewrite R_tanh_unfold. unfold mult_real_fct, id. ring.
Qed.

Lemma dl_const (c x : R) : derivable_pt_lim (fun _ => c) x 0.
Proof. apply (derivable_pt_lim_const c). Qed.

Lemma dl_id (x : R) : derivable_pt_lim (fun y => y) x 1.
Proof. apply derivable_pt_lim_id. Qed.

Lemma dl_plus (f g : R -> R) (x l1 l2 : R) :
  derivable_pt_lim f x l1 -> derivable_pt_lim g x l2 ->
  derivable_pt_lim (fun y => f y + g y)%R x (l1 + l2)%R.
Proof. apply derivable_pt_lim_plus. Qed.

Lemma dl_cmul (c : R) (f : R -> R) (x l : R) :
  derivable_pt_lim f x l -> derivable_pt_lim (fun y => c * f y)%R x (c * l)%R.
Proof. apply derivable_pt_lim_scal. Qed.

Lemma dl_mulc (c : R) (f : R -> R) (x l : R) :
  derivable_pt_lim f x l -> derivable_pt_lim (fun y => f y * c)%R x (l * c)%R.
Proof.
  intros Hf. apply (dlim_ext (fun y => c * f y)%R); [intros; ring|].
  eapply dlim_val; [by apply dl_cmul | ring].
Qed.

Lemma dl_comp (f g : R -> R) (x l l' : R) :
  derivable_pt_lim f x l -> derivable_pt_lim g (f x) l' ->
  derivable_pt_lim (fun y => g (f y)) x (l' * l)%R.
Proof. apply derivable_pt_lim_comp. Qed.

(** The weighted outputs of one cell, [c_diff * c + h_diff * h], as the
    new cell value [c] varies with an input. *)
Lemma objective_deriv (cf : R -> R) (v dc c_diff h_diff o : R) :
  derivable_pt_lim cf v dc ->
  derivable_pt_lim
    (fun y => c_diff * cf y + h_diff * (o * detail.tanh (cf y)))%R v
    ((c_diff + h_diff * o
               * (1 - detail.tanh (cf v) * detail.tanh (cf v))) * dc)%R.
Proof.
  intros Hc. eapply dlim_val.
  - apply dl_plus.
    + apply dl_cmul. exact Hc.
    + apply dl_cmul. apply dl_cmul.
      apply (dl_comp cf detail.tanh); [exact Hc | apply tanh_deriv].
  - ring.
Qed.

End Calculus.

Section CellGradient.
Local Open Scope R_scope.
Variables (vld : bool) (c_diff h_diff x_i x_f x_o x_g c_prev : R).
Let c := cell_c vld x_i x_f x_g c_prev.

Lemma grad_c_prev_is_derivative :
  derivable_pt_lim
    (fun v => cell_objective vld c_diff h_diff x_i x_f x_o x_g v) c_prev
    (grad_c_prev vld x_f x_o c c_diff h_diff).
Proof.
  subst c. destruct vld.
  - eapply dlim_val.
    + apply (objective_deriv
        (fun v => detail.sigmoid x_f * v
                  + detail.sigmoid x_i * detail.tanh x_g)%R).
      apply dl_plus; [apply dl_cmul, dl_id | apply dl_const].
    + unfold grad_c_prev, c_term, cell_c. simpl. ring.
  - apply (dlim_ext (fun v => c_diff * v + h_diff * 0)%R); [reflexivity|].
    eapply dlim_val.
    + apply dl_plus; [apply dl_cmul, dl_id | apply dl_const].
    + unfold grad_c_prev. ring.
Qed.

Lemma grad_i_is_derivative :
  derivable_pt_lim
    (fun v => cell_objective vld c_diff h_diff v x_f x_o x_g c_prev) x_i
    (grad_i vld x_i x_o x_g c c_diff h_diff).
Proof.
  subst c. destruct vld.
  - eapply dlim_val.
    + apply (objective_deriv
        (fun v => detail.sigmoid x_f * c_prev
                  + detail.sigmoid v * detail.tanh x_g)%R).
      apply dl_plus; [apply dl_const | apply dl_mulc, sigmoid_deriv].
    + unfold grad_i, c_term, cell_c. simpl. ring.
  - apply (dlim_ext (fun _ =>
      cell_objective false c_diff h_diff x_i x_f x_o x_g c_prev));
      [reflexivity|].
    eapply dlim_val; [apply dl_const | reflexivity].
Qed.

Lemma grad_f_is_derivative :
  derivable_pt_lim
    (fun v => cell_objective vld c_diff h_diff x_i v x_o x_g c_prev) x_f
    (grad_f vld x_f x_o c_prev c c_diff h_diff).
Proof.
  subst c. destruct vld.
  - eapply dlim_val.
    + apply (objective_deriv
        (fun v => detail.sigmoid v * c_prev
                  + detail.sigmoid x_i * detail.tanh x_g)%R).
      apply dl_plus; [apply dl_mulc, sigmoid_deriv | apply dl_const].
    + unfold grad_f, c_term, cell_c. simpl. ring.
  - apply (dlim_ext (fun _ =>
      cell_objective false c_diff h_diff x_i x_f x_o x_g c_prev));
      [reflexivity|].
    eapply dlim_val; [apply dl_const | reflexivity].
Qed.

Lemma grad_g_is_derivative :
  derivable_pt_lim
    (fun v => cell_objective vld c_diff h_diff x_i x_f x_o v c_prev) x_g
    (grad_g vld x_i x_o x_g c c_diff h_diff).
Proof.
  subst c. destruct vld.
  - eapply dlim_val.
    + apply (objective_deriv
        (fun v => detail.sigmoid x_f * c_prev
                  + detail.sigmoid x_i * detail.tanh v)%R).
      apply dl_plus; [apply dl_const | apply dl_cmul, tanh_deriv].
    + unfold grad_g, c_term, cell_c. simpl. ring.
  - apply (dlim_ext (fun _ =>
      cell_objective false c_diff h_diff x_i x_f x_o x_g c_prev));
      [reflexivity|].
    eapply dlim_val; [apply dl_const | reflexivity].
Qed.

Lemma grad_o_is_derivative :
  derivable_pt_lim
    (fun v => cell_objective vld c_diff h_diff x_i x_f v x_g c_prev) x_o
    (grad_o vld x_o c h_diff).
Proof.
  subst c. destruct vld.
  - apply (dlim_ext
      (fun v => c_diff * cell_c true x_i x_f x_g c_prev
                + h_diff * (detail.sigmoid v
                            * detail.tanh (cell_c true x_i x_f x_g c_prev)))%R);
      [reflexivity|].
    eapply dlim_val.
    + apply dl_plus; [apply dl_const|].
      apply dl_cmul. apply dl_mulc. apply sigmoid_deriv.
    + unfold grad_o. simpl. ring.
  - apply (dlim_ext (fun _ =>
      cell_objective false c_diff h_diff x_i x_f x_o x_g c_prev));
      [reflexivity|].
    eapply dlim_val; [apply dl_const | reflexivity].
Qed.

End CellGradient.

(** *** One input cell at a time *)

Lemma get_upd_eq {A : Type} (dflt : A) (buf : list A) k v :
  0 <= k < Z.of_nat (length buf) -> get dflt (upd buf k v) k = v.
Proof. intros Hk. unfold get. by rewrite load_upd_eq. Qed.

Lemma get_upd_ne {A : Type} (dflt : A) (buf : list A) k j v :
  0 <= k -> k <> j -> get dflt (upd buf k v) j = get dflt buf j.
Proof. intros Hk Hne. unfold get. by rewrite load_upd_ne. Qed.

Lemma slot_unique (D a b d d' : Z) :
  0 <= d < D -> 0 <= d' < D -> a * D + d = b * D + d' -> a = b /\ d = d'.
Proof. intros Hd Hd' Heq. assert (a = b) by nia. subst. lia. Qed.

Lemma dot_insert (a b : list R) : forall (i : nat) (y ai bi : R),
  a !! i = Some ai -> b !! i = Some bi ->
  dot a (<[i := y]> b) = (dot a b + ai * (y - bi))%R.
Proof.
  revert b. induction a as [|x a IH]; intros [|z b] i y ai bi Ha Hb;
    try done.
  destruct i as [|i]; simpl in *.
  - injection Ha as ->. injection Hb as ->. unfold dot. simpl. lra.
  - unfold dot in *. simpl. rewrite (IH b i y ai bi Ha Hb). lra.
Qed.

Lemma dot_upd (a b : list R) (k : Z) (y : R) :
  0 <= k < Z.of_nat (length a) -> 0 <= k < Z.of_nat (length b) ->
  dot a (upd b k y) = (dot a b + get 0%R a k * (y - get 0%R b k))%R.
Proof.
  intros Ha Hb. unfold upd.
  pose proof (load_in 0%R a k Ha) as Ea.
  pose proof (load_in 0%R b k Hb) as Eb.
  unfold load in Ea, Eb. rewrite in_range_true in Ea, Eb by done.
  by apply dot_insert.
Qed.

Section OneCell.
Context {T : Type} `{Scalar T}.

(** If two sets of inputs give every cell but [(n, d)] the same closed
    forms, the second run returns the buffers of the first with cell
    [(n, d)] replaced. *)
Lemma LSTMUnit_as_upd N D t (C_prev X C_prev' X' : list T)
    (seqLengths : list Z) (C0 H0 Cf Hf : list T) n d :
  detail.fwd_shapes N D C_prev X seqLengths C0 H0 ->
  detail.fwd_shapes N D C_prev' X' seqLengths C0 H0 ->
  detail.LSTMUnit N D t C_prev X seqLengths C0 H0 = Some (Cf, Hf) ->
  0 <= n < N -> 0 <= d < D ->
  (forall n' d', 0 <= n' < N -> 0 <= d' < D -> n' * D + d' <> n * D + d ->
     C_at D t C_prev' X' seqLengths n' d' = C_at D t C_prev X seqLengths n' d'
     /\ H_at D t C_prev' X' seqLengths n' d'
        = H_at D t C_prev X seqLengths n' d') ->
  detail.LSTMUnit N D t C_prev' X' seqLengths C0 H0
  = Some (upd Cf (n * D + d) (C_at D t C_prev' X' seqLengths n d),
          upd Hf (n * D + d) (H_at D t C_prev' X' seqLengths n d)).
Proof.
  intros Hsh Hsh' Hrun Hn Hd Hsame.
  destruct (LSTMUnit_spec D t C_prev X seqLengths N C0 H0 Hsh)
    as (C & H1 & Hrun1 & HlC & HlH & Hc & Hout).
  rewrite Hrun in Hrun1. injection Hrun1 as <- <-.
  destruct (LSTMUnit_spec D t C_prev' X' seqLengths N C0 H0 Hsh')
    as (C' & H1' & -> & HlC' & HlH' & Hc' & Hout').
  destruct Hsh as [HN HD _ _ _ HC0 HH0].
  assert (Hk : 0 <= n * D + d < N * D) by nia.
  f_equal. f_equal.
  - apply load_ext; [rewrite upd_length; lia|]. intros j Hj.
    destruct (decide (j = n * D + d)) as [->|Hne].
    { rewrite load_upd_eq by lia. by destruct (Hc' n d Hn Hd) as [-> _]. }
    rewrite load_upd_ne by lia.
    destruct (decide (j < N * D)) as [Hin|Hin].
    + destruct (cell_index N D j) as (n' & d' & Hn' & Hd' & ->);
        [lia | done |].
      destruct (Hc' n' d' Hn' Hd') as [-> _].
      destruct (Hc n' d' Hn' Hd') as [-> _].
      by destruct (Hsame n' d' Hn' Hd' Hne) as [-> _].
    + destruct (Hout j ltac:(lia)) as [-> _].
      by destruct (Hout' j ltac:(lia)) as [-> _].
  - apply load_ext; [rewrite upd_length; lia|]. intros j Hj.
    destruct (decide (j = n * D + d)) as [->|Hne].
    { rewrite load_upd_eq by lia. by destruct (Hc' n d Hn Hd) as [_ ->]. }
    rewrite load_upd_ne by lia.
    destruct (decide (j < N * D)) as [Hin|Hin].
    + destruct (cell_index N D j) as (n' & d' & Hn' & Hd' & ->);
        [lia | done |].
      destruct (Hc' n' d' Hn' Hd') as [_ ->].
      destruct (Hc n' d' Hn' Hd') as [_ ->].
      by destruct (Hsame n' d' Hn' Hd' Hne) as [_ ->].
    + destruct (Hout j ltac:(lia)) as [_ ->].
      by destruct (Hout' j ltac:(lia)) as [_ ->].
Qed.

End OneCell.

(** *** The loss as one input cell varies *)

Section Gradient.
Local Open Scope R_scope.
Variables (N D t : Z) (C_prev X : list R) (seqLengths : list Z).
Variables (C0 H0 C_diff H_diff Cf Hf : list R).
Hypothesis Hshapes : detail.fwd_shapes N D C_prev X seqLengths C0 H0.
Hypothesis Hforward :
  detail.LSTMUnit N D t C_prev X seqLengths C0 H0 = Some (Cf, Hf).
Hypothesis HC_diff : (N * D <= Z.of_nat (length C_diff))%Z.
Hypothesis HH_diff : (N * D <= Z.of_nat (length H_diff))%Z.

Lemma forward_lengths : length Cf = length C0 /\ length Hf = length H0.
Proof.
  destruct (LSTMUnit_spec D t C_prev X seqLengths N C0 H0 Hshapes)
    as (C & H1 & Hrun & HlC & HlH & _).
  rewrite Hforward in Hrun. by injection Hrun as <- <-.
Qed.

Lemma forward_cell n d :
  (0 <= n < N)%Z -> (0 <= d < D)%Z ->
  get 0 Cf (n * D + d) = C_at D t C_prev X seqLengths n d.
Proof.
  intros Hn Hd.
  destruct (LSTMUnit_spec D t C_prev X seqLengths N C0 H0 Hshapes)
    as (C & H1 & Hrun & _ & _ & Hc & _).
  rewrite Hforward in Hrun. injection Hrun as <- <-.
  destruct (Hc n d Hn Hd) as [EC _]. by apply get_load.
Qed.

(** With inputs that change cell [(n, d)] of the outputs only, the loss is
    a constant plus the weighted outputs of that cell. *)
Lemma loss_one_cell (C_prev' X' : list R) n d :
  detail.fwd_shapes N D C_prev' X' seqLengths C0 H0 ->
  (0 <= n < N)%Z -> (0 <= d < D)%Z ->
  (forall n' d', (0 <= n' < N)%Z -> (0 <= d' < D)%Z ->
     (n' * D + d' <> n * D + d)%Z ->
     C_at D t C_prev' X' seqLengths n' d' = C_at D t C_prev X seqLengths n' d'
     /\ H_at D t C_prev' X' seqLengths n' d'
        = H_at D t C_prev X seqLengths n' d') ->
  LSTMUnit_loss N D t C_prev' X' seqLengths C0 H0 C_diff H_diff
  = (dot C_diff Cf + dot H_diff Hf
     - get 0 C_diff (n * D + d) * get 0 Cf (n * D + d)
     - get 0 H_diff (n * D + d) * get 0 Hf (n * D + d))
    + (get 0 C_diff (n * D + d) * C_at D t C_prev' X' seqLengths n d
       + get 0 H_diff (n * D + d) * H_at D t C_prev' X' seqLengths n d).
Proof.
  intros Hsh' Hn Hd Hsame. unfold LSTMUnit_loss.
  rewrite (LSTMUnit_as_upd N D t C_prev X C_prev' X' seqLengths C0 H0 Cf Hf
             n d Hshapes Hsh' Hforward Hn Hd Hsame).
  destruct forward_lengths as [HlC HlH].
  destruct Hshapes as [HN HD _ _ _ HC0 HH0].
  assert (Hk : (0 <= n * D + d < N * D)%Z) by nia.
  rewrite !dot_upd by lia. lra.
Qed.

End Gradient.

Lemma gate_index_ne (D n n' g g' d d' : Z) :
  0 <= d < D -> 0 <= d' < D -> 0 <= g < 4 -> 0 <= g' < 4 ->
  n' * D + d' <> n * D + d ->
  n * (4 * D) + g * D + d <> n' * (4 * D) + g' * D + d'.
Proof.
  intros Hd Hd' Hg Hg' Hne Heq.
  destruct (slot_unique D (4 * n + g) (4 * n' + g') d d') as [Ha Hb];
    [done | done | lia |].
  assert (n = n') by lia. subst. lia.
Qed.

Section Perturb.
Context {T : Type} `{Scalar T}.
Variables (D t : Z) (C_prev X : list T) (seqLengths : list Z).

(** Changing [C_prev[n][d]] changes the closed forms of cell [(n, d)] only. *)
Lemma closed_forms_upd_C_prev_other n d n' d' v :
  0 <= n * D + d -> n' * D + d' <> n * D + d ->
  C_at D t (upd C_prev (n * D + d) v) X seqLengths n' d'
    = C_at D t C_prev X seqLengths n' d' /\
  H_at D t (upd C_prev (n * D + d) v) X seqLengths n' d'
    = H_at D t C_prev X seqLengths n' d'.
Proof.
  intros Hk Hne. unfold C_at, H_at, fwd_c, fwd_h.
  by rewrite !(get_upd_ne sc_zero C_prev (n * D + d) (n' * D + d') v)
    by lia.
Qed.

Lemma closed_forms_upd_C_prev_same n d v :
  0 <= n * D + d < Z.of_nat (length C_prev) ->
  C_at D t (upd C_prev (n * D + d) v) X seqLengths n d
    = cell_c (valid_at t seqLengths n)
        (get sc_zero X (n * (4 * D) + d))
        (get sc_zero X (n * (4 * D) + (1 * D + d)))
        (get sc_zero X (n * (4 * D) + (3 * D + d))) v /\
  H_at D t (upd C_prev (n * D + d) v) X seqLengths n d
    = cell_h (valid_at t seqLengths n)
        (get sc_zero X (n * (4 * D) + d))
        (get sc_zero X (n * (4 * D) + (1 * D + d)))
        (get sc_zero X (n * (4 * D) + (2 * D + d)))
        (get sc_zero X (n * (4 * D) + (3 * D + d))) v.
Proof.
  intros Hk. unfold C_at, H_at, fwd_c, fwd_h.
  by rewrite !get_upd_eq by lia.
Qed.

(** Changing one gate value of feature [d] in row [n] of [X] changes the
    closed forms of cell [(n, d)] only. *)
Lemma closed_forms_upd_X_other n g d n' d' v :
  0 <= n -> 0 <= d < D -> 0 <= d' < D -> 0 <= g < 4 ->
  n' * D + d' <> n * D + d ->
  C_at D t C_prev (upd X (n * (4 * D) + g * D + d) v) seqLengths n' d'
    = C_at D t C_prev X seqLengths n' d' /\
  H_at D t C_prev (upd X (n * (4 * D) + g * D + d) v) seqLengths n' d'
    = H_at D t C_prev X seqLengths n' d'.
Proof.
  intros Hn Hd Hd' Hg Hne. unfold C_at, H_at, fwd_c, fwd_h.
  pose proof (gate_index_ne D n n' g 0 d d' Hd Hd' Hg ltac:(lia) Hne).
  pose proof (gate_index_ne D n n' g 1 d d' Hd Hd' Hg ltac:(lia) Hne).
  pose proof (gate_index_ne D n n' g 2 d d' Hd Hd' Hg ltac:(lia) Hne).
  pose proof (gate_index_ne D n n' g 3 d d' Hd Hd' Hg ltac:(lia) Hne).
  assert (0 <= n * (4 * D) + g * D + d) by nia.
  rewrite !(get_upd_ne sc_zero X _ (n' * (4 * D) + d') v) by lia.
  rewrite !(get_upd_ne sc_zero X _ (n' * (4 * D) + (1 * D + d')) v) by lia.
  rewrite !(get_upd_ne sc_zero X _ (n' * (4 * D) + (2 * D + d')) v) by lia.
  rewrite !(get_upd_ne sc_zero X _ (n' * (4 * D) + (3 * D + d')) v) by lia.
  done.
Qed.

End Perturb.

(** *** The backward kernel computes the gradient of the loss *)

Section GradientCells.
Local Open Scope R_scope.
Variables (N D t : Z) (C_prev X : list R) (seqLengths : list Z).
Variables (C0 H0 C_diff H_diff Cf Hf : list R).
Hypothesis Hshapes : detail.fwd_shapes N D C_prev X seqLengths C0 H0.
Hypothesis Hforward :
  detail.LSTMUnit N D t C_prev X seqLengths C0 H0 = Some (Cf, Hf).
Hypothesis HC_diff : (N * D <= Z.of_nat (length C_diff))%Z.
Hypothesis HH_diff : (N * D <= Z.of_nat (length H_diff))%Z.

Lemma loss_wrt_C_prev n d :
  (0 <= n < N)%Z -> (0 <= d < D)%Z ->
  derivable_pt_lim
    (fun v => LSTMUnit_loss N D t (upd C_prev (n * D + d) v) X seqLengths
                C0 H0 C_diff H_diff)
    (get 0 C_prev (n * D + d))
    (C_prev_diff_at D t X seqLengths Cf C_diff H_diff n d).
Proof.
  intros Hn Hd.
  pose proof Hshapes as [HN HD HCp HX Hsl HC0 HH0].
  assert (Hk : (0 <= n * D + d < N * D)%Z) by nia.
  set (K := dot C_diff Cf + dot H_diff Hf
            - get 0 C_diff (n * D + d) * get 0 Cf (n * D + d)
            - get 0 H_diff (n * D + d) * get 0 Hf (n * D + d)).
  apply (dlim_ext (fun v =>
    K + cell_objective (valid_at t seqLengths n)
          (get 0 C_diff (n * D + d)) (get 0 H_diff (n * D + d))
          (get 0 X (n * (4 * D) + d))
          (get 0 X (n * (4 * D) + (1 * D + d)))
          (get 0 X (n * (4 * D) + (2 * D + d)))
          (get 0 X (n * (4 * D) + (3 * D + d))) v)).
  - intros v. symmetry.
    rewrite (loss_one_cell N D t C_prev X seqLengths C0 H0 C_diff H_diff
               Cf Hf Hshapes Hforward HC_diff HH_diff
               (upd C_prev (n * D + d) v) X n d); [| | done | done |].
    + destruct (closed_forms_upd_C_prev_same D t C_prev X seqLengths n d v)
        as [-> ->]; [lia|]. reflexivity.
    + constructor; rewrite ?upd_length; lia.
    + intros n' d' Hn' Hd' Hne.
      apply closed_forms_upd_C_prev_other; lia.
  - eapply dlim_val.
    + apply dl_plus; [apply dl_const | apply grad_c_prev_is_derivative].
    + unfold C_prev_diff_at, bwd_c_prev. cbn [sc_zero R_scalar].
      rewrite (forward_cell N D t C_prev X seqLengths C0 H0 Cf Hf
                 Hshapes Hforward n d Hn Hd).
      unfold C_at, fwd_c. apply Rplus_0_l.
Qed.

End GradientCells.

Lemma get_upd_at {A : Type} (dflt : A) (buf : list A) k j v :
  k = j -> 0 <= k < Z.of_nat (length buf) -> get dflt (upd buf k v) j = v.
Proof. intros <-. apply get_upd_eq. Qed.

Ltac solve_get :=
  repeat first
    [ rewrite get_upd_at by lia
    | rewrite get_upd_ne by lia ].

Section GradientGates.
Local Open Scope R_scope.
Variables (N D t : Z) (C_prev X : list R) (seqLengths : list Z).
Variables (C0 H0 C_diff H_diff Cf Hf : list R).
Hypothesis Hshapes : detail.fwd_shapes N D C_prev X seqLengths C0 H0.
Hypothesis Hforward :
  detail.LSTMUnit N D t C_prev X seqLengths C0 H0 = Some (Cf, Hf).
Hypothesis HC_diff : (N * D <= Z.of_nat (length C_diff))%Z.
Hypothesis HH_diff : (N * D <= Z.of_nat (length H_diff))%Z.

(** The loss after gate [g] of feature [d] in row [n] is set to [v]. *)
Lemma loss_upd_X n g d v :
  (0 <= n < N)%Z -> (0 <= g < 4)%Z -> (0 <= d < D)%Z ->
  LSTMUnit_loss N D t C_prev (upd X (n * (4 * D) + g * D + d) v) seqLengths
    C0 H0 C_diff H_diff
  = (dot C_diff Cf + dot H_diff Hf
     - get 0 C_diff (n * D + d) * get 0 Cf (n * D + d)
     - get 0 H_diff (n * D + d) * get 0 Hf (n * D + d))
    + (get 0 C_diff (n * D + d)
       * C_at D t C_prev (upd X (n * (4 * D) + g * D + d) v) seqLengths n d
       + get 0 H_diff (n * D + d)
         * H_at D t C_prev (upd X (n * (4 * D) + g * D + d) v) seqLengths n d).
Proof.
  intros Hn Hg Hd.
  pose proof Hshapes as [HN HD HCp HX Hsl HC0 HH0].
  apply (loss_one_cell N D t C_prev X seqLengths C0 H0 C_diff H_diff
           Cf Hf Hshapes Hforward HC_diff HH_diff); [| done | done |].
  - constructor; rewrite ?upd_length; lia.
  - intros n' d' Hn' Hd' Hne.
    apply closed_forms_upd_X_other; lia.
Qed.

Lemma gate_in_X n g d :
  (0 <= n < N)%Z -> (0 <= g < 4)%Z -> (0 <= d < D)%Z ->
  (0 <= n * (4 * D) + g * D + d < Z.of_nat (length X))%Z.
Proof.
  intros Hn Hg Hd. destruct Hshapes as [HN HD HCp HX Hsl HC0 HH0]. nia.
Qed.

Lemma loss_wrt_X_i n d :
  (0 <= n < N)%Z -> (0 <= d < D)%Z ->
  derivable_pt_lim
    (fun v => LSTMUnit_loss N D t C_prev (upd X (n * (4 * D) + d) v)
                seqLengths C0 H0 C_diff H_diff)
    (get 0 X (n * (4 * D) + d))
    (i_diff_at D t X seqLengths Cf C_diff H_diff n d).
Proof.
  intros Hn Hd. pose proof (gate_in_X n 0 d Hn ltac:(lia) Hd) as Hk.
  set (K := dot C_diff Cf + dot H_diff Hf
            - get 0 C_diff (n * D + d) * get 0 Cf (n * D + d)
            - get 0 H_diff (n * D + d) * get 0 Hf (n * D + d)).
  apply (dlim_ext (fun v =>
    K + cell_objective (valid_at t seqLengths n)
          (get 0 C_diff (n * D + d)) (get 0 H_diff (n * D + d))
          v
          (get 0 X (n * (4 * D) + (1 * D + d)))
          (get 0 X (n * (4 * D) + (2 * D + d)))
          (get 0 X (n * (4 * D) + (3 * D + d)))
          (get 0 C_prev (n * D + d)))).
  - intros v. symmetry.
    replace (n * (4 * D) + d)%Z with (n * (4 * D) + 0 * D + d)%Z by lia.
    rewrite (loss_upd_X n 0 d v Hn ltac:(lia) Hd).
    unfold C_at, H_at, fwd_c, fwd_h. cbn [sc_zero R_scalar].
    solve_get. reflexivity.
  - eapply dlim_val.
    + apply dl_plus; [apply dl_const | apply grad_i_is_derivative].
    + unfold i_diff_at, bwd_i. cbn [sc_zero R_scalar].
      rewrite (forward_cell N D t C_prev X seqLengths C0 H0 Cf Hf
                 Hshapes Hforward n d Hn Hd).
      unfold C_at, fwd_c. apply Rplus_0_l.
Qed.

Lemma loss_wrt_X_f n d :
  (0 <= n < N)%Z -> (0 <= d < D)%Z ->
  derivable_pt_lim
    (fun v => LSTMUnit_loss N D t C_prev (upd X (n * (4 * D) + 1 * D + d) v)
                seqLengths C0 H0 C_diff H_diff)
    (get 0 X (n * (4 * D) + 1 * D + d))
    (f_diff_at D t C_prev X seqLengths Cf C_diff H_diff n d).
Proof.
  intros Hn Hd. pose proof (gate_in_X n 1 d Hn ltac:(lia) Hd) as Hk.
  set (K := dot C_diff Cf + dot H_diff Hf
            - get 0 C_diff (n * D + d) * get 0 Cf (n * D + d)
            - get 0 H_diff (n * D + d) * get 0 Hf (n * D + d)).
  apply (dlim_ext (fun v =>
    K + cell_objective (valid_at t seqLengths n)
          (get 0 C_diff (n * D + d)) (get 0 H_diff (n * D + d))
          (get 0 X (n * (4 * D) + d))
          v
          (get 0 X (n * (4 * D) + (2 * D + d)))
          (get 0 X (n * (4 * D) + (3 * D + d)))
          (get 0 C_prev (n * D + d)))).
  - intros v. symmetry.
    rewrite (loss_upd_X n 1 d v Hn ltac:(lia) Hd).
    unfold C_at, H_at, fwd_c, fwd_h. cbn [sc_zero R_scalar].
    solve_get. reflexivity.
  - eapply dlim_val.
    + apply dl_plus; [apply dl_const | apply grad_f_is_derivative].
    + unfold f_diff_at, bwd_f. cbn [sc_zero R_scalar].
      rewrite (forward_cell N D t C_prev X seqLengths C0 H0 Cf Hf
                 Hshapes Hforward n d Hn Hd).
      unfold C_at, fwd_c.
      replace (n * (4 * D) + 1 * D + d)%Z with (n * (4 * D) + (1 * D + d))%Z
        by lia.
      apply Rplus_0_l.
Qed.

Lemma loss_wrt_X_o n d :
  (0 <= n < N)%Z -> (0 <= d < D)%Z ->
  derivable_pt_lim
    (fun v => LSTMUnit_loss N D t C_prev (upd X (n * (4 * D) + 2 * D + d) v)
                seqLengths C0 H0 C_diff H_diff)
    (get 0 X (n * (4 * D) + 2 * D + d))
    (o_diff_at D t X seqLengths Cf H_diff n d).
Proof.
  intros Hn Hd. pose proof (gate_in_X n 2 d Hn ltac:(lia) Hd) as Hk.
  set (K := dot C_diff Cf + dot H_diff Hf
            - get 0 C_diff (n * D + d) * get 0 Cf (n * D + d)
            - get 0 H_diff (n * D + d) * get 0 Hf (n * D + d)).
  apply (dlim_ext (fun v =>
    K + cell_objective (valid_at t seqLengths n)
          (get 0 C_diff (n * D + d)) (get 0 H_diff (n * D + d))
          (get 0 X (n * (4 * D) + d))
          (get 0 X (n * (4 * D) + (1 * D + d)))
          v
          (get 0 X (n * (4 * D) + (3 * D + d)))
          (get 0 C_prev (n * D + d)))).
  - intros v. symmetry.
    rewrite (loss_upd_X n 2 d v Hn ltac:(lia) Hd).
    unfold C_at, H_at, fwd_c, fwd_h. cbn [sc_zero R_scalar].
    solve_get. reflexivity.
  - eapply dlim_val.
    + apply dl_plus; [apply dl_const | apply grad_o_is_derivative].
    + unfold o_diff_at, bwd_o. cbn [sc_zero R_scalar].
      rewrite (forward_cell N D t C_prev X seqLengths C0 H0 Cf Hf
                 Hshapes Hforward n d Hn Hd).
      unfold C_at, fwd_c.
      replace (n * (4 * D) + 2 * D + d)%Z with (n * (4 * D) + (2 * D + d))%Z
        by lia.
      apply Rplus_0_l.
Qed.

Lemma loss_wrt_X_g n d :
  (0 <= n < N)%Z -> (0 <= d < D)%Z ->
  derivable_pt_lim
    (fun v => LSTMUnit_loss N D t C_prev (upd X (n * (4 * D) + 3 * D + d) v)
                seqLengths C0 H0 C_diff H_diff)
    (get 0 X (n * (4 * D) + 3 * D + d))
    (g_diff_at D t X seqLengths Cf C_diff H_diff n d).
Proof.
  intros Hn Hd. pose proof (gate_in_X n 3 d Hn ltac:(lia) Hd) as Hk.
  set (K := dot C_diff Cf + dot H_diff Hf
            - get 0 C_diff (n * D + d) * get 0 Cf (n * D + d)
            - get 0 H_diff (n * D + d) * get 0 Hf (n * D + d)).
  apply (dlim_ext (fun v =>
    K + cell_objective (valid_at t seqLengths n)
          (get 0 C_diff (n * D + d)) (get 0 H_diff (n * D + d))
          (get 0 X (n * (4 * D) + d))
          (get 0 X (n * (4 * D) + (1 * D + d)))
          (get 0 X (n * (4 * D) + (2 * D + d)))
          v
          (get 0 C_prev (n * D + d)))).
  - intros v. symmetry.
    rewrite (loss_upd_X n 3 d v Hn ltac:(lia) Hd).
    unfold C_at, H_at, fwd_c, fwd_h. cbn [sc_zero R_scalar].
    solve_get. reflexivity.
  - eapply dlim_val.
    + apply dl_plus; [apply dl_const | apply grad_g_is_derivative].
    + unfold g_diff_at, bwd_g. cbn [sc_zero R_scalar].
      rewrite (forward_cell N D t C_prev X seqLengths C0 H0 Cf Hf
                 Hshapes Hforward n d Hn Hd).
      unfold C_at, fwd_c.
      replace (n * (4 * D) + 3 * D + d)%Z with (n * (4 * D) + (3 * D + d))%Z
        by lia.
      apply Rplus_0_l.
Qed.

End GradientGates.

(** X15.  Over the reals the derivative of [sigmoid] at [x] is
    [sigmoid x * (1 - sigmoid x)] and the derivative of the [tanh] helper
    is [1 - tanh x * tanh x]: the factors [i * (1 - i)], [f * (1 - f)],
    [o * (1 - o)], [1 - g * g] and [1 - tanh_c * tanh_c] of the backward
    kernel are the derivatives of the activations of the forward kernel. *)
Theorem activation_derivatives (x : R) :
  derivable_pt_lim detail.sigmoid x
    (detail.sigmoid x * (1 - detail.sigmoid x))%R /\
  derivable_pt_lim detail.tanh x (1 - detail.tanh x * detail.tanh x)%R.
Proof. split; [apply sigmoid_deriv | apply tanh_deriv]. Qed.

(** X16.  Over the reals the backward kernel, given the cell state [C]
    that the forward kernel produced, returns the gradient of the loss
    [<C_diff, C> + <H_diff, H>] with respect to the inputs of the forward
    kernel: every cell of [C_prev_diff] is the partial derivative of the
    loss in the same cell of [C_prev], and every cell of [X_diff] the
    partial derivative in the same cell of [X] -- in running and in ended
    sequences alike. *)
Theorem LSTMUnitGradient_is_gradient (N D t : Z) (C_prev X : list R)
    (seqLengths : list Z) (C0 H0 H1 C_diff H_diff Cpd0 Xd0 : list R) :
  detail.fwd_shapes N D C_prev X seqLengths C0 H0 ->
  N * D <= Z.of_nat (length C_diff) ->
  N * D <= Z.of_nat (length H_diff) ->
  N * D <= Z.of_nat (length Cpd0) ->
  N * (4 * D) <= Z.of_nat (length Xd0) ->
  exists Cf Hf C_prev_diff X_diff,
    detail.LSTMUnit N D t C_prev X seqLengths C0 H0 = Some (Cf, Hf) /\
    detail.LSTMUnitGradient N D t C_prev X seqLengths Cf H1 C_diff H_diff
      Cpd0 Xd0 = Some (C_prev_diff, X_diff) /\
    (forall k, 0 <= k < N * D ->
       exists g, load C_prev_diff k = Some g /\
         derivable_pt_lim
           (fun v => LSTMUnit_loss N D t (upd C_prev k v) X seqLengths
                       C0 H0 C_diff H_diff)
           (get 0%R C_prev k) g) /\
    (forall k, 0 <= k < N * (4 * D) ->
       exists g, load X_diff k = Some g /\
         derivable_pt_lim
           (fun v => LSTMUnit_loss N D t C_prev (upd X k v) seqLengths
                       C0 H0 C_diff H_diff)
           (get 0%R X k) g).
Proof.
  intros Hsh HCd HHd HCpd HXd.
  destruct (LSTMUnit_spec D t C_prev X seqLengths N C0 H0 Hsh)
    as (Cf & Hf & Hrun & HlC & _).
  pose proof Hsh as [HN HD HCp HX Hsl HC0 HH0].
  assert (Hb : detail.bwd_shapes N D C_prev X seqLengths Cf C_diff H_diff
                 Cpd0 Xd0) by (constructor; lia).
  destruct (LSTMUnitGradient_spec D t C_prev X seqLengths Cf C_diff H_diff
              N H1 Cpd0 Xd0 Hb)
    as (Cpd & Xd & Hg & _ & _ & Hc & _).
  exists Cf, Hf, Cpd, Xd. split; [done|]. split; [done|]. split.
  - intros k Hk.
    destruct (cell_index N D k) as (n & d & Hn & Hd & ->); [lia | done |].
    destruct (Hc n d Hn Hd) as (E0 & _).
    eexists. split; [exact E0|].
    by apply (loss_wrt_C_prev N D t C_prev X seqLengths C0 H0 C_diff H_diff
                Cf Hf).
  - intros k Hk.
    destruct (cell_index N (4 * D) k) as (n & r & Hn & Hr & ->);
      [lia | lia |].
    destruct (decide (r < D)) as [H0r|H0r].
    { destruct (Hc n r Hn ltac:(lia)) as (_ & E & _).
      eexists. split; [exact E|].
      apply (loss_wrt_X_i N D t C_prev X seqLengths C0 H0 C_diff H_diff
               Cf Hf); (done || lia). }
    destruct (decide (r < 2 * D)) as [H1r|H1r].
    { replace (n * (4 * D) + r) with (n * (4 * D) + 1 * D + (r - D)) by lia.
      destruct (Hc n (r - D) Hn ltac:(lia)) as (_ & _ & E & _).
      eexists. split; [exact E|].
      apply (loss_wrt_X_f N D t C_prev X seqLengths C0 H0 C_diff H_diff
               Cf Hf); (done || lia). }
    destruct (decide (r < 3 * D)) as [H2r|H2r].
    { replace (n * (4 * D) + r) with (n * (4 * D) + 2 * D + (r - 2 * D))
        by lia.
      destruct (Hc n (r - 2 * D) Hn ltac:(lia)) as (_ & _ & _ & E & _).
      eexists. split; [exact E|].
      apply (loss_wrt_X_o N D t C_prev X seqLengths C0 H0 C_diff H_diff
               Cf Hf); (done || lia). }
    replace (n * (4 * D) + r) with (n * (4 * D) + 3 * D + (r - 3 * D)) by lia.
    destruct (Hc n (r - 3 * D) Hn ltac:(lia)) as (_ & _ & _ & _ & E).
    eexists. split; [exact E|].
    apply (loss_wrt_X_g N D t C_prev X seqLengths C0 H0 C_diff H_diff
             Cf Hf); (done || lia).
Qed.

(** * The operators *)

Section Operators.
Context {T : Type} `{Scalar T}.

Lemma shaped_dims {A : Type} (x : tensor A) rows cols :
  shaped x rows cols ->
  dim x 1 = Some rows /\ dim x 2 = Some cols.
Proof. intros [Hd _]. unfold dim. rewrite Hd. done. Qed.

(** X17.  The one precondition the operators check is [4 * D == G]: when
    the last dimension [G] of the gate tensor is not four times the last
    dimension [D] of the cell tensor, both operators stop in the fatal
    check, before the timestep or any buffer is read. *)
Theorem RunOnDevice_check (CELL_T_M_1 GATES : tensor T)
    (SEQ_LENGTHS TIMESTEP : tensor Z)
    (HIDDEN_T CELL_T HIDDEN_T_GRAD CELL_T_GRAD : tensor T)
    (raw1 raw2 : list T) (N D G : Z) :
  dim CELL_T_M_1 1 = Some N -> dim CELL_T_M_1 2 = Some D ->
  dim GATES 2 = Some G -> 4 * D <> G ->
  LSTMUnitOp.RunOnDevice CELL_T_M_1 GATES SEQ_LENGTHS TIMESTEP raw1 raw2
    = CheckFailed /\
  LSTMUnitGradientOp.RunOnDevice CELL_T_M_1 GATES SEQ_LENGTHS TIMESTEP
    HIDDEN_T CELL_T HIDDEN_T_GRAD CELL_T_GRAD raw1 raw2 = CheckFailed.
Proof.
  intros HN HD HG Hne.
  unfold LSTMUnitOp.RunOnDevice, LSTMUnitGradientOp.RunOnDevice.
  rewrite HN, HD, HG.
  assert ((4 * D =? G) = false) as -> by (by apply Z.eqb_neq).
  done.
Qed.

(** The forward operator on tensors of the documented shapes. *)
Lemma LSTMUnitOp_runs (CELL_T_M_1 GATES : tensor T)
    (SEQ_LENGTHS TIMESTEP : tensor Z) (C_raw H_raw : list T) (N D t : Z) :
  0 <= N -> 0 <= D ->
  shaped CELL_T_M_1 N D -> shaped GATES N (4 * D) ->
  N <= Z.of_nat (length (data SEQ_LENGTHS)) ->
  load (data TIMESTEP) 0 = Some t ->
  Z.of_nat (length C_raw) = N * D -> Z.of_nat (length H_raw) = N * D ->
  exists C H1,
    detail.LSTMUnit N D t (data CELL_T_M_1) (data GATES) (data SEQ_LENGTHS)
      C_raw H_raw = Some (C, H1) /\
    length C = length C_raw /\ length H1 = length H_raw /\
    LSTMUnitOp.RunOnDevice CELL_T_M_1 GATES SEQ_LENGTHS TIMESTEP C_raw H_raw
    = Returned ({| dims := dims CELL_T_M_1; data := H1 |},
                {| dims := dims CELL_T_M_1; data := C |}).
Proof.
  intros HN HD Hc Hg Hs Ht HC HH.
  destruct (shaped_dims _ _ _ Hc) as [EN ED].
  destruct (shaped_dims _ _ _ Hg) as [_ EG].
  destruct Hc as [_ Hcl]. destruct Hg as [_ Hgl].
  assert (Hsh : detail.fwd_shapes N D (data CELL_T_M_1) (data GATES)
                  (data SEQ_LENGTHS) C_raw H_raw) by (constructor; lia).
  destruct (LSTMUnit_spec D t (data CELL_T_M_1) (data GATES)
              (data SEQ_LENGTHS) N C_raw H_raw Hsh)
    as (C & H1 & Hrun & HlC & HlH & _).
  exists C, H1. split; [done|]. split; [done|]. split; [done|].
  unfold LSTMUnitOp.RunOnDevice. rewrite EN, ED, EG, Z.eqb_refl, Ht.
  simpl. by rewrite Hrun.
Qed.

(** X18.  On a cell tensor of shape [1 x N x D], a gate tensor of shape
    [1 x N x 4D], at least [N] sequence lengths and a timestep, the
    forward operator returns; both outputs have the shape of the cell
    tensor, and they do not depend on what their storage held before. *)
Theorem LSTMUnitOp_returns (CELL_T_M_1 GATES : tensor T)
    (SEQ_LENGTHS TIMESTEP : tensor Z) (C_raw H_raw C_raw' H_raw' : list T)
    (N D t : Z) :
  0 <= N -> 0 <= D ->
  shaped CELL_T_M_1 N D -> shaped GATES N (4 * D) ->
  N <= Z.of_nat (length (data SEQ_LENGTHS)) ->
  load (data TIMESTEP) 0 = Some t ->
  Z.of_nat (length C_raw) = N * D -> Z.of_nat (length H_raw) = N * D ->
  Z.of_nat (length C_raw') = N * D -> Z.of_nat (length H_raw') = N * D ->
  exists HIDDEN_T CELL_T,
    LSTMUnitOp.RunOnDevice CELL_T_M_1 GATES SEQ_LENGTHS TIMESTEP C_raw H_raw
      = Returned (HIDDEN_T, CELL_T) /\
    LSTMUnitOp.RunOnDevice CELL_T_M_1 GATES SEQ_LENGTHS TIMESTEP
      C_raw' H_raw' = Returned (HIDDEN_T, CELL_T) /\
    shaped HIDDEN_T N D /\ shaped CELL_T N D.
Proof.
  intros HN HD Hc Hg Hs Ht HC HH HC' HH'.
  destruct (LSTMUnitOp_runs CELL_T_M_1 GATES SEQ_LENGTHS TIMESTEP
              C_raw H_raw N D t) as (C & H1 & Hrun & HlC & HlH & Hop);
    try done.
  destruct (LSTMUnitOp_runs CELL_T_M_1 GATES SEQ_LENGTHS TIMESTEP
              C_raw' H_raw' N D t) as (C' & H1' & Hrun' & _ & _ & Hop');
    try done.
  destruct (LSTMUnit_init_irrelevant N D t (data CELL_T_M_1) (data GATES)
              (data SEQ_LENGTHS) C_raw H_raw C_raw' H_raw')
    as (C2 & H2 & E & E'); try done.
  { destruct Hc as [_ Hcl]. destruct Hg as [_ Hgl]. constructor; lia. }
  rewrite Hrun in E. injection E as <- <-.
  rewrite Hrun' in E'. injection E' as -> ->.
  eexists _, _. split; [exact Hop|]. split; [exact Hop'|].
  destruct Hc as [Hcd _]. split; (split; simpl; [done | lia]).
Qed.

(** X19.  Neither operator checks the number of sequence lengths against
    [N]: with matching gate width and a timestep, a [SEQ_LENGTHS] tensor of
    fewer than [N] entries is not reported by the check; the kernel reads
    past its end. *)
Theorem RunOnDevice_short_lengths (CELL_T_M_1 GATES : tensor T)
    (SEQ_LENGTHS TIMESTEP : tensor Z)
    (HIDDEN_T CELL_T HIDDEN_T_GRAD CELL_T_GRAD : tensor T)
    (raw1 raw2 : list T) (N D t : Z) :
  dim CELL_T_M_1 1 = Some N -> dim CELL_T_M_1 2 = Some D ->
  dim GATES 2 = Some (4 * D) ->
  load (data TIMESTEP) 0 = Some t ->
  Z.of_nat (length (data SEQ_LENGTHS)) < N ->
  LSTMUnitOp.RunOnDevice CELL_T_M_1 GATES SEQ_LENGTHS TIMESTEP raw1 raw2
    = Undefined /\
  LSTMUnitGradientOp.RunOnDevice CELL_T_M_1 GATES SEQ_LENGTHS TIMESTEP
    HIDDEN_T CELL_T HIDDEN_T_GRAD CELL_T_GRAD raw1 raw2 = Undefined.
Proof.
  intros HN HD HG Ht Hs.
  unfold LSTMUnitOp.RunOnDevice, LSTMUnitGradientOp.RunOnDevice.
  rewrite HN, HD, HG, Z.eqb_refl, Ht. simpl.
  destruct (kernels_short_lengths N D t (data CELL_T_M_1) (data GATES)
              (data SEQ_LENGTHS) (data CELL_T) (data HIDDEN_T)
              (data CELL_T_GRAD) (data HIDDEN_T_GRAD) raw1 raw2 raw1 raw2 Hs)
    as [-> ->].
  done.
Qed.

(** X20.  The operators compose: the outputs of the forward operator,
    passed to the gradient operator together with upstream gradients of
    the shape of the cell tensor, make the gradient operator return;
    [CELL_T_M_1_GRAD] has the shape of the cell tensor and [GATES_GRAD]
    the shape of the gate tensor. *)
Theorem forward_then_gradient (CELL_T_M_1 GATES : tensor T)
    (SEQ_LENGTHS TIMESTEP : tensor Z) (HIDDEN_T_GRAD CELL_T_GRAD : tensor T)
    (C_raw H_raw C_prev_diff_raw X_diff_raw : list T) (N D t : Z) :
  0 <= N -> 0 <= D ->
  shaped CELL_T_M_1 N D -> shaped GATES N (4 * D) ->
  N <= Z.of_nat (length (data SEQ_LENGTHS)) ->
  load (data TIMESTEP) 0 = Some t ->
  Z.of_nat (length C_raw) = N * D -> Z.of_nat (length H_raw) = N * D ->
  shaped HIDDEN_T_GRAD N D -> shaped CELL_T_GRAD N D ->
  Z.of_nat (length C_prev_diff_raw) = N * D ->
  Z.of_nat (length X_diff_raw) = N * (4 * D) ->
  exists HIDDEN_T CELL_T CELL_T_M_1_GRAD GATES_GRAD,
    LSTMUnitOp.RunOnDevice CELL_T_M_1 GATES SEQ_LENGTHS TIMESTEP C_raw H_raw
      = Returned (HIDDEN_T, CELL_T) /\
    LSTMUnitGradientOp.RunOnDevice CELL_T_M_1 GATES SEQ_LENGTHS TIMESTEP
      HIDDEN_T CELL_T HIDDEN_T_GRAD CELL_T_GRAD C_prev_diff_raw X_diff_raw
      = Returned (CELL_T_M_1_GRAD, GATES_GRAD) /\
    shaped CELL_T_M_1_GRAD N D /\ shaped GATES_GRAD N (4 * D).
Proof.
  intros HN HD Hc Hg Hs Ht HC HH Hhg Hcg HCpd HXd.
  destruct (LSTMUnitOp_runs CELL_T_M_1 GATES SEQ_LENGTHS TIMESTEP
              C_raw H_raw N D t) as (C & H1 & Hrun & HlC & HlH & Hop);
    try done.
  destruct (shaped_dims _ _ _ Hc) as [EN ED].
  destruct (shaped_dims _ _ _ Hg) as [_ EG].
  pose proof Hc as [Hcd Hcl]. pose proof Hg as [Hgd Hgl].
  destruct Hhg as [_ Hhl]. destruct Hcg as [_ Hcgl].
  assert (Hb : detail.bwd_shapes N D (data CELL_T_M_1) (data GATES)
                 (data SEQ_LENGTHS) C (data CELL_T_GRAD) (data HIDDEN_T_GRAD)
                 C_prev_diff_raw X_diff_raw) by (constructor; lia).
  destruct (LSTMUnitGradient_spec D t (data CELL_T_M_1) (data GATES)
              (data SEQ_LENGTHS) C (data CELL_T_GRAD) (data HIDDEN_T_GRAD)
              N H1 C_prev_diff_raw X_diff_raw Hb)
    as (Cpd & Xd & Hg' & HlCpd & HlXd & _).
  eexists _, _, _, _. split; [exact Hop|]. split.
  - unfold LSTMUnitGradientOp.RunOnDevice.
    rewrite EN, ED, EG, Z.eqb_refl, Ht. simpl. rewrite Hg'. reflexivity.
  - split; (split; simpl; [done | lia]).
Qed.

End Operators.

(** * The further properties on the example batches *)

Lemma LSTMUnit_frame_witness :
  exists C H1,
    detail.LSTMUnit 2 2 1 example.C_prev example.X example.seqLengths
      example.out4 example.out4 = Some (C, H1) /\
    length C = length example.out4 /\ length H1 = length example.out4 /\
    forall j, ~ 0 <= j < 2 * 2 ->
      load C j = load example.out4 j /\ load H1 j = load example.out4 j.
Proof. exact (LSTMUnit_frame 2 2 1 _ _ _ _ _ example_fwd_shapes). Defined.

Lemma LSTMUnitGradient_frame_witness :
  exists C_prev_diff X_diff,
    detail.LSTMUnitGradient 2 2 1 example.C_prev example.X example.seqLengths
      example.C example.H example.C_diff example.H_diff
      example.out4 example.out16 = Some (C_prev_diff, X_diff) /\
    length C_prev_diff = length example.out4 /\
    length X_diff = length example.out16 /\
    (forall j, ~ 0 <= j < 2 * 2 -> load C_prev_diff j = load example.out4 j) /\
    (forall j, ~ 0 <= j < 2 * (4 * 2) -> load X_diff j = load example.out16 j).
Proof.
  exact (LSTMUnitGradient_frame 2 2 1 _ _ _ _ example.H _ _ _ _
           example_bwd_shapes).
Defined.

Lemma LSTMUnit_outputs_overwritten_witness :
  exists C H1,
    detail.LSTMUnit 2 2 1 example.C_prev example.X example.seqLengths
      example.out4 example.out4 = Some (C, H1) /\
    detail.LSTMUnit 2 2 1 example.C_prev example.X example.seqLengths
      example2.out4 example2.out4 = Some (C, H1).
Proof.
  refine (LSTMUnit_outputs_overwritten 2 2 1 _ _ _ _ _ _ _
            example_fwd_shapes _ _ _ _); reflexivity.
Defined.

Lemma LSTMUnitGradient_outputs_overwritten_witness :
  exists C_prev_diff X_diff,
    detail.LSTMUnitGradient 2 2 1 example.C_prev example.X example.seqLengths
      example.C example.H example.C_diff example.H_diff
      example.out4 example.out16 = Some (C_prev_diff, X_diff) /\
    detail.LSTMUnitGradient 2 2 1 example.C_prev example.X example.seqLengths
      example.C example.H example.C_diff example.H_diff
      example2.out4 example2.out16 = Some (C_prev_diff, X_diff).
Proof.
  refine (LSTMUnitGradient_outputs_overwritten 2 2 1 _ _ _ _ example.H _ _
            _ _ _ _ example_bwd_shapes _ _ _ _); reflexivity.
Defined.

Lemma empty_batch_witness :
  detail.LSTMUnit 0 2 1 example.C_prev example.X example.seqLengths
    example.out4 example.out4 = Some (example.out4, example.out4) /\
  detail.LSTMUnitGradient 0 2 1 example.C_prev example.X example.seqLengths
    example.C example.H example.C_diff example.H_diff
    example.out4 example.out16 = Some (example.out4, example.out16).
Proof.
  refine (empty_batch 0 2 1 _ _ _ _ _ _ _ _ _ _ _ _). lia.
Defined.

Lemma no_features_witness :
  detail.LSTMUnit 2 0 1 [] [] example.seqLengths
    example.out4 example.out4 = Some (example.out4, example.out4) /\
  detail.LSTMUnitGradient 2 0 1 [] [] example.seqLengths
    [] [] [] [] example.out4 example.out16
    = Some (example.out4, example.out16).
Proof.
  refine (no_features 2 0 1 [] [] example.seqLengths [] [] [] []
            example.out4 example.out4 example.out4 example.out16 _ _).
  - lia.
  - simpl. lia.
Defined.

Lemma seqLengths_too_short_witness :
  detail.LSTMUnit 3 2 1 example.C_prev example.X example.seqLengths
    example.out4 example.out4 = None /\
  detail.LSTMUnitGradient 3 2 1 example.C_prev example.X example.seqLengths
    example.C example.H example.C_diff example.H_diff
    example.out4 example.out16 = None.
Proof.
  refine (seqLengths_too_short 3 2 1 _ _ _ _ _ _ _ _ _ _ _ _). simpl. lia.
Defined.

Lemma example_all_ended : all_ended 2 5 example.seqLengths.
Proof.
  intros n len Hn Hl.
  assert (Hc : n = 0 \/ n = 1) by lia.
  destruct Hc as [-> | ->]; injection Hl as <-; lia.
Defined.

Lemma LSTMUnit_all_ended_witness :
  detail.LSTMUnit 2 2 5 example.C_prev [] example.seqLengths
    example.out4 example.out4
  = Some (example.C_prev, replicate (length example.out4) 0%R).
Proof.
  refine (LSTMUnit_all_ended 2 2 5 example.C_prev [] example.seqLengths
            example.out4 example.out4 _ _ example_all_ended _ _ _);
    simpl; lia.
Defined.

Lemma LSTMUnitGradient_all_ended_witness :
  detail.LSTMUnitGradient 2 2 5 [] [] example.seqLengths [] []
    example.C_diff [] example.out4 example.out16
  = Some (example.C_diff, replicate (length example.out16) 0%R).
Proof.
  refine (LSTMUnitGradient_all_ended 2 2 5 [] [] example.seqLengths [] []
            example.C_diff [] example.out4 example.out16
            _ _ example_all_ended _ _ _);
    simpl; lia.
Defined.

Lemma LSTMUnit_cell_inputs_witness :
  exists C H1 C' H1',
    detail.LSTMUnit 2 2 0 example.C_prev example.X example.seqLengths
      example.out4 example.out4 = Some (C, H1) /\
    detail.LSTMUnit 2 2 0 example2.C_prev example2.X example2.seqLengths
      example2.out4 example2.out4 = Some (C', H1') /\
    cell C 2 1 0 = cell C' 2 1 0 /\ cell H1 2 1 0 = cell H1' 2 1 0.
Proof.
  refine (LSTMUnit_cell_inputs 2 2 0 1 0 _ _ _ _ _ _ _ _ _ _
            example_fwd_shapes example2_fwd_shapes _ _ _ _ _ _ _ _);
    first [lia | reflexivity].
Defined.

Lemma LSTMUnitGradient_cell_inputs_witness :
  exists Cpd Xd Cpd' Xd',
    detail.LSTMUnitGradient 2 2 0 example.C_prev example.X
      example.seqLengths example.C example.H example.C_diff example.H_diff
      example.out4 example.out16 = Some (Cpd, Xd) /\
    detail.LSTMUnitGradient 2 2 0 example2.C_prev example2.X
      example2.seqLengths example2.C example2.H example2.C_diff
      example2.H_diff example2.out4 example2.out16 = Some (Cpd', Xd') /\
    cell Cpd 2 1 0 = cell Cpd' 2 1 0 /\
    cell Xd (4 * 2) 1 0 = cell Xd' (4 * 2) 1 0 /\
    cell Xd (4 * 2) 1 (2 + 0) = cell Xd' (4 * 2) 1 (2 + 0) /\
    cell Xd (4 * 2) 1 (2 * 2 + 0) = cell Xd' (4 * 2) 1 (2 * 2 + 0) /\
    cell Xd (4 * 2) 1 (3 * 2 + 0) = cell Xd' (4 * 2) 1 (3 * 2 + 0).
Proof.
  refine (LSTMUnitGradient_cell_inputs 2 2 0 1 0
            _ _ _ _ example.H _ _ _ _ _ _ _ _ example2.H _ _ _ _
            example_bwd_shapes example2_bwd_shapes
            _ _ _ _ _ _ _ _ _ _ _);
    first [lia | reflexivity].
Defined.



Lemma LSTMUnitGradient_is_gradient_witness :
  exists Cf Hf C_prev_diff X_diff,
    detail.LSTMUnit 2 2 1 example.C_prev example.X example.seqLengths
      example.out4 example.out4 = Some (Cf, Hf) /\
    detail.LSTMUnitGradient 2 2 1 example.C_prev example.X example.seqLengths
      Cf example.H example.C_diff example.H_diff example.out4 example.out16
      = Some (C_prev_diff, X_diff) /\
    (forall k, 0 <= k < 2 * 2 ->
       exists g, load C_prev_diff k = Some g /\
         derivable_pt_lim
           (fun v => LSTMUnit_loss 2 2 1 (upd example.C_prev k v) example.X
                       example.seqLengths example.out4 example.out4
                       example.C_diff example.H_diff)
           (get 0%R example.C_prev k) g) /\
    (forall k, 0 <= k < 2 * (4 * 2) ->
       exists g, load X_diff k = Some g /\
         derivable_pt_lim
           (fun v => LSTMUnit_loss 2 2 1 example.C_prev (upd example.X k v)
                       example.seqLengths example.out4 example.out4
                       example.C_diff example.H_diff)
           (get 0%R example.X k) g).
Proof.
  refine (LSTMUnitGradient_is_gradient 2 2 1 _ _ _ _ _ example.H _ _ _ _
            example_fwd_shapes _ _ _ _); simpl; lia.
Defined.

Lemma RunOnDevice_check_witness :
  LSTMUnitOp.RunOnDevice example_op.CELL_T_M_1 example_op.GATES_narrow
    example_op.SEQ_LENGTHS example_op.TIMESTEP example.out4 example.out4
    = CheckFailed /\
  LSTMUnitGradientOp.RunOnDevice example_op.CELL_T_M_1
    example_op.GATES_narrow example_op.SEQ_LENGTHS example_op.TIMESTEP
    example_op.HIDDEN_T example_op.CELL_T example_op.HIDDEN_T_GRAD
    example_op.CELL_T_GRAD example.out4 example.out4 = CheckFailed.
Proof.
  refine (RunOnDevice_check _ _ _ _ _ _ _ _ _ _ 2 2 7 _ _ _ _);
    first [reflexivity | lia].
Defined.

Lemma example_cell_shaped : shaped example_op.CELL_T_M_1 2 2.
Proof. split; reflexivity. Defined.

Lemma example_gates_shaped : shaped example_op.GATES 2 (4 * 2).
Proof. split; reflexivity. Defined.

Lemma LSTMUnitOp_returns_witness :
  exists HIDDEN_T CELL_T,
    LSTMUnitOp.RunOnDevice example_op.CELL_T_M_1 example_op.GATES
      example_op.SEQ_LENGTHS example_op.TIMESTEP example.out4 example.out4
      = Returned (HIDDEN_T, CELL_T) /\
    LSTMUnitOp.RunOnDevice example_op.CELL_T_M_1 example_op.GATES
      example_op.SEQ_LENGTHS example_op.TIMESTEP example2.out4 example2.out4
      = Returned (HIDDEN_T, CELL_T) /\
    shaped HIDDEN_T 2 2 /\ shaped CELL_T 2 2.
Proof.
  refine (LSTMUnitOp_returns _ _ _ _ _ _ _ _ 2 2 1 _ _
            example_cell_shaped example_gates_shaped _ _ _ _ _ _);
    first [reflexivity | simpl; lia].
Defined.

Lemma RunOnDevice_short_lengths_witness :
  LSTMUnitOp.RunOnDevice example_op.CELL_T_M_1 example_op.GATES
    example_op.SEQ_LENGTHS_short example_op.TIMESTEP example.out4 example.out4
    = Undefined /\
  LSTMUnitGradientOp.RunOnDevice example_op.CELL_T_M_1 example_op.GATES
    example_op.SEQ_LENGTHS_short example_op.TIMESTEP
    example_op.HIDDEN_T example_op.CELL_T example_op.HIDDEN_T_GRAD
    example_op.CELL_T_GRAD example.out4 example.out4 = Undefined.
Proof.
  refine (RunOnDevice_short_lengths _ _ _ _ _ _ _ _ _ _ 2 2 1 _ _ _ _ _);
    first [reflexivity | simpl; lia].
Defined.

Lemma forward_then_gradient_witness :
  exists HIDDEN_T CELL_T CELL_T_M_1_GRAD GATES_GRAD,
    LSTMUnitOp.RunOnDevice example_op.CELL_T_M_1 example_op.GATES
      example_op.SEQ_LENGTHS example_op.TIMESTEP example.out4 example.out4
      = Returned (HIDDEN_T, CELL_T) /\
    LSTMUnitGradientOp.RunOnDevice example_op.CELL_T_M_1 example_op.GATES
      example_op.SEQ_LENGTHS example_op.TIMESTEP
      HIDDEN_T CELL_T example_op.HIDDEN_T_GRAD example_op.CELL_T_GRAD
      example.out4 example.out16
      = Returned (CELL_T_M_1_GRAD, GATES_GRAD) /\
    shaped CELL_T_M_1_GRAD 2 2 /\ shaped GATES_GRAD 2 (4 * 2).
Proof.
  refine (forward_then_gradient _ _ _ _ _ _ _ _ _ _ 2 2 1 _ _
            example_cell_shaped example_gates_shaped _ _ _ _ _ _ _ _);
    first [reflexivity | split; reflexivity | simpl; lia].
Defined.

(** * What a returning call implies about the buffers *)

Section LoopSuccess.
Context {S : Type}.
Implicit Types (body : Z -> S -> option S) (s : S).

Lemma for_loop_inv_partial (I : Z -> S -> Prop) body cnt : forall lo s s',
  I lo s ->
  (forall i s0 s1, lo <= i < lo + Z.of_nat cnt -> I i s0 ->
     body i s0 = Some s1 -> I (i + 1) s1) ->
  for_loop lo cnt body s = Some s' -> I (lo + Z.of_nat cnt) s'.
Proof.
  induction cnt as [|k IH]; intros lo s s' Hs Hstep Hrun.
  - simpl in Hrun. injection Hrun as <-.
    by replace (lo + Z.of_nat 0) with lo by lia.
  - simpl in Hrun. destruct (body lo s) as [s1|] eqn:Hb; [|discriminate].
    simpl in Hrun.
    replace (lo + Z.of_nat (Datatypes.S k)) with (lo + 1 + Z.of_nat k) by lia.
    apply (IH (lo + 1) s1 s'); [| |done].
    + by apply (Hstep lo s); [lia | |].
    + intros i s0 s2 Hi. apply Hstep. lia.
Qed.

(** The last iteration of a loop that returns. *)
Lemma for_loop_last body cnt : forall lo s s',
  for_loop lo (Datatypes.S cnt) body s = Some s' ->
  exists s0, for_loop lo cnt body s = Some s0 /\
             body (lo + Z.of_nat cnt) s0 = Some s'.
Proof.
  induction cnt as [|k IH]; intros lo s s' Hrun.
  - simpl in Hrun. destruct (body lo s) as [s1|] eqn:Hb; [|discriminate].
    simpl in Hrun. injection Hrun as <-. exists s. split; [done|].
    by replace (lo + Z.of_nat 0) with lo by lia.
  - change (for_loop lo (Datatypes.S (Datatypes.S k)) body s)
      with (body lo s ≫= for_loop (lo + 1) (Datatypes.S k) body) in Hrun.
    destruct (body lo s) as [s1|] eqn:Hb; [|discriminate]. simpl in Hrun.
    destruct (IH (lo + 1) s1 s' Hrun) as (s0 & Hpre & Hlast).
    exists s0. split.
    + simpl. rewrite Hb. exact Hpre.
    + by replace (lo + Z.of_nat (Datatypes.S k)) with (lo + 1 + Z.of_nat k)
        by lia.
Qed.

Lemma for_int_last body hi s s' :
  0 < hi -> for_int hi body s = Some s' ->
  exists s0, for_int (hi - 1) body s = Some s0 /\ body (hi - 1) s0 = Some s'.
Proof.
  intros Hhi Hrun. unfold for_int in *.
  replace (Z.to_nat hi) with (Datatypes.S (Z.to_nat (hi - 1))) in Hrun by lia.
  destruct (for_loop_last body _ 0 s s' Hrun) as (s0 & Hpre & Hlast).
  exists s0. split; [done|].
  by replace (hi - 1) with (0 + Z.of_nat (Z.to_nat (hi - 1))) at 1 by lia.
Qed.

Lemma for_int_inv_partial (I : Z -> S -> Prop) body hi s s' :
  0 <= hi -> I 0 s ->
  (forall i s0 s1, 0 <= i < hi -> I i s0 ->
     body i s0 = Some s1 -> I (i + 1) s1) ->
  for_int hi body s = Some s' -> I hi s'.
Proof.
  intros Hhi Hs Hstep Hrun. unfold for_int in Hrun.
  replace hi with (0 + Z.of_nat (Z.to_nat hi)) by lia.
  apply (for_loop_inv_partial I body _ 0 s s'); [done | | done].
  intros i s0 s1 Hi. apply Hstep. lia.
Qed.

End LoopSuccess.

Lemma load_Some_in {A : Type} (buf : list A) i v :
  load buf i = Some v -> 0 <= i < Z.of_nat (length buf).
Proof.
  unfold load. destruct (_ && _) eqn:Hb; [|discriminate].
  intros _. by apply in_range_inv.
Qed.

Ltac invert_binds Hf :=
  repeat match type of Hf with
  | (?m ≫= _) = Some _ =>
      let E := fresh "E" in
      destruct m eqn:E; [|discriminate Hf]; cbn [mbind option_bind] in Hf
  end.

Section Converse.
Context {T : Type} `{Scalar T}.

(** An inner iteration of the forward kernel that returns has found its
    three cells inside the buffers, and keeps the sizes of the outputs. *)
Lemma LSTMUnit_feature_Some D (C_prev X : list T) vld pC_prev pX pC pH d
    (C H0 C' H' : list T) :
  detail.LSTMUnit_feature D C_prev X vld pC_prev pX pC pH d (C, H0)
    = Some (C', H') ->
  length C' = length C /\ length H' = length H0 /\
  0 <= pC + d < Z.of_nat (length C) /\
  0 <= pH + d < Z.of_nat (length H0) /\
  0 <= pC_prev + d < Z.of_nat (length C_prev).
Proof.
  unfold detail.LSTMUnit_feature. intros Hf.
  destruct vld; cbn [negb] in Hf; invert_binds Hf;
    injection Hf as <- <-;
    repeat match goal with
    | E : store _ _ _ = Some _ |- _ =>
        apply store_Some in E; destruct E as [? ->]
    | E : load _ _ = Some _ |- _ => apply load_Some_in in E
    end;
    rewrite ?upd_length; done.
Qed.

Lemma LSTMUnitGradient_feature_Some D (C_prev X C C_diff H_diff : list T) vld
    pC_prev pX pC pC_diff pH_diff pX_diff pC_prev_diff d
    (Cpd Xd Cpd' Xd' : list T) :
  detail.LSTMUnitGradient_feature D C_prev X C C_diff H_diff vld
    pC_prev pX pC pC_diff pH_diff pX_diff pC_prev_diff d (Cpd, Xd)
    = Some (Cpd', Xd') ->
  length Cpd' = length Cpd /\ length Xd' = length Xd /\
  0 <= pC_prev_diff + d < Z.of_nat (length Cpd) /\
  0 <= pX_diff + 3 * D + d < Z.of_nat (length Xd) /\
  0 <= pC_diff + d < Z.of_nat (length C_diff).
Proof.
  unfold detail.LSTMUnitGradient_feature. intros Hf.
  destruct vld; cbn [negb] in Hf; invert_binds Hf;
    injection Hf as <- <-;
    repeat match goal with
    | E : store _ _ _ = Some _ |- _ =>
        apply store_Some in E; destruct E as [? ->]
    | E : load _ _ = Some _ |- _ => apply load_Some_in in E
    end;
    rewrite ?upd_length in *; done.
Qed.

End Converse.

Section ConverseShapes.
Context {T : Type} `{Scalar T}.

Lemma LSTMUnit_inner_lengths D (C_prev X : list T) vld pC_prev pX pC pH hi
    (C H0 : list T) out :
  0 <= hi ->
  for_int hi (detail.LSTMUnit_feature D C_prev X vld pC_prev pX pC pH) (C, H0)
    = Some out ->
  length out.1 = length C /\ length out.2 = length H0.
Proof.
  intros Hhi.
  apply (for_int_inv_partial
    (fun _ o => length o.1 = length C /\ length o.2 = length H0));
    [done | done |].
  intros d [C1 H1] [C2 H2] Hd [HlC HlH] Hf. simpl in *.
  destruct (LSTMUnit_feature_Some _ _ _ _ _ _ _ _ _ _ _ _ _ Hf)
    as (E1 & E2 & _). lia.
Qed.

Lemma LSTMUnitGradient_inner_lengths D (C_prev X C C_diff H_diff : list T) vld
    pC_prev pX pC pC_diff pH_diff pX_diff pC_prev_diff hi
    (Cpd Xd : list T) out :
  0 <= hi ->
  for_int hi
    (detail.LSTMUnitGradient_feature D C_prev X C C_diff H_diff vld
       pC_prev pX pC pC_diff pH_diff pX_diff pC_prev_diff) (Cpd, Xd)
    = Some out ->
  length out.1 = length Cpd /\ length out.2 = length Xd.
Proof.
  intros Hhi.
  apply (for_int_inv_partial
    (fun _ o => length o.1 = length Cpd /\ length o.2 = length Xd));
    [done | done |].
  intros d [C1 X1] [C2 X2] Hd [HlC HlX] Hf. simpl in *.
  destruct (LSTMUnitGradient_feature_Some _ _ _ _ _ _ _ _ _ _ _ _ _ _ _ _
              _ _ _ Hf) as (E1 & E2 & _). lia.
Qed.

(** X22.  The forward kernel returns only if the buffers are large
    enough: with [N > 0] and [D > 0], a call that returns had at least [N]
    sequence lengths and at least [N * D] cells in each of [C_prev], [C]
    and [H].  (The kernel itself checks nothing; on smaller buffers it
    reads or writes out of bounds.) *)
Theorem LSTMUnit_returns_only_if (N D t : Z) (C_prev X : list T)
    (seqLengths : list Z) (C0 H0 C H1 : list T) :
  0 < N -> 0 < D ->
  detail.LSTMUnit N D t C_prev X seqLengths C0 H0 = Some (C, H1) ->
  N <= Z.of_nat (length seqLengths) /\
  N * D <= Z.of_nat (length C_prev) /\
  N * D <= Z.of_nat (length C0) /\
  N * D <= Z.of_nat (length H0).
Proof.
  intros HN HD Hrun. split.
  { destruct (decide (Z.of_nat (length seqLengths) < N)) as [Hs|Hs]; [|lia].
    destruct (kernels_short_lengths N D t C_prev X seqLengths
                [] [] [] [] C0 H0 [] [] Hs) as [E _].
    rewrite E in Hrun. discriminate. }
  unfold detail.LSTMUnit in Hrun.
  destruct (for_int N _ _) as [s|] eqn:Hloop; [|discriminate]. clear Hrun.
  destruct (for_int_last _ N _ s HN Hloop) as (s0 & Hpre & Hlast).
  assert (Hs0 : detail.fw_C_prev s0 = (N - 1) * D /\
                detail.fw_C s0 = (N - 1) * D /\
                detail.fw_H s0 = (N - 1) * D /\
                length (detail.fw_Cbuf s0) = length C0 /\
                length (detail.fw_Hbuf s0) = length H0).
  { revert Hpre.
    apply (for_int_inv_partial (fun n s =>
      detail.fw_C_prev s = n * D /\ detail.fw_C s = n * D /\
      detail.fw_H s = n * D /\
      length (detail.fw_Cbuf s) = length C0 /\
      length (detail.fw_Hbuf s) = length H0)); [lia | simpl; lia |].
    intros n s1 s2 Hn (E1 & E2 & E3 & E4 & E5) Hb.
    unfold detail.LSTMUnit_seq in Hb. invert_binds Hb.
    injection Hb as <-. simpl.
    destruct (LSTMUnit_inner_lengths _ _ _ _ _ _ _ _ _ _ _ _
                (Z.lt_le_incl _ _ HD) E0) as [L1 L2].
    lia. }
  destruct Hs0 as (E1 & E2 & E3 & E4 & E5).
  unfold detail.LSTMUnit_seq in Hlast. invert_binds Hlast. clear Hlast.
  destruct (for_int_last _ D _ _ HD E0) as ([Ca Ha] & Hin & Hf).
  assert (HD1 : 0 <= D - 1) by lia.
  destruct (LSTMUnit_inner_lengths _ _ _ _ _ _ _ _ _ _ _ _ HD1 Hin)
    as [L1 L2].
  destruct p as [Cb Hb].
  destruct (LSTMUnit_feature_Some _ _ _ _ _ _ _ _ _ _ _ _ _ Hf)
    as (_ & _ & B1 & B2 & B3).
  simpl in *. nia.
Qed.

(** X23.  The backward kernel returns only if the buffers are large
    enough: with [N > 0] and [D > 0], a call that returns had at least [N]
    sequence lengths, at least [N * D] cells in [C_diff] and
    [C_prev_diff], and at least [N * 4 * D] cells in [X_diff]. *)
Theorem LSTMUnitGradient_returns_only_if (N D t : Z) (C_prev X : list T)
    (seqLengths : list Z) (C H1 C_diff H_diff Cpd0 Xd0 Cpd Xd : list T) :
  0 < N -> 0 < D ->
  detail.LSTMUnitGradient N D t C_prev X seqLengths C H1 C_diff H_diff
    Cpd0 Xd0 = Some (Cpd, Xd) ->
  N <= Z.of_nat (length seqLengths) /\
  N * D <= Z.of_nat (length C_diff) /\
  N * D <= Z.of_nat (length Cpd0) /\
  N * (4 * D) <= Z.of_nat (length Xd0).
Proof.
  intros HN HD Hrun. split.
  { destruct (decide (Z.of_nat (length seqLengths) < N)) as [Hs|Hs]; [|lia].
    destruct (kernels_short_lengths N D t C_prev X seqLengths
                C H1 C_diff H_diff [] [] Cpd0 Xd0 Hs) as [_ E].
    rewrite E in Hrun. discriminate. }
  unfold detail.LSTMUnitGradient in Hrun.
  destruct (for_int N _ _) as [s|] eqn:Hloop; [|discriminate]. clear Hrun.
  destruct (for_int_last _ N _ s HN Hloop) as (s0 & Hpre & Hlast).
  assert (Hs0 : detail.bw_C_diff s0 = (N - 1) * D /\
                detail.bw_C_prev_diff s0 = (N - 1) * D /\
                detail.bw_X_diff s0 = (N - 1) * (4 * D) /\
                length (detail.bw_C_prev_diff_buf s0) = length Cpd0 /\
                length (detail.bw_X_diff_buf s0) = length Xd0).
  { revert Hpre.
    apply (for_int_inv_partial (fun n s =>
      detail.bw_C_diff s = n * D /\ detail.bw_C_prev_diff s = n * D /\
      detail.bw_X_diff s = n * (4 * D) /\
      length (detail.bw_C_prev_diff_buf s) = length Cpd0 /\
      length (detail.bw_X_diff_buf s) = length Xd0)); [lia | simpl; lia |].
    intros n s1 s2 Hn (E1 & E2 & E3 & E4 & E5) Hb.
    unfold detail.LSTMUnitGradient_seq in Hb. invert_binds Hb.
    injection Hb as <-. simpl.
    destruct (LSTMUnitGradient_inner_lengths _ _ _ _ _ _ _ _ _ _ _ _ _ _ _
                _ _ _ (Z.lt_le_incl _ _ HD) E0) as [L1 L2].
    lia. }
  destruct Hs0 as (E1 & E2 & E3 & E4 & E5).
  unfold detail.LSTMUnitGradient_seq in Hlast. invert_binds Hlast.
  clear Hlast.
  destruct (for_int_last _ D _ _ HD E0) as ([Ca Xa] & Hin & Hf).
  assert (HD1 : 0 <= D - 1) by lia.
  destruct (LSTMUnitGradient_inner_lengths _ _ _ _ _ _ _ _ _ _ _ _ _ _ _
              _ _ _ HD1 Hin) as [L1 L2].
  destruct p as [Cb Xb].
  destruct (LSTMUnitGradient_feature_Some _ _ _ _ _ _ _ _ _ _ _ _ _ _ _ _
              _ _ _ Hf) as (_ & _ & B1 & B2 & B3).
  simpl in *. nia.
Qed.

End ConverseShapes.

Lemma LSTMUnit_returns_only_if_witness :
  1 <= Z.of_nat (length [1]) /\
  1 * 1 <= Z.of_nat (length [2%R]) /\
  1 * 1 <= Z.of_nat (length [9%R]) /\
  1 * 1 <= Z.of_nat (length [9%R]).
Proof.
  refine (LSTMUnit_returns_only_if 1 1 0 [2%R] [0%R; 1%R; 2%R; 3%R] [1]
            [9%R] [9%R] _ _ _ _
            (LSTMUnit_1x1 2%R 0%R 1%R 2%R 3%R 9%R 9%R)); lia.
Defined.

Lemma LSTMUnitGradient_returns_only_if_witness :
  1 <= Z.of_nat (length [1]) /\
  1 * 1 <= Z.of_nat (length [5%R]) /\
  1 * 1 <= Z.of_nat (length [9%R]) /\
  1 * (4 * 1) <= Z.of_nat (length [9%R; 9%R; 9%R; 9%R]).
Proof.
  refine (LSTMUnitGradient_returns_only_if 1 1 0 [2%R]
            [0%R; 1%R; 2%R; 3%R] [1] [4%R] [7%R] [5%R] [6%R]
            [9%R] [9%R; 9%R; 9%R; 9%R] _ _ _ _
            (LSTMUnitGradient_1x1 2%R 0%R 1%R 2%R 3%R 4%R 7%R 5%R 6%R
               9%R 9%R 9%R 9%R 9%R)); lia.
Defined.
